(** * navigationChatBox: target resolution, action execution and the
      conversation loop

    A shallow embedding of [src/lib/tool-runner.ts], [src/lib/page-snapshot.ts],
    [src/components/chat-panel.tsx] and the chat API route, with the
    properties of the specification stated over it.

    Conventions of the embedding.
    - A JavaScript string is a [string] whose characters stand for code
      units below 128; [\s], [trim] and [toLowerCase] are written out for
      that range (characters from 128 on are carried through unchanged).
    - [null] and [undefined] results are [None]; [indexOf]'s [-1] is [None].
    - The live document is a tree of [node]s; an element handle is the
      path to it together with what the code reads from it.
    - What the runtime decides (number conversion, the CSS engine behind
      [querySelector] on a caller-supplied selector, layout visibility,
      which elements are HTML elements, what a form control keeps of a
      value written to it, clocks, JSON printing, random identifiers, the
      network) is a field of [JsNumber], [Browser], [Server] or
      [Network]: every theorem holds for every runtime.
    - Exceptions are values: code that may throw returns an [outcome],
      and [try]/[catch] is [attempt].
    - Timers and delays are not modelled: a turn runs to its end without
      other events in between, and a timer is only recorded when it is
      set. *)

From Stdlib Require Import List Bool Arith NArith ZArith Lia String Ascii PeanoNat.
Import ListNotations.

Set Implicit Arguments.
Set Warnings "-register-all".
Open Scope string_scope.
Open Scope list_scope.
Open Scope nat_scope.

(** ** JavaScript strings *)

Module JsString.

(** [\s] restricted to the ASCII range: TAB, LF, VT, FF, CR and SPACE. *)
Definition is_space (c : ascii) : bool :=
  let n := nat_of_ascii c in
  ((9 <=? n) && (n <=? 13)) || (n =? 32).

Definition is_upper (c : ascii) : bool :=
  let n := nat_of_ascii c in (65 <=? n) && (n <=? 90).

Definition is_digit (c : ascii) : bool :=
  let n := nat_of_ascii c in (48 <=? n) && (n <=? 57).

(** [\w]: letters, digits and the underscore. *)
Definition is_word (c : ascii) : bool :=
  let n := nat_of_ascii c in
  is_digit c || is_upper c || ((97 <=? n) && (n <=? 122)) || (n =? 95).

Definition lower_char (c : ascii) : ascii :=
  if is_upper c then ascii_of_nat (nat_of_ascii c + 32) else c.

Fixpoint toLowerCase (s : string) : string :=
  match s with
  | EmptyString => EmptyString
  | String c r => String (lower_char c) (toLowerCase r)
  end.

(** [s.replace(/\s+/g, " ")]: [in_run] tells that the previous character
    belonged to the run of white space being replaced. *)
Fixpoint collapse_from (in_run : bool) (s : string) : string :=
  match s with
  | EmptyString => EmptyString
  | String c r =>
      if is_space c
      then if in_run then collapse_from true r
           else String " " (collapse_from true r)
      else String c (collapse_from false r)
  end.

Definition collapse (s : string) : string := collapse_from false s.

Fixpoint trimStart (s : string) : string :=
  match s with
  | EmptyString => EmptyString
  | String c r => if is_space c then trimStart r else s
  end.

Fixpoint all_space (s : string) : bool :=
  match s with
  | EmptyString => true
  | String c r => is_space c && all_space r
  end.

Fixpoint trimEnd (s : string) : string :=
  match s with
  | EmptyString => EmptyString
  | String c r => if all_space s then EmptyString else String c (trimEnd r)
  end.

Definition trim (s : string) : string := trimEnd (trimStart s).

(** [s.startsWith(p)] *)
Fixpoint startsWith (s p : string) : bool :=
  match p, s with
  | EmptyString, _ => true
  | String _ _, EmptyString => false
  | String a p', String b s' => Ascii.eqb a b && startsWith s' p'
  end.

(** [s.indexOf(p)], with [None] for [-1]. *)
Fixpoint indexOf (s p : string) : option nat :=
  if startsWith s p then Some 0
  else match s with
       | EmptyString => None
       | String _ r => option_map S (indexOf r p)
       end.

(** [s.includes(p)] *)
Definition includes (s p : string) : bool :=
  match indexOf s p with Some _ => true | None => false end.

(** [s.slice(0, n)] for [0 <= n]. *)
Fixpoint slice0 (n : nat) (s : string) : string :=
  match n, s with
  | O, _ => EmptyString
  | _, EmptyString => EmptyString
  | S k, String c r => String c (slice0 k r)
  end.

(** JavaScript truthiness of a string: non-empty. *)
Definition nonempty (s : string) : bool :=
  match s with EmptyString => false | _ => true end.

(** [parts.join(sep)] *)
Fixpoint join (sep : string) (parts : list string) : string :=
  match parts with
  | [] => EmptyString
  | [p] => p
  | p :: rest => (p ++ sep ++ join sep rest)%string
  end.

End JsString.
Import JsString.

(** ** Numbers and values *)

(** What the code asks of JavaScript numbers (IEEE doubles): the
    conversions and tests that [readNumber], [runScrollBy] and the card
    order comparison perform. *)
Class JsNumber : Type := {
  number : Type;
  num_NaN : number;                      (* Number(undefined) *)
  num_of_string : string -> number;      (* Number(s) *)
  num_isFinite : number -> bool;         (* Number.isFinite(x) *)
  num_is_int : number -> N -> bool;      (* x === k, k an integer below 2^53 *)
  num_geq0 : number -> bool;             (* x >= 0 *)
  num_round : number -> number;          (* Math.round(x) *)
  num_abs : number -> number;            (* Math.abs(x) *)
  num_to_string : number -> string       (* `${x}` *)
}.

(** A thrown value: an [Error] with its message, or anything else. *)
Inductive thrown : Type :=
| ErrorObj (message : string)
| NonError.

Inductive outcome (A : Type) : Type :=
| Returned (a : A)
| Threw (e : thrown).
Arguments Returned {A} a.
Arguments Threw {A} e.

(** Decimal digits of a natural number, as [`${n}`] prints an integer. *)
Definition digit_char (d : nat) : ascii := ascii_of_nat (48 + d).

Fixpoint nat_digits (fuel n : nat) (acc : string) : string :=
  match fuel with
  | O => acc
  | S f =>
      let acc' := String (digit_char (n mod 10)) acc in
      if n / 10 =? 0 then acc' else nat_digits f (n / 10) acc'
  end.

Definition nat_to_string (n : nat) : string := nat_digits (S n) n EmptyString.

Section Values.
Context {JN : JsNumber}.

(** A JavaScript value as JSON delivers it.  The fields of [JObj] are
    listed in property enumeration order ([Object.entries]). *)
Inductive jsval : Type :=
| JUndefined
| JNull
| JBool (b : bool)
| JNum (x : number)
| JStr (s : string)
| JArr (items : list jsval)
| JObj (fields : list (string * jsval)).

(** [obj[key]] *)
Fixpoint get_prop (fields : list (string * jsval)) (key : string) : jsval :=
  match fields with
  | [] => JUndefined
  | (k, v) :: rest => if String.eqb k key then v else get_prop rest key
  end.

(** Both [isObject] (tool-runner.ts) and [isRecord] (the API route):
    [typeof value === "object" && value !== null && !Array.isArray(value)]. *)
Definition isObject (v : jsval) : option (list (string * jsval)) :=
  match v with
  | JObj fields => Some fields
  | _ => None
  end.

Fixpoint readString (args : list (string * jsval)) (keys : list string)
  : option string :=
  match keys with
  | [] => None
  | key :: rest =>
      match get_prop args key with
      | JStr value =>
          if nonempty (trim value) then Some (trim value)
          else readString args rest
      | _ => readString args rest
      end
  end.

Fixpoint readNumber (args : list (string * jsval)) (keys : list string)
  : option number :=
  match keys with
  | [] => None
  | key :: rest =>
      match get_prop args key with
      | JNum value =>
          if num_isFinite value then Some value else readNumber args rest
      | JStr value =>
          if nonempty (trim value) && num_isFinite (num_of_string value)
          then Some (num_of_string value)
          else readNumber args rest
      | _ => readNumber args rest
      end
  end.

End Values.

(** ** The live document *)

Definition attrs := list (string * string).

(** A document tree: text nodes and elements (lower-case tag name,
    attributes with lower-case names, children in document order). *)
Inductive node : Type :=
| Text (data : string)
| Elem (tag : string) (attributes : attrs) (children : list node).

(** An ancestor as seen from below: what [closest], [parentElement] and
    [parentElement.children] read from it. *)
Record ancestor : Type := {
  up_tag : string;
  up_attrs : attrs;
  up_children : list node
}.

(** An element handle.  [el_path] is the list of child positions from the
    document element down to the element and is its identity;
    [el_up] lists its ancestors, the parent first. *)
Record el : Type := {
  el_path : list nat;
  el_tag : string;
  el_attrs : attrs;
  el_children : list node;
  el_up : list ancestor
}.

Fixpoint attr_lookup (a : attrs) (name : string) : option string :=
  match a with
  | [] => None
  | (k, v) :: rest => if String.eqb k name then Some v else attr_lookup rest name
  end.

(** [element.getAttribute(name)] *)
Definition getAttribute (e : el) (name : string) : option string :=
  attr_lookup (el_attrs e) name.

Definition hasAttribute (e : el) (name : string) : bool :=
  match getAttribute e name with Some _ => true | None => false end.

(** [element.id]: the reflected attribute, [""] when absent. *)
Definition el_id (e : el) : string :=
  match getAttribute e "id" with Some v => v | None => "" end.

(** [node.textContent] *)
Fixpoint node_text (n : node) : string :=
  match n with
  | Text s => s
  | Elem _ _ kids =>
      (fix texts (l : list node) : string :=
         match l with
         | [] => EmptyString
         | k :: r => (node_text k ++ texts r)%string
         end) kids
  end.

Definition textContent (e : el) : string :=
  node_text (Elem (el_tag e) (el_attrs e) (el_children e)).

(** All elements of a subtree in document order, the subtree's own root
    first; [p] and [up] are the root's path and ancestors. *)
Fixpoint walk (p : list nat) (up : list ancestor) (n : node) : list el :=
  match n with
  | Text _ => []
  | Elem t a kids =>
      {| el_path := p; el_tag := t; el_attrs := a; el_children := kids;
         el_up := up |}
      :: (fix below (i : nat) (l : list node) : list el :=
            match l with
            | [] => []
            | k :: r =>
                walk (p ++ [i])
                     ({| up_tag := t; up_attrs := a; up_children := kids |} :: up)
                     k
                ++ below (S i) r
            end) 0 kids
  end.

Definition el_node (e : el) : node :=
  Elem (el_tag e) (el_attrs e) (el_children e).

(** The elements [element.querySelectorAll] ranges over: the descendants,
    without the element itself. *)
Definition descendants (e : el) : list el :=
  tl (walk (el_path e) (el_up e) (el_node e)).

(** The selectors the code writes out.  A selector is a comma-separated
    group of these. *)
Inductive simple_selector : Type :=
| STag (tag : string)                       (* a *)
| SAttr (name : string)                     (* [data-project-card] *)
| SAttrEq (name value : string)             (* [data-chat-ui='true'] *)
| STagAttr (tag name : string).             (* section[id], a[href] *)

Definition selector := list simple_selector.

Definition simple_matches (t : string) (a : attrs) (s : simple_selector) : bool :=
  match s with
  | STag tag => String.eqb t tag
  | SAttr name =>
      match attr_lookup a name with Some _ => true | None => false end
  | SAttrEq name value =>
      match attr_lookup a name with
      | Some v => String.eqb v value
      | None => false
      end
  | STagAttr tag name =>
      String.eqb t tag &&
      match attr_lookup a name with Some _ => true | None => false end
  end.

Definition sel_matches (sel : selector) (t : string) (a : attrs) : bool :=
  existsb (simple_matches t a) sel.

(** [element.matches(sel)] *)
Definition matches (sel : selector) (e : el) : bool :=
  sel_matches sel (el_tag e) (el_attrs e).

(** [element.closest(sel) !== null]: the element itself or an ancestor
    matches. *)
Definition closest_exists (sel : selector) (e : el) : bool :=
  matches sel e
  || existsb (fun u => sel_matches sel (up_tag u) (up_attrs u)) (el_up e).

(** The attributes of [element.closest(sel)], when there is one. *)
Definition closest_attrs (sel : selector) (e : el) : option attrs :=
  if matches sel e then Some (el_attrs e)
  else option_map up_attrs
         (find (fun u => sel_matches sel (up_tag u) (up_attrs u)) (el_up e)).

Definition HIGHLIGHT_CLASS : string := "co-highlight-pulse".
Definition CHAT_UI_SELECTOR : selector := [SAttrEq "data-chat-ui" "true"].

(** ** Code with state and exceptions *)

(** A computation over a state [S] that returns or throws; the state
    reached is kept in both cases, so what was written before a throw
    stays written. *)
Definition ST (S A : Type) : Type := S -> outcome A * S.

Definition ret {S A} (a : A) : ST S A := fun s => (Returned a, s).

Definition bind {S A B} (m : ST S A) (k : A -> ST S B) : ST S B :=
  fun s =>
    match m s with
    | (Returned a, s') => k a s'
    | (Threw e, s') => (Threw e, s')
    end.

Definition throw {S A} (e : thrown) : ST S A := fun s => (Threw e, s).

(** [try { m }] with the outcome handed to the code that follows. *)
Definition attempt {S A} (m : ST S A) : ST S (outcome A) :=
  fun s => let (r, s') := m s in (Returned r, s').

Definition gets {S A} (f : S -> A) : ST S A := fun s => (Returned (f s), s).

Definition modify {S} (f : S -> S) : ST S unit := fun s => (Returned tt, f s).

Declare Scope js_scope.
Delimit Scope js_scope with js.
Notation "x <- m ;; k" := (bind m (fun x => k))
  (at level 61, m at next level, right associativity) : js_scope.
Notation "m ;;; k" := (bind m (fun _ => k))
  (at level 61, right associativity) : js_scope.

Fixpoint path_eqb (p q : list nat) : bool :=
  match p, q with
  | [], [] => true
  | a :: p', b :: q' => (a =? b) && path_eqb p' q'
  | _, _ => false
  end.

(** The double quote, for messages that quote a name. *)
Definition dq : string := String (ascii_of_nat 34) EmptyString.

Section Dom.
Context {JN : JsNumber}.

(** What an action leaves behind besides field values, in order. *)
Inductive effect : Type :=
| EScrollBy (top : number)                      (* window.scrollBy({top, behavior}) *)
| EScrollIntoView (target : list nat) (block : string)
| EReplaceState (url : string)                  (* history.replaceState(null, "", url) *)
| EHighlightTimer (target : list nat) (ms : nat)  (* timer removing the class *)
| EDispatch (target : list nat) (event : string)
| EFocus (target : list nat)
| EClick (target : list nat).

(** The state of the page as the tools change it: the tree, the
    location, the value each form control took from the last write to
    it, the elements the highlight class was added to, and the log of
    effects.  A timer that takes the highlight off again is logged when
    it is set; its firing, 2600 ms later, is no step of an action and is
    not modelled. *)
Record dom : Type := {
  dom_root : node;
  dom_href : string;
  dom_title : string;
  dom_value : list nat -> option string;
  dom_highlight : list (list nat);
  dom_log : list effect
}.

(** What the browser decides. *)
Class Browser : Type := {
  (* document.querySelectorAll(s) for a selector given as text:
     [None] when the text is not a valid selector (a SyntaxError) *)
  css_select : dom -> string -> option (list el);
  (* the test of [isVisible]: computed style and bounding box *)
  rendered : dom -> el -> bool;
  (* CSS.escape, when the browser has it *)
  CSS_escape : option (string -> string);
  (* the location after replaceState(null, "", url) *)
  url_resolve : string -> string -> string;
  (* new Date().toISOString() at the i-th reading of the clock *)
  now_iso : nat -> string;
  (* element instanceof HTMLElement: the element is one of the HTML
     namespace, with [click], [focus] and the typed interfaces; elements
     of SVG and MathML are not *)
  html_element : el -> bool;
  (* the native setter of [value] called with a string: the value the
     control holds afterwards, sanitized for its type, or the exception
     the setter raises (an input of type file takes the empty string
     only) *)
  set_value : el -> string -> outcome string
}.

(** Code that changes the page or throws. *)
Definition M (A : Type) : Type := ST dom A.

Definition read {A} (f : dom -> A) : M A := gets f.

Definition log (e : effect) : M unit :=
  fun d =>
    (Returned tt,
     {| dom_root := dom_root d; dom_href := dom_href d; dom_title := dom_title d;
        dom_value := dom_value d; dom_highlight := dom_highlight d;
        dom_log := dom_log d ++ [e] |}).

End Dom.

(** ** tool-runner.ts: target resolution *)

Section Resolution.
Context {JN : JsNumber} {BR : Browser}.

Definition SECTION_ALIASES : list (string * list string) :=
  [ ("hero", ["hero"; "home"; "top"; "intro"; "landing"]);
    ("about", ["about"; "bio"; "background"; "profile"]);
    ("projects", ["projects"; "portfolio"; "work"; "case studies"; "case-study"]);
    ("skills", ["skills"; "tech"; "stack"; "expertise"]);
    ("contact", ["contact"; "hire"; "email"; "reach"; "message"]) ].

Definition ORDINAL_TO_INDEX : list (string * N) :=
  [ ("first", 1%N); ("second", 2%N); ("third", 3%N); ("fourth", 4%N);
    ("fifth", 5%N) ].

Definition normalize (value : string) : string :=
  trim (collapse (toLowerCase value)).

(** [document.querySelectorAll(sel)] for a selector of the code. *)
Definition all_elements (d : dom) : list el := walk [] [] (dom_root d).

Definition querySelectorAll (d : dom) (sel : selector) : list el :=
  filter (matches sel) (all_elements d).

(** [scope.querySelectorAll(sel)] and [scope.querySelector(sel)] *)
Definition querySelectorAll_in (scope : el) (sel : selector) : list el :=
  filter (matches sel) (descendants scope).

Definition querySelector_in (scope : el) (sel : selector) : option el :=
  hd_error (querySelectorAll_in scope sel).

Definition getElementById (d : dom) (id : string) : option el :=
  if nonempty id
  then find (fun e => match getAttribute e "id" with
                      | Some v => String.eqb v id
                      | None => false
                      end) (all_elements d)
  else None.

Definition safeQuery (d : dom) (sel : string) : option el :=
  match css_select d sel with
  | Some (e :: _) => Some e
  | _ => None
  end.

Definition isInsideChatUi (e : el) : bool :=
  closest_exists CHAT_UI_SELECTOR e.

Definition describeElement (e : el) : string :=
  let tag := toLowerCase (el_tag e) in
  let text := trim (collapse (textContent e)) in
  let trimmed :=
    (if nonempty text then " " ++ dq ++ slice0 44 text ++ dq else "")%string in
  ("<" ++ tag ++ ">" ++ trimmed)%string.

(** The longest run of digits at the head of [s]. *)
Fixpoint digit_run (s : string) : string :=
  match s with
  | String c r => if is_digit c then String c (digit_run r) else EmptyString
  | EmptyString => EmptyString
  end.

(** Does the run of digits at the head of [s] end at a word boundary? *)
Fixpoint run_ends_at_boundary (s : string) : bool :=
  match s with
  | String c r => if is_digit c then run_ends_at_boundary r else negb (is_word c)
  | EmptyString => true
  end.

(** [s.match(/\b(\d+)\b/)]: the first run of digits with no word
    character on either side; [prev_word] tells whether the character
    before [s] is a word character. *)
Fixpoint match_standalone_digits (prev_word : bool) (s : string) : option string :=
  match s with
  | EmptyString => None
  | String c r =>
      if is_digit c && negb prev_word && run_ends_at_boundary s
      then Some (digit_run s)
      else match_standalone_digits (is_word c) r
  end.

Fixpoint digits_value (acc : N) (s : string) : N :=
  match s with
  | EmptyString => acc
  | String c r => digits_value (10 * acc + N.of_nat (nat_of_ascii c - 48))%N r
  end.

(** Decimal values from this bound on convert to [Infinity]. *)
Definition INFINITY_FROM : N := (2 ^ 1024 - 2 ^ 970)%N.

(** [Number(digits)] followed by the [Number.isFinite] test.  The result
    stands for the double nearest to the decimal value; the code only
    compares it with positions in the card list, which are below 2^53,
    where the two agree. *)
Definition number_of_digits (digits : string) : option N :=
  let v := digits_value 0%N digits in
  if (v <? INFINITY_FROM)%N then Some v else None.

Definition parseOrdinal (hint : string) : option N :=
  let normalizedHint := normalize hint in
  match find (fun entry => includes normalizedHint (fst entry)) ORDINAL_TO_INDEX with
  | Some (_, index) => Some index
  | None =>
      match match_standalone_digits false normalizedHint with
      | Some digits => number_of_digits digits
      | None => None
      end
  end.

(** [s.replace(/^#/, "")] *)
Definition strip_hash (s : string) : string :=
  match s with
  | String c r => if Ascii.eqb c "#" then r else s
  | EmptyString => EmptyString
  end.

Definition SECTION_WITH_ID : selector := [STagAttr "section" "id"].
Definition HEADINGS : selector := [STag "h1"; STag "h2"; STag "h3"].

(** The loop over [Object.entries(SECTION_ALIASES)]. *)
Fixpoint alias_scan (d : dom) (normalizedHint : string)
  (table : list (string * list string)) : option el :=
  match table with
  | [] => None
  | (id, aliases) :: rest =>
      if existsb (fun alias => includes normalizedHint alias) aliases
      then match getElementById d id with
           | Some candidate => Some candidate
           | None => alias_scan d normalizedHint rest
           end
      else alias_scan d normalizedHint rest
  end.

Definition section_heading_text (section : el) : string :=
  match querySelector_in section HEADINGS with
  | Some h => textContent h
  | None => ""
  end.

Definition resolveSectionFromHint (d : dom) (hint : string) : option el :=
  let normalizedHint := strip_hash (normalize hint) in
  if negb (nonempty normalizedHint) then None
  else
    match getElementById d normalizedHint with
    | Some directById => Some directById
    | None =>
        match alias_scan d normalizedHint SECTION_ALIASES with
        | Some candidate => Some candidate
        | None =>
            hd_error
              (filter
                 (fun section =>
                    includes
                      (normalize (el_id section ++ " " ++ section_heading_text section)%string)
                      normalizedHint)
                 (querySelectorAll d SECTION_WITH_ID))
        end
    end.

Definition PROJECT_CARD : selector := [SAttr "data-project-card"].

(** [card.dataset.projectOrder] and [card.dataset.projectTitle] *)
Definition projectOrder (card : el) : option string :=
  getAttribute card "data-project-order".

Definition projectTitle (card : el) : option string :=
  getAttribute card "data-project-title".

(** [card.dataset.projectOrder === text] *)
Definition order_text_is (text : string) (card : el) : bool :=
  match projectOrder card with
  | Some v => String.eqb v text
  | None => false
  end.

(** [Number(card.dataset.projectOrder) === ordinal] *)
Definition order_is (ordinal : N) (card : el) : bool :=
  match projectOrder card with
  | Some v => num_is_int (num_of_string v) ordinal
  | None => num_is_int num_NaN ordinal
  end.

Definition findProjectCardByHint (d : dom) (hint : string) : option el :=
  let cards := querySelectorAll d PROJECT_CARD in
  match cards with
  | [] => None
  | first_card :: _ =>
      let normalizedHint := normalize hint in
      if includes normalizedHint "most recent"
         || includes normalizedHint "latest"
         || includes normalizedHint "newest"
      then
        match find (order_text_is "1") cards with
        | Some latest => Some latest
        | None => Some first_card
        end
      else
        let by_title :=
          find (fun card =>
                  let title := match projectTitle card with
                               | Some t => t
                               | None => textContent card
                               end in
                  includes (normalize title) normalizedHint) cards in
        match parseOrdinal normalizedHint with
        | Some ordinal =>
            if negb (ordinal =? 0)%N && (1 <=? ordinal)%N
               && (ordinal <=? N.of_nat (List.length cards))%N
            then
              match find (order_is ordinal) cards with
              | Some byOrder => Some byOrder
              | None => nth_error cards (N.to_nat (ordinal - 1))
              end
            else by_title
        | None => by_title
        end
  end.

End Resolution.

Section TextSearch.
Context {JN : JsNumber} {BR : Browser}.

Definition TEXT_QUERY : selector :=
  [ STagAttr "section" "id"; SAttr "data-project-card"; STag "a"; STag "button";
    STag "input"; STag "textarea"; STag "select"; STag "h1"; STag "h2";
    STag "h3"; STag "p"; STag "li" ].

Definition attr_or_empty (e : el) (name : string) : string :=
  match getAttribute e name with Some v => v | None => "" end.

(** The composite string of a candidate. *)
Definition composite (e : el) : string :=
  normalize (textContent e ++ " " ++ attr_or_empty e "aria-label" ++ " "
             ++ attr_or_empty e "placeholder" ++ " "
             ++ attr_or_empty e "data-project-title")%string.

(** [index + content.length], or [None] for [Infinity]. *)
Definition score (target : string) (e : el) : option nat :=
  let content := composite e in
  match indexOf content target with
  | Some index => Some (index + String.length content)
  | None => None
  end.

(** Scoring, then dropping the candidates whose score is not finite. *)
Fixpoint finite_scores (target : string) (l : list el) : list (el * nat) :=
  match l with
  | [] => []
  | e :: r =>
      match score target e with
      | Some s => (e, s) :: finite_scores target r
      | None => finite_scores target r
      end
  end.

(** [Array.prototype.sort] with the comparator [a.score - b.score]: a
    stable sort, written as insertion from the right. *)
Fixpoint insert_ranked (x : el * nat) (l : list (el * nat)) : list (el * nat) :=
  match l with
  | [] => [x]
  | y :: r => if snd x <=? snd y then x :: l else y :: insert_ranked x r
  end.

Fixpoint sort_ranked (l : list (el * nat)) : list (el * nat) :=
  match l with
  | [] => []
  | x :: r => insert_ranked x (sort_ranked r)
  end.

(** The candidates of the ranked search. *)
Definition text_candidates (d : dom) : list el :=
  filter (fun element => negb (isInsideChatUi element))
         (querySelectorAll d TEXT_QUERY).

Definition findByText (d : dom) (text : string) : option el :=
  let target := normalize text in
  if negb (nonempty target) then None
  else
    let ranked := sort_ranked (finite_scores target (text_candidates d)) in
    option_map fst (hd_error ranked).

Definition INPUT_OR_TEXTAREA : selector := [STag "input"; STag "textarea"].

(** The attributes [findInputByFieldName] compares, those that are set
    and not empty, normalized. *)
Definition field_attrs (candidate : el) : list string :=
  map normalize
    (flat_map
       (fun name =>
          match getAttribute candidate name with
          | Some v => if nonempty v then [v] else []
          | None => []
          end)
       ["name"; "id"; "placeholder"; "aria-label"]).

Definition findInputByFieldName (d : dom) (fieldName : string) : option el :=
  let normalizedField := normalize fieldName in
  find (fun candidate =>
          negb (isInsideChatUi candidate)
          && existsb (fun attr => includes attr normalizedField)
                     (field_attrs candidate))
       (querySelectorAll d INPUT_OR_TEXTAREA).

Definition findElement (d : dom) (args : list (string * jsval)) : option el :=
  let by_section :=
    match readString args ["sectionId"; "section"; "targetSection"] with
    | Some sectionHint => resolveSectionFromHint d sectionHint
    | None => None
    end in
  match by_section with
  | Some section => Some section
  | None =>
      let by_selector :=
        match readString args ["selector"] with
        | Some selector =>
            match safeQuery d selector with
            | Some bySelector =>
                if negb (isInsideChatUi bySelector) then Some bySelector else None
            | None => None
            end
        | None => None
        end in
      match by_selector with
      | Some bySelector => Some bySelector
      | None =>
          match readString args ["text"; "label"; "target"; "projectName"] with
          | Some textHint =>
              match findProjectCardByHint d textHint with
              | Some projectCard => Some projectCard
              | None =>
                  match resolveSectionFromHint d textHint with
                  | Some section => Some section
                  | None => findByText d textHint
                  end
              end
          | None => None
          end
      end
  end.

End TextSearch.

(** ** tool-runner.ts: the action executor *)

Section Executor.
Context {JN : JsNumber} {BR : Browser}.
Local Open Scope js_scope.

Record ToolCall : Type := {
  tc_id : string;
  tc_name : string;
  tc_args : jsval
}.

Record ToolResult : Type := {
  toolCallId : string;
  tr_name : string;
  success : bool;
  output : string
}.

Definition result (call : ToolCall) (ok : bool) (out : string) : ToolResult :=
  {| toolCallId := tc_id call; tr_name := tc_name call; success := ok;
     output := out |}.

(** [error instanceof Error ? error.message : fallback] *)
Definition error_text (e : thrown) (fallback : string) : string :=
  match e with
  | ErrorObj message => message
  | NonError => fallback
  end.

Definition is_form_control (e : el) : bool :=
  String.eqb (el_tag e) "input" || String.eqb (el_tag e) "textarea".

Definition write_value (p : list nat) (value : string) : M unit :=
  fun d =>
    (Returned tt,
     {| dom_root := dom_root d; dom_href := dom_href d; dom_title := dom_title d;
        dom_value := fun q => if path_eqb q p then Some value else dom_value d q;
        dom_highlight := dom_highlight d; dom_log := dom_log d |}).

(** [element.classList.add(HIGHLIGHT_CLASS)] *)
Definition add_class (p : list nat) : M unit :=
  fun d =>
    (Returned tt,
     {| dom_root := dom_root d; dom_href := dom_href d; dom_title := dom_title d;
        dom_value := dom_value d;
        dom_highlight :=
          if existsb (path_eqb p) (dom_highlight d) then dom_highlight d
          else dom_highlight d ++ [p];
        dom_log := dom_log d |}).

Definition replaceState (url : string) : M unit :=
  fun d =>
    (Returned tt,
     {| dom_root := dom_root d; dom_href := url_resolve (dom_href d) url;
        dom_title := dom_title d; dom_value := dom_value d;
        dom_highlight := dom_highlight d;
        dom_log := dom_log d ++ [EReplaceState url] |}).

Definition addHighlight (element : el) : M unit :=
  add_class (el_path element) ;;;
  log (EHighlightTimer (el_path element) 2600).

Definition scrollIntoView (element : el) (block : string) : M unit :=
  log (EScrollIntoView (el_path element) block).

(** [element instanceof HTMLInputElement || element instanceof
    HTMLTextAreaElement] *)
Definition is_html_control (e : el) : bool :=
  html_element e && is_form_control e.

Definition setFieldValue (element : el) (value : string) : M unit :=
  if is_html_control element
  then
    match set_value element value with
    | Threw error => throw error
    | Returned stored =>
        write_value (el_path element) stored ;;;
        log (EDispatch (el_path element) "input") ;;;
        log (EDispatch (el_path element) "change") ;;;
        log (EFocus (el_path element))
    end
  else ret tt.

Definition runScrollBy (call : ToolCall) (args : list (string * jsval))
  : M ToolResult :=
  match readNumber args ["delta"; "amount"] with
  | None => ret (result call false "Missing numeric delta argument.")
  | Some delta =>
      log (EScrollBy delta) ;;;
      ret (result call true
             (if num_geq0 delta
              then "Scrolled down by " ++ num_to_string (num_round delta)
                   ++ " pixels."
              else "Scrolled up by "
                   ++ num_to_string (num_round (num_abs delta)) ++ " pixels.")%string)
  end.

Definition runNavigateToSection (call : ToolCall) (args : list (string * jsval))
  : M ToolResult :=
  match readString args ["sectionId"; "section"; "target"] with
  | None => ret (result call false "Missing target section id.")
  | Some sectionHint =>
      target <- read (fun d => resolveSectionFromHint d sectionHint) ;;
      match target with
      | None =>
          ret (result call false
                 ("Section " ++ dq ++ sectionHint ++ dq ++ " was not found.")%string)
      | Some target =>
          scrollIntoView target "start" ;;;
          (if nonempty (el_id target)
           then replaceState ("#" ++ el_id target)%string
           else ret tt) ;;;
          addHighlight target ;;;
          ret (result call true
                 ("Moved to section " ++ dq
                  ++ (if nonempty (el_id target) then el_id target else sectionHint)
                  ++ dq ++ ".")%string)
      end
  end.

Definition ANCHOR : selector := [STag "a"].

Definition link_text_includes (word : string) (link : el) : bool :=
  includes (normalize (textContent link)) word.

Definition chooseLinkFromProjectCard (card : el) (hint : option string)
  : option el :=
  match querySelectorAll_in card ANCHOR with
  | [] => None
  | (first_link :: _) as links =>
      let normalizedHint :=
        normalize (match hint with Some h => h | None => "" end) in
      if includes normalizedHint "github"
      then match find (link_text_includes "github") links with
           | Some link => Some link
           | None => Some first_link
           end
      else if includes normalizedHint "live"
              || includes normalizedHint "demo"
              || includes normalizedHint "preview"
      then match find (link_text_includes "live") links with
           | Some link => Some link
           | None => Some first_link
           end
      else Some first_link
  end.

(** The element [runClickElement] acts on: what [findElement] found,
    or the link chosen from it when it is a project card. *)
Definition click_target (found : el) (args : list (string * jsval)) : el :=
  let hint := readString args ["text"; "label"; "target"] in
  if matches PROJECT_CARD found
  then match chooseLinkFromProjectCard found hint with
       | Some projectLink => projectLink
       | None => found
       end
  else found.

(** [target instanceof HTMLButtonElement && target.disabled] *)
Definition disabled_button (target : el) : bool :=
  html_element target && String.eqb (el_tag target) "button"
  && hasAttribute target "disabled".

(** [target instanceof HTMLAnchorElement] *)
Definition html_anchor (target : el) : bool :=
  html_element target && String.eqb (el_tag target) "a".

(** What [target.click()] throws on an element that has no [click]: a
    TypeError, in the engine's wording. *)
Definition NO_CLICK : thrown := ErrorObj "target.click is not a function".

(** [target.click()]: a method of HTML elements only.  The click is
    recorded in the log; what the listeners of the page and the default
    action of the element do with it is outside tool-runner.ts. *)
Definition click (target : el) : M unit :=
  if html_element target then log (EClick (el_path target)) else throw NO_CLICK.

(** [runClickElement] from [target.scrollIntoView] on. *)
Definition click_on (call : ToolCall) (target : el) : M ToolResult :=
  scrollIntoView target "center" ;;;
  addHighlight target ;;;
  if disabled_button target
  then ret (result call false
              "Target button is disabled and cannot be clicked.")
  else
    let clicked :=
      click target ;;;
      ret (result call true
             ("Clicked " ++ describeElement target ++ ".")%string) in
    if html_anchor target
       && startsWith (attr_or_empty target "href") "#"
    then
      let href := attr_or_empty target "href" in
      section <- read (fun d => resolveSectionFromHint d href) ;;
      match section with
      | Some section =>
          scrollIntoView section "start" ;;;
          addHighlight section ;;;
          replaceState href ;;;
          ret (result call true ("Moved to " ++ href ++ ".")%string)
      | None => clicked
      end
    else clicked.

Definition runClickElement (call : ToolCall) (args : list (string * jsval))
  : M ToolResult :=
  found <- read (fun d => findElement d args) ;;
  match found with
  | None => ret (result call false "Could not find an element to click.")
  | Some found => click_on call (click_target found args)
  end.

Definition runHighlightElement (call : ToolCall) (args : list (string * jsval))
  : M ToolResult :=
  target <- read (fun d => findElement d args) ;;
  match target with
  | None => ret (result call false "Could not find an element to highlight.")
  | Some target =>
      scrollIntoView target "center" ;;;
      addHighlight target ;;;
      ret (result call true
             ("Highlighted " ++ describeElement target ++ ".")%string)
  end.

(** The element [fillSingleField] settles on. *)
Definition fill_target (d : dom) (fieldName : string) (selector : option string)
  : option el :=
  let by_selector :=
    match selector with
    | Some s => if nonempty s then safeQuery d s else None
    | None => None
    end in
  match by_selector with
  | Some target => Some target
  | None => findInputByFieldName d fieldName
  end.

Definition fillSingleField (call : ToolCall) (fieldName value : string)
  (selector : option string) : M string :=
  target <- read (fun d => fill_target d fieldName selector) ;;
  match target with
  | None =>
      throw (ErrorObj ("Could not find input field for " ++ dq ++ fieldName
                       ++ dq ++ ".")%string)
  | Some target =>
      setFieldValue target value ;;;
      addHighlight target ;;;
      ret (fieldName ++ " updated")%string
  end.

(** The entries of [values] whose value is a string. *)
Fixpoint string_entries (fields : list (string * jsval)) : list (string * string) :=
  match fields with
  | [] => []
  | (k, JStr v) :: rest => (k, v) :: string_entries rest
  | _ :: rest => string_entries rest
  end.

(** The loop of [runFillInput] over the entries, [outputs] collected so
    far. *)
Fixpoint fill_entries (call : ToolCall) (selector : option string)
  (updates : list (string * string)) (outputs : list string) : M ToolResult :=
  match updates with
  | [] =>
      ret (result call true
             ("Filled " ++ nat_to_string (List.length outputs) ++ " field(s): "
              ++ join ", " outputs ++ ".")%string)
  | (fieldName, value) :: rest =>
      r <- attempt (fillSingleField call fieldName value selector) ;;
      match r with
      | Returned out => fill_entries call selector rest (outputs ++ [out])
      | Threw error => ret (result call false (error_text error "Unknown field error."))
      end
  end.

Definition fill_single (call : ToolCall) (args : list (string * jsval))
  (selector : option string) : M ToolResult :=
  match readString args ["value"] with
  | None => ret (result call false "Missing input value.")
  | Some value =>
      let fieldName :=
        match readString args ["fieldName"; "name"; "field"] with
        | Some f => f
        | None => "input"
        end in
      r <- attempt (fillSingleField call fieldName value selector) ;;
      match r with
      | Returned out =>
          ret (result call true
                 (out ++ " with " ++ dq ++ slice0 80 value ++ dq ++ ".")%string)
      | Threw error =>
          ret (result call false (error_text error "Could not fill input field."))
      end
  end.

Definition runFillInput (call : ToolCall) (args : list (string * jsval))
  : M ToolResult :=
  let selector := readString args ["selector"] in
  match isObject (get_prop args "values") with
  | Some values =>
      match string_entries values with
      | [] => fill_single call args selector
      | updates => fill_entries call selector updates []
      end
  | None => fill_single call args selector
  end.

Definition executeToolCall (call : ToolCall) : M ToolResult :=
  match isObject (tc_args call) with
  | None => ret (result call false "Invalid tool arguments.")
  | Some args =>
      if String.eqb (tc_name call) "scroll_by" then runScrollBy call args
      else if String.eqb (tc_name call) "navigate_to_section"
      then runNavigateToSection call args
      else if String.eqb (tc_name call) "click_element"
      then runClickElement call args
      else if String.eqb (tc_name call) "highlight_element"
      then runHighlightElement call args
      else if String.eqb (tc_name call) "fill_input"
      then runFillInput call args
      else ret (result call false
                  ("Unknown tool " ++ dq ++ tc_name call ++ dq ++ ".")%string)
  end.

End Executor.

(** ** page-snapshot.ts *)

Section Snapshot.
Context {JN : JsNumber} {BR : Browser}.

Definition MAX_SECTIONS : nat := 12.
Definition MAX_ELEMENTS : nat := 160.
Definition MAX_TEXT : nat := 260.

Record SectionData : Type := {
  sd_id : string;
  heading : string;
  textPreview : string
}.

Record ElementData : Type := {
  ed_selector : string;
  ed_tag : string;
  ed_text : string;
  ariaLabel : string;
  ed_href : string;
  inputName : string;
  inputType : string;
  sectionId : string
}.

Record PageSnapshot : Type := {
  url : string;
  title : string;
  capturedAt : string;
  sections : list SectionData;
  elements : list ElementData
}.

(** [trimmed.slice(0, maxLength - 3)]: a negative end counts from the
    end of the string. *)
Definition slice_to_max_minus_3 (trimmed : string) (maxLength : nat) : string :=
  if 3 <=? maxLength then slice0 (maxLength - 3) trimmed
  else slice0 (String.length trimmed - (3 - maxLength)) trimmed.

Definition normalizeText (value : string) (maxLength : nat) : string :=
  let trimmed := trim (collapse value) in
  if String.length trimmed <=? maxLength then trimmed
  else (slice_to_max_minus_3 trimmed maxLength ++ "...")%string.

(** [value.replace(/\\/g, "\\\\").replace(/"/g, '\\"')] *)
Fixpoint escapeAttribute (value : string) : string :=
  match value with
  | EmptyString => EmptyString
  | String c r =>
      if (nat_of_ascii c =? 92) || (nat_of_ascii c =? 34)
      then String (ascii_of_nat 92) (String c (escapeAttribute r))
      else String c (escapeAttribute r)
  end.

(** [value.replace(/[^a-zA-Z0-9_-]/g, "\\$&")] *)
Fixpoint escape_non_identifier (value : string) : string :=
  match value with
  | EmptyString => EmptyString
  | String c r =>
      if is_word c || (nat_of_ascii c =? 45)
      then String c (escape_non_identifier r)
      else String (ascii_of_nat 92) (String c (escape_non_identifier r))
  end.

Definition escapeCssIdentifier (value : string) : string :=
  match CSS_escape with
  | Some escape => escape value
  | None => escape_non_identifier value
  end.

Definition isVisible (d : dom) (element : el) : bool := rendered d element.

(** [document.body]: the first [body] or [frameset] child of the
    document element. *)
Definition is_body_node (n : node) : bool :=
  match n with
  | Elem t _ _ => String.eqb t "body" || String.eqb t "frameset"
  | Text _ => false
  end.

Fixpoint first_index {A} (f : A -> bool) (i : nat) (l : list A) : option nat :=
  match l with
  | [] => None
  | x :: r => if f x then Some i else first_index f (S i) r
  end.

Definition body_path (d : dom) : option (list nat) :=
  match dom_root d with
  | Elem _ _ kids => option_map (fun i => [i]) (first_index is_body_node 0 kids)
  | Text _ => None
  end.

Definition document_body (d : dom) : option el :=
  match body_path d with
  | Some p => find (fun e => path_eqb (el_path e) p) (all_elements d)
  | None => None
  end.

Definition has_tag (t : string) (n : node) : bool :=
  match n with
  | Elem t' _ _ => String.eqb t' t
  | Text _ => false
  end.

(** [siblings.indexOf(current) + 1] among the children of the parent
    with the same tag name; [i] is the position of [current] among all
    child nodes. *)
Definition nth_of_type (t : string) (i : nat) (kids : list node) : nat :=
  List.length (filter (has_tag t) (firstn i kids)) + 1.

(** The loop of [buildSelector]; [t], [a], [p] describe [current], [up]
    its ancestors and [acc] is [path]. *)
Fixpoint selector_path (body : option (list nat)) (acc : list string)
  (t : string) (a : attrs) (p : list nat) (up : list ancestor) {struct up}
  : list string :=
  if (4 <=? List.length acc)
     || match body with Some b => path_eqb p b | None => false end
  then acc
  else
    match attr_lookup a "id" with
    | Some (String c r) => ("#" ++ escapeCssIdentifier (String c r))%string :: acc
    | _ =>
        match up with
        | [] => toLowerCase t :: acc
        | parent :: up' =>
            selector_path body
              ((toLowerCase t ++ ":nth-of-type("
                ++ nat_to_string (nth_of_type t (last p 0) (up_children parent))
                ++ ")")%string :: acc)
              (up_tag parent) (up_attrs parent) (removelast p) up'
        end
    end.

(** [document.querySelectorAll(s).length === 1] *)
Definition unique_match (d : dom) (s : string) : outcome bool :=
  match css_select d s with
  | Some l => Returned (List.length l =? 1)
  | None => Threw (ErrorObj "SyntaxError")
  end.

Definition buildSelector (d : dom) (element : el) : outcome string :=
  let tag := toLowerCase (el_tag element) in
  if nonempty (el_id element)
  then Returned ("#" ++ escapeCssIdentifier (el_id element))%string
  else
    let fallback :=
      Returned (join " > "
                  (selector_path (body_path d) [] (el_tag element)
                     (el_attrs element) (el_path element) (el_up element))) in
    let by_href :=
      match getAttribute element "href" with
      | Some href =>
          if nonempty href && String.eqb tag "a"
          then
            let byHref := ("a[href=" ++ dq ++ escapeAttribute href ++ dq ++ "]")%string in
            match unique_match d byHref with
            | Returned true => Returned byHref
            | Returned false => fallback
            | Threw e => Threw e
            end
          else fallback
      | None => fallback
      end in
    match getAttribute element "name" with
    | Some name =>
        if nonempty name
        then
          let byName :=
            (tag ++ "[name=" ++ dq ++ escapeAttribute name ++ dq ++ "]")%string in
          match unique_match d byName with
          | Returned true => Returned byName
          | Returned false => by_href
          | Threw e => Threw e
          end
        else by_href
    | None => by_href
    end.

Definition section_of (section : el) : SectionData :=
  let heading :=
    match querySelector_in section HEADINGS with
    | Some h => textContent h
    | None => el_id section
    end in
  let textPreview :=
    match getAttribute section "data-summary" with
    | Some summary => summary
    | None => textContent section
    end in
  {| sd_id := el_id section;
     heading := normalizeText heading 80;
     textPreview := normalizeText textPreview MAX_TEXT |}.

Definition collectSections (d : dom) (root : el) : list SectionData :=
  let sectionNodes :=
    filter (isVisible d) (querySelectorAll_in root SECTION_WITH_ID) in
  map section_of (firstn MAX_SECTIONS sectionNodes).

Definition ELEMENT_QUERY : selector :=
  [ STagAttr "section" "id"; SAttr "data-project-card"; STagAttr "a" "href";
    STag "button"; STag "input"; STag "textarea"; STag "select";
    SAttrEq "role" "button" ].

Definition truthy_strings (l : list (option string)) : list string :=
  flat_map (fun o => match o with
                     | Some v => if nonempty v then [v] else []
                     | None => []
                     end) l.

Definition first_present (l : list (option string)) : string :=
  match flat_map (fun o => match o with Some v => [v] | None => [] end) l with
  | v :: _ => v
  | [] => ""
  end.

Definition element_of (d : dom) (element : el) : outcome ElementData :=
  let sectionId :=
    match closest_attrs SECTION_WITH_ID element with
    | Some a => match attr_lookup a "id" with Some v => v | None => "" end
    | None => ""
    end in
  let textSource :=
    join " "
      (truthy_strings
         [ Some (textContent element); getAttribute element "aria-label";
           getAttribute element "placeholder";
           getAttribute element "data-project-title";
           getAttribute element "data-section" ]) in
  match buildSelector d element with
  | Threw e => Threw e
  | Returned sel =>
      Returned
        {| ed_selector := sel;
           ed_tag := toLowerCase (el_tag element);
           ed_text := normalizeText textSource 120;
           ariaLabel := normalizeText (attr_or_empty element "aria-label") 80;
           ed_href := normalizeText (attr_or_empty element "href") 120;
           inputName :=
             normalizeText
               (first_present [ getAttribute element "name";
                                getAttribute element "id";
                                getAttribute element "placeholder" ]) 80;
           inputType := normalizeText (attr_or_empty element "type") 40;
           sectionId := sectionId |}
  end.

(** [nodes.map(f)] where [f] may throw: the first throw ends the map. *)
Fixpoint map_outcome {A B} (f : A -> outcome B) (l : list A) : outcome (list B) :=
  match l with
  | [] => Returned []
  | x :: r =>
      match f x with
      | Threw e => Threw e
      | Returned y =>
          match map_outcome f r with
          | Threw e => Threw e
          | Returned ys => Returned (y :: ys)
          end
      end
  end.

Definition collectElements (d : dom) (root : el) : outcome (list ElementData) :=
  let nodes := filter (isVisible d) (querySelectorAll_in root ELEMENT_QUERY) in
  map_outcome (element_of d) (firstn MAX_ELEMENTS nodes).

Definition PORTFOLIO_ROOT : selector := [SAttr "data-portfolio-root"].

(** [extractPageSnapshot()], the clock read for the [tick]-th time.
    Without a portfolio root and without a body the call on [root]
    throws a TypeError. *)
Definition extractPageSnapshot (tick : nat) (d : dom) : outcome PageSnapshot :=
  let root :=
    match hd_error (querySelectorAll d PORTFOLIO_ROOT) with
    | Some r => Some r
    | None => document_body d
    end in
  match root with
  | None => Threw (ErrorObj "TypeError")
  | Some root =>
      match collectElements d root with
      | Threw e => Threw e
      | Returned els =>
          Returned {| url := dom_href d; title := dom_title d;
                      capturedAt := now_iso tick;
                      sections := collectSections d root;
                      elements := els |}
      end
  end.

End Snapshot.

(** ** tool-definitions.ts and the chat API route *)

Definition MAX_TOOL_CALLS_PER_TURN : nat := 3.

(** [list.slice(-n)] *)
Definition last_n {A} (n : nat) (l : list A) : list A :=
  skipn (List.length l - n) l.

Section Route.
Context {JN : JsNumber} {BR : Browser}.

Definition HISTORY_WINDOW : nat := 10.

Definition TOOL_NAMES : list string :=
  [ "scroll_by"; "navigate_to_section"; "click_element"; "highlight_element";
    "fill_input" ].

Record ChatMessage : Type := {
  role : string;
  content : string;
  createdAt : string
}.

(** What the server's runtime decides. *)
Class Server : Type := {
  (* JSON.stringify(value, null, 2) *)
  JSON_stringify : jsval -> string;
  (* JSON.parse(text): [None] when it throws *)
  JSON_parse : string -> option jsval;
  (* crypto.randomUUID, when there is one: its k-th result *)
  randomUUID : option (nat -> string);
  (* `${Date.now()}` at the k-th reading *)
  Date_now : nat -> string;
  (* s.toUpperCase() *)
  toUpperCase : string -> string
}.
Context {SV : Server}.

Record GeminiFunctionCall : Type := {
  fc_name : option string;     (* [None]: absent or not a string *)
  fc_args : jsval
}.

Record GeminiPart : Type := {
  gp_text : option string;
  functionCall : option GeminiFunctionCall
}.

(** [response.candidates?.[0]?.content?.parts] *)
Record GeminiResponse : Type := {
  candidates : option (list (option (option (list GeminiPart))))
}.

(** A snapshot that passed [isPageSnapshot]: three strings and two
    arrays whose items were not looked at. *)
Record ReceivedSnapshot : Type := {
  rs_url : string;
  rs_title : string;
  rs_capturedAt : string;
  rs_sections : list jsval;
  rs_elements : list jsval
}.

Definition isPageSnapshot (snapshot : jsval) : option ReceivedSnapshot :=
  match isObject snapshot with
  | None => None
  | Some o =>
      match get_prop o "url", get_prop o "title", get_prop o "capturedAt",
            get_prop o "sections", get_prop o "elements" with
      | JStr u, JStr t, JStr c, JArr s, JArr e =>
          Some {| rs_url := u; rs_title := t; rs_capturedAt := c;
                  rs_sections := s; rs_elements := e |}
      | _, _, _, _, _ => None
      end
  end.

Definition slimSnapshot (snapshot : ReceivedSnapshot) : jsval :=
  JObj [ ("url", JStr (rs_url snapshot));
         ("title", JStr (rs_title snapshot));
         ("capturedAt", JStr (rs_capturedAt snapshot));
         ("sections", JArr (firstn 10 (rs_sections snapshot)));
         ("elements", JArr (firstn 80 (rs_elements snapshot))) ].

Definition as_message (item : jsval) : option ChatMessage :=
  match isObject item with
  | None => None
  | Some o =>
      match get_prop o "role", get_prop o "content", get_prop o "createdAt" with
      | JStr r, JStr c, JStr t =>
          Some {| role := r; content := c; createdAt := t |}
      | _, _, _ => None
      end
  end.

Definition toHistory (history : jsval) : list ChatMessage :=
  match history with
  | JArr items =>
      map (fun message =>
             {| role := role message;
                content := slice0 1200 (content message);
                createdAt := createdAt message |})
          (last_n HISTORY_WINDOW
             (flat_map (fun item => match as_message item with
                                    | Some m => [m]
                                    | None => []
                                    end) items))
  | _ => []
  end.

Definition as_tool_result (item : jsval) : option ToolResult :=
  match isObject item with
  | None => None
  | Some o =>
      match get_prop o "toolCallId", get_prop o "name", get_prop o "success",
            get_prop o "output" with
      | JStr i, JStr n, JBool s, JStr out =>
          Some {| toolCallId := i; tr_name := n; success := s; output := out |}
      | _, _, _, _ => None
      end
  end.

Definition toToolResults (toolResults : jsval) : list ToolResult :=
  match toolResults with
  | JArr items =>
      firstn MAX_TOOL_CALLS_PER_TURN
        (flat_map (fun item => match as_tool_result item with
                               | Some r => [r]
                               | None => []
                               end) items)
  | _ => []
  end.

Definition newline : string := String (ascii_of_nat 10) EmptyString.

Definition historyToText (history : list ChatMessage) : string :=
  match history with
  | [] => "No previous conversation."
  | _ =>
      join newline
        (map (fun message =>
                (toUpperCase (role message) ++ ": " ++ content message)%string)
             history)
  end.

Definition parseFunctionArgs (value : jsval) : list (string * jsval) :=
  match value with
  | JObj fields => fields
  | JStr text =>
      match JSON_parse text with
      | Some (JObj fields) => fields
      | _ => []
      end
  | _ => []
  end.

Definition parseGeminiParts (response : GeminiResponse) : list GeminiPart :=
  match candidates response with
  | Some (Some (Some parts) :: _) => parts
  | _ => []
  end.

Definition extractText (parts : list GeminiPart) : string :=
  trim (join newline
          (map (fun part => match gp_text part with
                            | Some t => t
                            | None => ""
                            end) parts)).

(** The loop of [extractToolCalls], [calls] collected so far. *)
Fixpoint collect_calls (parts : list GeminiPart) (calls : list ToolCall)
  : list ToolCall :=
  match parts with
  | [] => calls
  | part :: rest =>
      match functionCall part with
      | Some {| fc_name := Some toolName; fc_args := a |} =>
          if existsb (String.eqb toolName) TOOL_NAMES
          then
            let id :=
              match randomUUID with
              | Some uuid => uuid (List.length calls)
              | None =>
                  (Date_now (List.length calls) ++ "-"
                   ++ nat_to_string (List.length calls))%string
              end in
            collect_calls rest
              (calls ++ [ {| tc_id := id; tc_name := toolName;
                            tc_args := JObj (parseFunctionArgs a) |} ])
          else collect_calls rest calls
      | _ => collect_calls rest calls
      end
  end.

Definition extractToolCalls (parts : list GeminiPart) : list ToolCall :=
  firstn MAX_TOOL_CALLS_PER_TURN (collect_calls parts []).

Definition quoted (s : string) : string := (dq ++ s ++ dq)%string.

Definition normalizeServerErrorMessage (rawMessage : string) : string :=
  let lower := toLowerCase rawMessage in
  if includes rawMessage (quoted "code" ++ ": 429")%string
     || includes lower "quota exceeded" || includes lower "rate-limits"
  then "Gemini key is configured, but quota is exhausted. Enable billing or create a new key with available quota in Google AI Studio."
  else if includes rawMessage (quoted "code" ++ ": 401")%string
          || includes lower "api key not valid"
  then "Gemini API key is invalid. Update GEMINI_API_KEY in .env.local and redeploy."
  else if includes rawMessage (quoted "code" ++ ": 404")%string
          || includes lower "not found"
  then "Configured Gemini model is unavailable. Set GEMINI_MODEL to a valid model from ListModels."
  else rawMessage.

Definition buildPlanningPrompt (message : string) (history : list ChatMessage)
  (snapshot : ReceivedSnapshot) : string :=
  join newline
    [ "You are an AI co-browsing assistant for a portfolio website.";
      "Use the provided page snapshot to answer questions and decide tool calls.";
      "If user intent is ambiguous, ask a clarifying question instead of calling a tool.";
      ("You may call at most " ++ nat_to_string MAX_TOOL_CALLS_PER_TURN
       ++ " tools in one turn.")%string;
      "For section navigation requests, prefer navigate_to_section with section aliases.";
      "For project requests like latest/most recent/second project, use highlight_element or click_element with text hints.";
      "For contact form requests with multiple fields, prefer one fill_input call using values object.";
      "Do not invent sections or elements that do not exist in the snapshot.";
      "";
      "Conversation history:";
      historyToText history;
      "";
      ("Latest user message: " ++ message)%string;
      "";
      "Current page snapshot (JSON):";
      JSON_stringify (slimSnapshot snapshot);
      "";
      "First decide: answer directly OR call tools if an action is requested." ].

Definition tool_result_json (r : ToolResult) : jsval :=
  JObj [ ("toolCallId", JStr (toolCallId r)); ("name", JStr (tr_name r));
         ("success", JBool (success r)); ("output", JStr (output r)) ].

Definition buildFinalPrompt (message : string) (history : list ChatMessage)
  (snapshot : ReceivedSnapshot) (toolResults : list ToolResult) : string :=
  join newline
    [ "You are an AI co-browsing assistant for a portfolio website.";
      "You already requested tools and now have execution results.";
      "Write the final assistant response for the user.";
      "Explain what was done and whether it succeeded.";
      "If a tool failed, provide one concrete recovery suggestion.";
      "If all tools succeeded, mention the final on-page state the user should now see.";
      "Keep the answer concise and conversational.";
      "";
      "Conversation history:";
      historyToText history;
      "";
      ("Latest user message: " ++ message)%string;
      "";
      "Tool execution results (JSON):";
      JSON_stringify (JArr (map tool_result_json toolResults));
      "";
      "Updated page snapshot (JSON):";
      JSON_stringify (slimSnapshot snapshot) ].

Record ChatResponse : Type := {
  assistantMessage : string;
  toolCalls : option (list ToolCall);
  awaitingToolResults : bool
}.

(** What [callGemini] posts: the prompt, whether the tool declarations
    go with it, and the temperature in tenths. *)
Record GeminiRequest : Type := {
  gq_text : string;
  gq_tools : bool;
  gq_temperature : nat
}.

Definition reply (status : nat) (text : string) : nat * ChatResponse :=
  (status, {| assistantMessage := text; toolCalls := None;
              awaitingToolResults := false |}).

(** What [await request.json()] gives [POST] to read: the parsed body,
    or the exception of a body that is not JSON.  Reading a property of
    [null] throws; primitives and arrays have none of the properties
    [POST] reads. *)
Definition NULL_BODY : thrown :=
  ErrorObj "Cannot read properties of null (reading 'message')".

Definition body_of (request_json : outcome jsval)
  : outcome (list (string * jsval)) :=
  match request_json with
  | Threw error => Threw error
  | Returned JNull => Threw NULL_BODY
  | Returned JUndefined => Threw NULL_BODY
  | Returned (JObj fields) => Returned fields
  | Returned _ => Returned []
  end.

(** The request [POST] sends to the planning service for a body that was
    read, if it gets that far. *)
Definition gemini_request (apiKey : option string) (body : list (string * jsval))
  : option GeminiRequest :=
  match apiKey with
  | None => None
  | Some key =>
      if negb (nonempty key) then None
      else
        let message :=
          match get_prop body "message" with JStr m => trim m | _ => "" end in
        let history := toHistory (get_prop body "history") in
        let toolResults := toToolResults (get_prop body "toolResults") in
        if negb (nonempty message) then None
        else
          match isPageSnapshot (get_prop body "pageSnapshot") with
          | None => None
          | Some snapshot =>
              match toolResults with
              | _ :: _ =>
                  Some {| gq_text :=
                            buildFinalPrompt message history snapshot toolResults;
                          gq_tools := false; gq_temperature := 3 |}
              | [] =>
                  Some {| gq_text := buildPlanningPrompt message history snapshot;
                          gq_tools := true; gq_temperature := 2 |}
              end
          end
  end.

(** The answer of the [catch] block. *)
Definition server_failure (e : thrown) : nat * ChatResponse :=
  reply 500 ("I ran into an error: "
             ++ normalizeServerErrorMessage
                  (error_text e "Unexpected server error."))%string.

(** [POST] from the point where the body has been read. *)
Definition answer_body (apiKey : option string) (body : list (string * jsval))
  (callGemini : GeminiRequest -> outcome GeminiResponse) : nat * ChatResponse :=
  let message :=
    match get_prop body "message" with JStr m => trim m | _ => "" end in
  let toolResults := toToolResults (get_prop body "toolResults") in
  if negb (nonempty message) then reply 400 "Missing user message."
  else
    match isPageSnapshot (get_prop body "pageSnapshot"),
          gemini_request apiKey body with
    | Some _, Some request =>
        match toolResults, callGemini request with
        | _, Threw e => server_failure e
        | _ :: _, Returned finalResponse =>
            let text := extractText (parseGeminiParts finalResponse) in
            reply 200 (if nonempty text then text
                       else "I completed the requested action.")
        | [], Returned planningResponse =>
            let parts := parseGeminiParts planningResponse in
            let assistantText := extractText parts in
            let calls := extractToolCalls parts in
            (200,
             {| assistantMessage :=
                  if nonempty assistantText then assistantText
                  else match calls with
                       | [] => ""
                       | _ => "I will handle that now."
                       end;
                toolCalls := match calls with [] => None | _ => Some calls end;
                awaitingToolResults :=
                  match calls with [] => false | _ => true end |})
        end
    | _, _ => reply 400 "Missing or invalid page snapshot."
    end.

(** [POST]: the status and the JSON it answers with.  [request_json] is
    what [await request.json()] gives, [callGemini] the planning service
    as seen from here.  The key is checked before the body is read. *)
Definition POST (apiKey : option string) (request_json : outcome jsval)
  (callGemini : GeminiRequest -> outcome GeminiResponse) : nat * ChatResponse :=
  match apiKey with
  | None => reply 500 "Server configuration is missing GEMINI_API_KEY in environment variables."
  | Some key =>
      if negb (nonempty key)
      then reply 500 "Server configuration is missing GEMINI_API_KEY in environment variables."
      else
        match body_of request_json with
        | Threw e => server_failure e
        | Returned body => answer_body apiKey body callGemini
        end
  end.

End Route.

(** ** chat-panel.tsx: one conversational turn *)

Section Panel.
Context {JN : JsNumber} {BR : Browser}.
Local Open Scope js_scope.

Definition MAX_HISTORY : nat := 18.
Definition MAX_FLOW_ITEMS : nat := 10.

Inductive FlowStatus : Type := running | flow_success | failed.

Record FlowItem : Type := {
  fi_id : string;
  label : string;
  detail : string;
  status : FlowStatus
}.

Record ChatRequest : Type := {
  cr_message : string;
  cr_history : list ChatMessage;
  pageSnapshot : PageSnapshot;
  toolResults : option (list ToolResult)
}.

(** The state of the panel and of the page it acts on.  [clock] counts
    the readings of the clock, [posted] the calls of [postChat], and
    [ran] lists the action requests handed to [executeToolCall], in
    order.  [draft] is the state variable as [runConversation] sets it;
    the text area of the panel that is bound to it is part of the page,
    and that binding is not modelled. *)
Record session : Type := {
  messages : list ChatMessage;
  isBusy : bool;
  isOpen : bool;
  draft : string;
  flowItems : list FlowItem;
  page : dom;
  clock : nat;
  posted : nat;
  ran : list ToolCall
}.

(** [postChat]: the k-th call, with its payload, returns the response
    or throws (the network failed, the response was not OK, or its body
    was not JSON). *)
Class Network : Type := {
  postChat : nat -> ChatRequest -> outcome ChatResponse
}.
Context {NW : Network}.

Definition set_messages (h : list ChatMessage) (s : session) : session :=
  {| messages := h; isBusy := isBusy s; isOpen := isOpen s; draft := draft s;
     flowItems := flowItems s; page := page s; clock := clock s;
     posted := posted s; ran := ran s |}.

Definition set_busy (b : bool) (s : session) : session :=
  {| messages := messages s; isBusy := b; isOpen := isOpen s; draft := draft s;
     flowItems := flowItems s; page := page s; clock := clock s;
     posted := posted s; ran := ran s |}.

Definition set_flow (f : list FlowItem) (s : session) : session :=
  {| messages := messages s; isBusy := isBusy s; isOpen := isOpen s;
     draft := draft s; flowItems := f; page := page s; clock := clock s;
     posted := posted s; ran := ran s |}.

Definition open_and_clear (s : session) : session :=
  {| messages := messages s; isBusy := isBusy s; isOpen := true; draft := "";
     flowItems := flowItems s; page := page s; clock := clock s;
     posted := posted s; ran := ran s |}.

(** One more reading of the clock, one more call of [postChat]. *)
Definition tick (s : session) : session :=
  {| messages := messages s; isBusy := isBusy s; isOpen := isOpen s;
     draft := draft s; flowItems := flowItems s; page := page s;
     clock := S (clock s); posted := posted s; ran := ran s |}.

Definition count_post (s : session) : session :=
  {| messages := messages s; isBusy := isBusy s; isOpen := isOpen s;
     draft := draft s; flowItems := flowItems s; page := page s;
     clock := clock s; posted := S (posted s); ran := ran s |}.

(** The page after an action, and the action noted. *)
Definition acted (call : ToolCall) (d : dom) (s : session) : session :=
  {| messages := messages s; isBusy := isBusy s; isOpen := isOpen s;
     draft := draft s; flowItems := flowItems s; page := d;
     clock := clock s; posted := posted s; ran := ran s ++ [call] |}.

(** [createMessage]: the time stamp is [new Date().toISOString()]. *)
Definition createMessage (r : string) (c : string) : ST session ChatMessage :=
  fun s =>
    (Returned {| role := r; content := c; createdAt := now_iso (clock s) |},
     tick s).

Definition capitalize (part : string) : string :=
  match part with
  | EmptyString => EmptyString
  | String c r =>
      String (if (97 <=? nat_of_ascii c) && (nat_of_ascii c <=? 122)
              then ascii_of_nat (nat_of_ascii c - 32) else c) r
  end.

(** [name.split("_")], [current] being the part read so far. *)
Fixpoint split_underscore (current : string) (name : string) : list string :=
  match name with
  | EmptyString => [current]
  | String c r =>
      if Ascii.eqb c "_" then current :: split_underscore EmptyString r
      else split_underscore (current ++ String c EmptyString)%string r
  end.

Definition formatToolLabel (name : string) : string :=
  join " " (map capitalize (split_underscore EmptyString name)).

(** [extractPageSnapshot()] inside the turn. *)
Definition take_snapshot : ST session PageSnapshot :=
  fun s => (extractPageSnapshot (clock s) (page s), tick s).

Definition post (payload : ChatRequest) : ST session ChatResponse :=
  fun s => (postChat (posted s) payload, count_post s).

(** [executeToolCall(call)] on the page of the session. *)
Definition execute (call : ToolCall) : ST session ToolResult :=
  fun s =>
    let (r, d) := executeToolCall call (page s) in
    (r, acted call d s).

(** Appending to the local [history] and publishing it with
    [setMessages]. *)
Definition append_message (history : list ChatMessage) (m : ChatMessage)
  : ST session (list ChatMessage) :=
  fun s =>
    let history' := last_n MAX_HISTORY (history ++ [m]) in
    (Returned history', set_messages history' s).

(** The body of [for (const call of toolCalls)]. *)
Definition run_call (call : ToolCall) (history : list ChatMessage)
  : ST session (ToolResult * list ChatMessage) :=
  modify (fun s =>
            set_flow
              (last_n MAX_FLOW_ITEMS
                 (flowItems s ++
                  [ {| fi_id := tc_id call; label := formatToolLabel (tc_name call);
                       detail := "Executing action..."; status := running |} ]))
              s) ;;;
  result <- execute call ;;
  modify (fun s =>
            set_flow
              (map (fun item =>
                      if negb (String.eqb (fi_id item) (tc_id call)) then item
                      else {| fi_id := fi_id item; label := label item;
                              detail := output result;
                              status := if success result then flow_success
                                        else failed |})
                   (flowItems s))
              s) ;;;
  toolMessage <- createMessage "tool"
                   (tr_name result ++ ": " ++ output result)%string ;;
  history' <- append_message history toolMessage ;;
  ret (result, history').

(** The loop over [toolCalls], with [toolResults] and [history] as they
    stand. *)
Fixpoint run_calls (calls : list ToolCall) (results : list ToolResult)
  (history : list ChatMessage) : ST session (list ToolResult * list ChatMessage) :=
  match calls with
  | [] => ret (results, history)
  | call :: rest =>
      step <- run_call call history ;;
      run_calls rest (results ++ [fst step]) (snd step)
  end.

(** The [try] block of [runConversation] from [const toolCalls] on:
    the actions and the final call, or the fallback message. *)
Definition act (message : string) (firstReply : ChatResponse)
  (history : list ChatMessage) : ST session unit :=
  let calls :=
    match toolCalls firstReply with
    | Some l => firstn MAX_TOOL_CALLS_PER_TURN l
    | None => []
    end in
  if awaitingToolResults firstReply && (0 <? List.length calls)
  then
    done <- run_calls calls [] history ;;
    snapshot' <- take_snapshot ;;
    finalReply <- post {| cr_message := message; cr_history := snd done;
                          pageSnapshot := snapshot';
                          toolResults := Some (fst done) |} ;;
    finalMessage <- createMessage "assistant"
                      (if nonempty (trim (assistantMessage finalReply))
                       then trim (assistantMessage finalReply)
                       else "Action completed.") ;;
    _ <- append_message (snd done) finalMessage ;;
    ret tt
  else if negb (nonempty (trim (assistantMessage firstReply)))
  then
    fallbackMessage <- createMessage "assistant"
                         "I could not generate a response. Please rephrase your request." ;;
    _ <- append_message history fallbackMessage ;;
    ret tt
  else ret tt.

(** The planning text, appended when there is one. *)
Definition note_plan (firstReply : ChatResponse) (history : list ChatMessage)
  : ST session (list ChatMessage) :=
  if nonempty (trim (assistantMessage firstReply))
  then planningMessage <- createMessage "assistant" (assistantMessage firstReply) ;;
       append_message history planningMessage
  else ret history.

(** The [try] block of [runConversation]. *)
Definition turn (message : string) (history : list ChatMessage) : ST session unit :=
  snapshot <- take_snapshot ;;
  firstReply <- post {| cr_message := message; cr_history := history;
                        pageSnapshot := snapshot; toolResults := None |} ;;
  history <- note_plan firstReply history ;;
  act message firstReply history.

(** The [catch] block. *)
Definition on_error (error : thrown) : ST session unit :=
  let text := error_text error "Unexpected error while processing the request." in
  m <- createMessage "assistant" ("I couldn't complete that request. " ++ text)%string ;;
  modify (fun s => set_messages (last_n MAX_HISTORY (messages s ++ [m])) s).

(** The turn up to the [try] block: the panel opened, the draft
    cleared, the busy flag set, the user message appended. *)
Definition begin_turn (message : string) (s : session)
  : list ChatMessage * session :=
  let s1 := set_busy true (open_and_clear s) in
  let userMessage :=
    {| role := "user"; content := message; createdAt := now_iso (clock s1) |} in
  let history := last_n MAX_HISTORY (messages s ++ [userMessage]) in
  (history, set_messages history (tick s1)).

(** [runConversation], as its own statements run one after the other.
    Between them the function waits (for the service, and 140 ms and
    200 ms around each action); what happens to the page and the panel
    during these waits, by a timer that fires or by the user, is no part
    of the function and is not modelled. *)
Definition runConversation (rawMessage : string) (s : session) : session :=
  let message := trim rawMessage in
  if negb (nonempty message) || isBusy s then s
  else
    let (history, s2) := begin_turn message s in
    let after :=
      match turn message history s2 with
      | (Returned _, s3) => s3
      | (Threw error, s3) => snd (on_error error s3)
      end in
    set_busy false after.

End Panel.

(** ** A sample browser, server and page

    Used by the examples: numbers that are integers, a CSS engine for
    the selectors the code builds, and a page laid out like the portfolio
    with the chat panel next to it. *)

Definition all_digits (s : string) : bool :=
  nonempty s && String.eqb (digit_run s) s.

(** [Number(s)] for integer literals; anything else is [NaN] here. *)
Definition integer_of_string (s : string) : option Z :=
  match trim s with
  | EmptyString => Some 0%Z
  | String c r as t =>
      if Ascii.eqb c "-"
      then if all_digits r then Some (- Z.of_N (digits_value 0%N r))%Z else None
      else if Ascii.eqb c "+"
      then if all_digits r then Some (Z.of_N (digits_value 0%N r)) else None
      else if all_digits t then Some (Z.of_N (digits_value 0%N t)) else None
  end.

Definition integer_to_string (x : option Z) : string :=
  match x with
  | None => "NaN"
  | Some z =>
      ((if (z <? 0)%Z then "-" else "") ++ nat_to_string (Z.abs_nat z))%string
  end.

#[export] Instance IntegerNumbers : JsNumber := {|
  number := option Z;
  num_NaN := None;
  num_of_string := integer_of_string;
  num_isFinite := fun x => match x with Some _ => true | None => false end;
  num_is_int := fun x k => match x with
                           | Some z => (z =? Z.of_N k)%Z
                           | None => false
                           end;
  num_geq0 := fun x => match x with Some z => (0 <=? z)%Z | None => false end;
  num_round := fun x => x;
  num_abs := option_map Z.abs;
  num_to_string := integer_to_string
|}.

Fixpoint before_hash (s : string) : string :=
  match s with
  | EmptyString => EmptyString
  | String c r => if Ascii.eqb c "#" then EmptyString else String c (before_hash r)
  end.

(** [s] cut at the first [c]. *)
Fixpoint split_on (c : ascii) (s : string) : option (string * string) :=
  match s with
  | EmptyString => None
  | String x r =>
      if Ascii.eqb x c then Some (EmptyString, r)
      else match split_on c r with
           | Some (before, rest) => Some (String x before, rest)
           | None => None
           end
  end.

(** A quoted attribute value up to its closing quote, backslash escapes
    undone. *)
Fixpoint quoted_value (fuel : nat) (s : string) : option (string * string) :=
  match fuel, s with
  | S f, String x r =>
      if nat_of_ascii x =? 34 then Some (EmptyString, r)
      else if nat_of_ascii x =? 92
      then match r with
           | String y r' =>
               match quoted_value f r' with
               | Some (v, rest) => Some (String y v, rest)
               | None => None
               end
           | EmptyString => None
           end
      else match quoted_value f r with
           | Some (v, rest) => Some (String x v, rest)
           | None => None
           end
  | _, _ => None
  end.

(** [tag[name="value"]] read back into its three parts. *)
Definition attribute_selector (s : string) : option (string * string * string) :=
  match split_on "[" s with
  | Some (tag, rest) =>
      match split_on "=" rest with
      | Some (name, String q body) =>
          if nat_of_ascii q =? 34
          then match quoted_value (String.length body) body with
               | Some (value, "]") => Some (tag, name, value)
               | _ => None
               end
          else None
      | _ => None
      end
  | None => None
  end.

(** A CSS engine that knows [#id] and [tag[name="value"]] and takes any
    other text for a syntax error. *)
Definition small_css_select (d : dom) (s : string) : option (list el) :=
  match s with
  | String c id =>
      if Ascii.eqb c "#"
      then if nonempty id
           then Some (filter (fun e => match getAttribute e "id" with
                                       | Some v => String.eqb v id
                                       | None => false
                                       end)
                             (walk [] [] (dom_root d)))
           else None
      else match attribute_selector s with
           | Some (tag, name, value) =>
               Some (filter (fun e => String.eqb (el_tag e) tag
                                      && match getAttribute e name with
                                         | Some v => String.eqb v value
                                         | None => false
                                         end)
                            (walk [] [] (dom_root d)))
           | None => None
           end
  | EmptyString => None
  end.

(** The elements of an [svg] or [math] subtree are not HTML elements
    (the sample pages have no [foreignObject]). *)
Definition foreign_tag (t : string) : bool :=
  String.eqb t "svg" || String.eqb t "math".

Definition small_html_element (e : el) : bool :=
  negb (foreign_tag (el_tag e)
        || existsb (fun a => foreign_tag (up_tag a)) (el_up e)).

(** Line feeds and carriage returns taken out, as the sanitization of a
    single-line input does. *)
Fixpoint strip_newlines (s : string) : string :=
  match s with
  | EmptyString => EmptyString
  | String c r =>
      if (nat_of_ascii c =? 10) || (nat_of_ascii c =? 13)
      then strip_newlines r
      else String c (strip_newlines r)
  end.

(** What the refused write to an input of type file says: the message
    of the InvalidStateError, in the engine's wording. *)
Definition FILE_INPUT : thrown :=
  ErrorObj "Failed to set the 'value' property on 'HTMLInputElement': This input element accepts a filename, which may only be programmatically set to the empty string.".

(** The value setter for a textarea and for inputs of type text, email,
    url and file; other types are treated as text. *)
Definition small_set_value (e : el) (v : string) : outcome string :=
  if String.eqb (el_tag e) "textarea" then Returned v
  else
    let type := toLowerCase (attr_or_empty e "type") in
    if String.eqb type "file"
    then if nonempty v then Threw FILE_INPUT else Returned v
    else if String.eqb type "email" || String.eqb type "url"
    then Returned (trim (strip_newlines v))
    else Returned (strip_newlines v).

#[export] Instance SmallBrowser : Browser := {|
  css_select := small_css_select;
  rendered := fun _ _ => true;
  CSS_escape := None;
  url_resolve := fun current relative => (before_hash current ++ relative)%string;
  now_iso := fun k => ("T" ++ nat_to_string k)%string;
  html_element := small_html_element;
  set_value := small_set_value
|}.

(** A printer that shows the shape of a value. *)
Fixpoint show_value (v : jsval) : string :=
  match v with
  | JUndefined => "undefined"
  | JNull => "null"
  | JBool b => if b then "true" else "false"
  | JNum x => num_to_string x
  | JStr s => (dq ++ s ++ dq)%string
  | JArr items =>
      ("[" ++ (fix each (l : list jsval) : string :=
                 match l with
                 | [] => EmptyString
                 | x :: r => (show_value x ++ "," ++ each r)%string
                 end) items ++ "]")%string
  | JObj fields =>
      ("{" ++ (fix each (l : list (string * jsval)) : string :=
                 match l with
                 | [] => EmptyString
                 | (k, x) :: r => (dq ++ k ++ dq ++ ":" ++ show_value x ++ "," ++ each r)%string
                 end) fields ++ "}")%string
  end.

#[export] Instance SampleServer : Server := {|
  JSON_stringify := show_value;
  JSON_parse := fun _ => None;
  randomUUID := Some (fun k => ("id-" ++ nat_to_string k)%string);
  Date_now := fun k => nat_to_string k;
  toUpperCase := fun s => s
|}.

Definition project_card (id title order : string) : node :=
  Elem "article"
    [ ("id", id); ("class", "project-card"); ("data-project-card", "true");
      ("data-project-title", title); ("data-project-order", order) ]
    [ Elem "h3" [] [Text title];
      Elem "div" [("class", "project-links")]
        [ Elem "a" [("id", (id ++ "-github")%string); ("href", "https://github.com/")]
            [Text "GitHub"];
          Elem "a" [("id", (id ++ "-demo")%string); ("href", "https://vercel.com/")]
            [Text "Live Demo"] ] ].

Definition contact_form : node :=
  Elem "form" [("class", "contact-form"); ("id", "contact-form")]
    [ Elem "input" [ ("id", "contact-name"); ("name", "name"); ("type", "text");
                     ("placeholder", "Your name") ] [];
      Elem "input" [ ("id", "contact-email"); ("name", "email"); ("type", "email");
                     ("placeholder", "you@example.com") ] [];
      Elem "textarea" [ ("id", "contact-message"); ("name", "message");
                        ("placeholder", "Tell me what you are building") ] [];
      Elem "button" [("type", "button"); ("aria-label", "Send contact message")]
        [Text "Send Message"] ].

Definition chat_shell : node :=
  Elem "div" [("class", "chat-shell"); ("data-chat-ui", "true")]
    [ Elem "button" [("class", "chat-launcher"); ("aria-label", "Open assistant chat")]
        [Text "Assistant"];
      Elem "aside" [("class", "chat-panel")]
        [ Elem "h2" [] [Text "Portfolio Command Center"];
          Elem "form" [("class", "chat-form")]
            [ Elem "textarea" [ ("id", "chat-input"); ("name", "chat-input");
                                ("placeholder", "Ask about the contact form") ] [] ] ] ].

(** The portfolio with its three cards; [orders] are the order
    attributes of the cards in document order. *)
Definition portfolio (o1 o2 o3 : string) : node :=
  Elem "html" []
    [ Elem "head" [] [Elem "title" [] [Text "Portfolio"]];
      Elem "body" []
        [ Elem "main" [("class", "portfolio-root"); ("data-portfolio-root", "true")]
            [ Elem "section" [("id", "hero"); ("data-section", "hero home intro")]
                [ Elem "h2" [] [Text "Shipping reliable products"];
                  Elem "a" [("href", "#projects")] [Text "View Projects"] ];
              Elem "section" [("id", "projects")]
                [ Elem "h2" [] [Text "Projects"];
                  project_card "project-1" "PulseCart Analytics" o1;
                  project_card "project-2" "Atlas Talent Finder" o2;
                  project_card "project-3" "Dockline Planner" o3 ];
              Elem "section" [("id", "contact")]
                [ Elem "h2" [] [Text "Contact"]; contact_form ] ];
          chat_shell ] ].

Definition page_of (root : node) : dom :=
  {| dom_root := root; dom_href := "http://localhost:3000/";
     dom_title := "Portfolio"; dom_value := fun _ => None;
     dom_highlight := []; dom_log := [] |}.

(** The page as the repository renders it, and one whose cards are laid
    out in another order than their order attributes say. *)
Definition sample_page : dom := page_of (portfolio "1" "2" "3").
Definition shuffled_page : dom := page_of (portfolio "3" "1" "2").

(** A page with a single project card. *)
Definition lone_card_page : dom :=
  page_of (Elem "html" []
             [ Elem "body" []
                 [ Elem "section" [("id", "projects")]
                     [project_card "project-1" "Dockline Planner" "1"] ] ]).

(** A page without a document body and without a portfolio root. *)
Definition bare_page : dom := page_of (Elem "html" [] []).

(** [s] written [n] times. *)
Fixpoint times (n : nat) (s : string) : string :=
  match n with
  | O => EmptyString
  | S k => (s ++ times k s)%string
  end.

(** A page with a section whose heading, text and link are longer than
    the snapshot shows, and a short one. *)
Definition long_page : dom :=
  page_of
    (Elem "html" []
       [ Elem "body" []
           [ Elem "main" [("data-portfolio-root", "true")]
               [ Elem "section" [("id", "about")]
                   [ Elem "h2" [] [Text (times 9 "Shipping reliable products ")];
                     Elem "p" [] [Text (times 30 "lorem ipsum ")];
                     Elem "a" [ ("id", "archive");
                                ("href", ("https://example.com/"
                                          ++ times 20 "archive/")%string);
                                ("aria-label", times 10 "Open the archive ") ]
                       [Text "Archive"] ];
                 Elem "section" [("id", "notes")]
                   [ Elem "h3" [] [Text "Notes"];
                     Elem "p" [] [Text "  Short   text."] ] ] ] ]).

(** A page with a drawing next to its heading, outside the chat
    interface, and a request to click it. *)
Definition icon_page : dom :=
  page_of (Elem "html" []
             [ Elem "body" []
                 [ Elem "section" [("id", "hero")]
                     [ Elem "h2" [] [Text "Shipping reliable products"];
                       Elem "svg" [("id", "logo"); ("viewBox", "0 0 24 24")]
                         [ Elem "path" [("d", "M4 4h16v12H7l-3 3z")] [] ] ];
                   chat_shell ] ]).


(** A page whose form asks for a file. *)
Definition upload_page : dom :=
  page_of (Elem "html" []
             [ Elem "body" []
                 [ Elem "section" [("id", "contact")]
                     [ Elem "form" [("id", "apply-form")]
                         [ Elem "input" [ ("id", "apply-name"); ("name", "name");
                                          ("type", "text") ] [];
                           Elem "input" [ ("id", "apply-resume"); ("name", "resume");
                                          ("type", "file") ] [] ] ] ] ]).

(** Handles on the sample page. *)
Definition element_by_id (d : dom) (id : string) : el :=
  match getElementById d id with
  | Some e => e
  | None => {| el_path := []; el_tag := ""; el_attrs := []; el_children := [];
               el_up := [] |}
  end.

(** A planning service that cannot be reached. *)
Definition unreachable : Network :=
  {| postChat := fun _ _ => Threw (ErrorObj "Failed to fetch") |}.

Definition sample_call (k : nat) (name : string) (args : list (string * jsval))
  : ToolCall :=
  {| tc_id := ("call-" ++ nat_to_string k)%string; tc_name := name;
     tc_args := JObj args |}.

Definition five_calls : list ToolCall :=
  [ sample_call 1 "navigate_to_section" [("sectionId", JStr "projects")];
    sample_call 2 "highlight_element" [("text", JStr "latest project")];
    sample_call 3 "scroll_by" [("delta", JNum (Some 200%Z))];
    sample_call 4 "navigate_to_section" [("sectionId", JStr "contact")];
    sample_call 5 "fill_input" [("values", JObj [("name", JStr "Alex")])] ].

(** A planning service that asks for a scroll, a click on the drawing
    of [icon_page] and another scroll. *)
Definition clicking : Network :=
  {| postChat := fun k _ =>
       match k with
       | O => Returned
                {| assistantMessage := "On it.";
                   toolCalls :=
                     Some [ sample_call 1 "scroll_by" [("delta", JNum (Some 200%Z))];
                            sample_call 2 "click_element" [("selector", JStr "#logo")];
                            sample_call 3 "scroll_by" [("delta", JNum (Some 200%Z))] ];
                   awaitingToolResults := true |}
       | _ => Returned {| assistantMessage := "Done."; toolCalls := None;
                          awaitingToolResults := false |}
       end |}.

(** A planning service that asks for five actions, then sums up. *)
Definition eager : Network :=
  {| postChat := fun k _ =>
       match k with
       | O => Returned {| assistantMessage := "On it.";
                          toolCalls := Some five_calls;
                          awaitingToolResults := true |}
       | _ => Returned {| assistantMessage := "Done."; toolCalls := None;
                          awaitingToolResults := false |}
       end |}.

(** A planning service that answers with a text and asks for nothing. *)
Definition answering (text : string) : Network :=
  {| postChat := fun _ _ =>
       Returned {| assistantMessage := text; toolCalls := None;
                   awaitingToolResults := false |} |}.

Definition fresh_session (d : dom) : session :=
  {| messages := []; isBusy := false; isOpen := false; draft := "";
     flowItems := []; page := d; clock := 0; posted := 0; ran := [] |}.

(** The snapshot of the sample page at the [tick]-th reading of the
    clock. *)
Definition snapshot_at (tick : nat) (d : dom) : PageSnapshot :=
  match extractPageSnapshot tick d with
  | Returned snap => snap
  | Threw _ => {| url := ""; title := ""; capturedAt := ""; sections := [];
                  elements := [] |}
  end.


(** Request bodies for the API route, with the given sections. *)
Definition numbered (n : nat) : list jsval :=
  map (fun k => JStr (nat_to_string k)) (seq 0 n).

Definition body_with (sections : list jsval) : list (string * jsval) :=
  [ ("message", JStr "What projects are showcased here?");
    ("history", JArr []);
    ("pageSnapshot",
     JObj [ ("url", JStr "http://localhost:3000/"); ("title", JStr "Portfolio");
            ("capturedAt", JStr "T0"); ("sections", JArr sections);
            ("elements", JArr (numbered 3)) ]) ].

(** ** Predicates used in the statements *)

(** [field] shows [source] within [limit] characters: it is the source
    with its white space collapsed and trimmed when that fits the limit,
    else the first [limit - 3] characters of it followed by the
    ellipsis, [limit] characters in all. *)
Definition cut (limit : nat) (source field : string) : Prop :=
  let text := trim (collapse source) in
  String.length field <= limit /\
  (String.length text <= limit -> field = text) /\
  (limit < String.length text ->
   field = (slice0 (limit - 3) text ++ "...")%string /\
   String.length field = limit).

(** [m] returns from every state, with a value satisfying [P]: it never
    throws. *)
Definition returns {S A} (m : ST S A) (P : A -> Prop) : Prop :=
  forall s, exists a s', m s = (Returned a, s') /\ P a.

(** [s] has no white space but single spaces, none of them after
    another ([after_space] tells that a space came just before). *)
Fixpoint tidy (after_space : bool) (s : string) : bool :=
  match s with
  | EmptyString => true
  | String c r =>
      if is_space c
      then Ascii.eqb c " " && negb after_space && tidy true r
      else tidy false r
  end.

Definition starts_clean (s : string) : bool :=
  match s with
  | EmptyString => true
  | String c _ => negb (is_space c)
  end.



(** The hint contains the word, whatever its letter case and spacing. *)
Definition mentions (hint word : string) : bool :=
  includes (normalize hint) word.



Section Predicates.
Context {JN : JsNumber} {BR : Browser}.

(** The root of a capture: the portfolio root, else the body. *)
Definition snapshot_root (d : dom) : option el :=
  match hd_error (querySelectorAll d PORTFOLIO_ROOT) with
  | Some r => Some r
  | None => document_body d
  end.

(** The sections and the elements a capture lists: the visible ones
    under the root, in document order, up to the maximum. *)
Definition listed_sections (d : dom) (root : el) : list el :=
  firstn 12 (filter (isVisible d) (querySelectorAll_in root SECTION_WITH_ID)).

Definition listed_elements (d : dom) (root : el) : list el :=
  firstn 160 (filter (isVisible d) (querySelectorAll_in root ELEMENT_QUERY)).

(** Where the fields of a section come from: the text of its first
    heading, else its identifier; its summary attribute, else its
    text. *)
Definition heading_source (section : el) : string :=
  match querySelector_in section HEADINGS with
  | Some h => textContent h
  | None => el_id section
  end.

Definition preview_source (section : el) : string :=
  match getAttribute section "data-summary" with
  | Some summary => summary
  | None => textContent section
  end.

Definition section_shows (section : el) (sd : SectionData) : Prop :=
  sd_id sd = el_id section /\
  cut 80 (heading_source section) (heading sd) /\
  cut 260 (preview_source section) (textPreview sd).

(** Where the fields of an element come from: for its text, its own
    text, label, placeholder, project title and section words, those
    that are not empty, with a space between them; for its input name,
    the first it has of name, identifier and placeholder. *)
Definition text_source (element : el) : string :=
  join " "
    (truthy_strings
       [ Some (textContent element); getAttribute element "aria-label";
         getAttribute element "placeholder";
         getAttribute element "data-project-title";
         getAttribute element "data-section" ]).

Definition name_source (element : el) : string :=
  first_present [ getAttribute element "name"; getAttribute element "id";
                  getAttribute element "placeholder" ].

Definition element_shows (d : dom) (element : el) (e : ElementData) : Prop :=
  buildSelector d element = Returned (ed_selector e) /\
  ed_tag e = toLowerCase (el_tag element) /\
  cut 120 (text_source element) (ed_text e) /\
  cut 80 (attr_or_empty element "aria-label") (ariaLabel e) /\
  cut 120 (attr_or_empty element "href") (ed_href e) /\
  cut 80 (name_source element) (inputName e) /\
  cut 40 (attr_or_empty element "type") (inputType e).

(** The result answers the request: same identifier, same name. *)
Definition answers (call : ToolCall) (r : ToolResult) : Prop :=
  toolCallId r = tc_id call /\ tr_name r = tc_name call.

(** An entry of the alias table names the hint: one of its aliases
    stands in the normalized hint. *)
Definition names_section (normalizedHint : string)
  (entry : string * list string) : bool :=
  existsb (fun alias => includes normalizedHint alias) (snd entry).

(** What the write of [value] to [t] comes to: the value the control
    keeps, or the exception of its setter; neither for an element that
    is no HTML input or textarea, which is left alone. *)
Definition stored (t : el) (value : string) : option string :=
  if is_html_control t
  then match set_value t value with
       | Returned kept => Some kept
       | Threw _ => None
       end
  else None.

Definition refused (t : el) (value : string) : option thrown :=
  if is_html_control t
  then match set_value t value with
       | Returned _ => None
       | Threw error => Some error
       end
  else None.

(** The page after [fillSingleField] has filled and highlighted [t]; the
    page as it was when the write is refused. *)
Definition after_fill (t : el) (value : string) (d : dom) : dom :=
  snd (bind (setFieldValue t value) (fun _ => addHighlight t) d).

(** The error an entry ends with on the page [d], if any: its field
    settles on no element, or the element refuses the value. *)
Definition entry_error (selector : option string) (d : dom)
  (fieldName value : string) : option thrown :=
  match fill_target d fieldName selector with
  | Some t => refused t value
  | None =>
      Some (ErrorObj ("Could not find input field for " ++ dq ++ fieldName
                      ++ dq ++ ".")%string)
  end.

(** The page after the entries have been filled one after the other,
    each on the page the previous one left; an entry that settles on no
    element leaves the page as it is. *)
Fixpoint fill_all (selector : option string) (updates : list (string * string))
  (d : dom) : dom :=
  match updates with
  | [] => d
  | (fieldName, value) :: rest =>
      match fill_target d fieldName selector with
      | Some t => fill_all selector rest (after_fill t value d)
      | None => fill_all selector rest d
      end
  end.

(** Every entry settles on an element when its turn comes. *)
Fixpoint all_resolve (selector : option string) (updates : list (string * string))
  (d : dom) : bool :=
  match updates with
  | [] => true
  | (fieldName, value) :: rest =>
      match fill_target d fieldName selector with
      | Some t => all_resolve selector rest (after_fill t value d)
      | None => false
      end
  end.

(** Every entry settles on an element that takes its value, when its
    turn comes. *)
Fixpoint all_taken (selector : option string) (updates : list (string * string))
  (d : dom) : bool :=
  match updates with
  | [] => true
  | (fieldName, value) :: rest =>
      match entry_error selector d fieldName value with
      | Some _ => false
      | None =>
          match fill_target d fieldName selector with
          | Some t => all_taken selector rest (after_fill t value d)
          | None => false
          end
      end
  end.

(** The values written by the entries, in order: the form control and
    what it kept of the value entered. *)
Fixpoint writes (selector : option string) (updates : list (string * string))
  (d : dom) : list (list nat * string) :=
  match updates with
  | [] => []
  | (fieldName, value) :: rest =>
      match fill_target d fieldName selector with
      | Some t =>
          match stored t value with
          | Some kept => [(el_path t, kept)]
          | None => []
          end
          ++ writes selector rest (after_fill t value d)
      | None => writes selector rest d
      end
  end.

(** The last value written to [p], starting from [current]. *)
Fixpoint last_written (ws : list (list nat * string)) (p : list nat)
  (current : option string) : option string :=
  match ws with
  | [] => current
  | (q, v) :: rest =>
      last_written rest p (if path_eqb p q then Some v else current)
  end.

(** What a successful batch reports. *)
Definition filled_report (updates : list (string * string)) : string :=
  ("Filled " ++ nat_to_string (List.length updates) ++ " field(s): "
   ++ join ", " (map (fun entry => fst entry ++ " updated") updates) ++ ".")%string.

Definition not_found_report (fieldName : string) : string :=
  ("Could not find input field for " ++ dq ++ fieldName ++ dq ++ ".")%string.

(** The entries a turn appends: the user's message, and the failure
    message of the [catch] block. *)
Definition user_entry (rawMessage : string) (s : session) : ChatMessage :=
  {| role := "user"; content := trim rawMessage; createdAt := now_iso (clock s) |}.

Definition failure_entry (e : thrown) (time : string) : ChatMessage :=
  {| role := "assistant";
     content := ("I couldn't complete that request. "
                 ++ error_text e "Unexpected error while processing the request.")%string;
     createdAt := time |}.

(** The payload of the planning call of a turn. *)
Definition planning_request (rawMessage : string) (s : session)
  (snapshot : PageSnapshot) : ChatRequest :=
  {| cr_message := trim rawMessage;
     cr_history := last_n MAX_HISTORY (messages s ++ [user_entry rawMessage s]);
     pageSnapshot := snapshot; toolResults := None |}.

(** The key holds a string that is not blank: what [readString] looks
    for. *)
Definition holds_text (args : list (string * jsval)) (key : string) : bool :=
  match get_prop args key with
  | JStr v => nonempty (trim v)
  | _ => false
  end.

(** The key holds a finite number, or a non-blank string that converts
    to one: what [readNumber] looks for. *)
Definition holds_number (args : list (string * jsval)) (key : string)
  : option number :=
  match get_prop args key with
  | JNum value => if num_isFinite value then Some value else None
  | JStr value =>
      if nonempty (trim value) && num_isFinite (num_of_string value)
      then Some (num_of_string value) else None
  | _ => None
  end.

(** [m] takes every page to one related to it by [R]. *)
Definition preserves {A} (R : dom -> dom -> Prop) (m : M A) : Prop :=
  forall d, R d (snd (m d)).

Definition is_click (e : effect) : bool :=
  match e with EClick _ => true | _ => false end.

(** From [d] to [d'] the log has grown by effects none of which is a
    click. *)
Definition without_click (d d' : dom) : Prop :=
  exists more, dom_log d' = dom_log d ++ more /\
               forallb (fun e => negb (is_click e)) more = true.

(** [m] clicks [target] with care: a click among the effects it adds is
    on [target], an HTML element that is not a disabled button, and the
    result says so. *)
Definition careful (call : ToolCall) (target : el) (m : M ToolResult) : Prop :=
  forall d, exists more,
    dom_log (snd (m d)) = dom_log d ++ more /\
    forall p, In (EClick p) more ->
      p = el_path target /\
      disabled_button target = false /\
      html_element target = true /\
      fst (m d)
      = Returned (result call true
                    ("Clicked " ++ describeElement target ++ ".")%string).

(** The effects the tools log directly; the click and the timer that
    removes a highlight are logged at one place each. *)
Definition direct (e : effect) : bool :=
  match e with
  | EClick _ | EHighlightTimer _ _ => false
  | _ => true
  end.

Definition highlighted (d : dom) (p : list nat) : bool :=
  existsb (path_eqb p) (dom_highlight d).

(** From [d] to [d'] no highlight was taken away, every highlight that
    is new has its removal timer in the effects added, and every timer
    added is one of 2600 ms for a highlighted element. *)
Definition timed (d d' : dom) : Prop :=
  exists more,
    dom_log d' = dom_log d ++ more /\
    (forall p, highlighted d p = true -> highlighted d' p = true) /\
    (forall p, highlighted d' p = true ->
               highlighted d p = true \/ In (EHighlightTimer p 2600) more) /\
    (forall p ms, In (EHighlightTimer p ms) more ->
                  ms = 2600 /\ highlighted d' p = true).

(** The selectors [buildSelector] tries on the CSS engine for an
    element: by name and, for anchors, by reference. *)
Definition by_name_selector (element : el) (name : string) : string :=
  (toLowerCase (el_tag element) ++ "[name=" ++ dq ++ escapeAttribute name ++ dq
   ++ "]")%string.

Definition by_href_selector (href : string) : string :=
  ("a[href=" ++ dq ++ escapeAttribute href ++ dq ++ "]")%string.

(** A message and a result as the client's [JSON.stringify] writes them
    and the server's [request.json()] reads them. *)
Definition message_json (m : ChatMessage) : jsval :=
  JObj [ ("role", JStr (role m)); ("content", JStr (content m));
         ("createdAt", JStr (createdAt m)) ].

Definition cut_content (m : ChatMessage) : ChatMessage :=
  {| role := role m; content := slice0 1200 (content m);
     createdAt := createdAt m |}.

(** A request the executor takes up: its name is one of the five and
    its arguments are an object, so that it is handed to the function of
    its name. *)
Definition runnable (call : ToolCall) : Prop :=
  In (tc_name call) TOOL_NAMES /\
  exists args,
    tc_args call = JObj args /\
    forall d,
      (tc_name call = "scroll_by" /\
       executeToolCall call d = runScrollBy call args d) \/
      (tc_name call = "navigate_to_section" /\
       executeToolCall call d = runNavigateToSection call args d) \/
      (tc_name call = "click_element" /\
       executeToolCall call d = runClickElement call args d) \/
      (tc_name call = "highlight_element" /\
       executeToolCall call d = runHighlightElement call args d) \/
      (tc_name call = "fill_input" /\
       executeToolCall call d = runFillInput call args d).

(** The user message of a request body as [POST] reads it. *)
Definition body_message (body : list (string * jsval)) : string :=
  match get_prop body "message" with JStr m => trim m | _ => "" end.

(** No usable API key: none, or the empty one. *)
Definition no_key (apiKey : option string) : Prop :=
  apiKey = None \/ apiKey = Some "".

(** From one state of the panel to a later one within a turn: the
    flags are as they were, the clock and the count of calls to the
    service have not gone back, the requests run have been added to, and
    the bounds on the timeline and on the messages are kept. *)
Definition steady (s s' : session) : Prop :=
  isBusy s' = isBusy s /\ isOpen s' = isOpen s /\
  clock s <= clock s' /\ posted s <= posted s' /\
  (exists more, ran s' = ran s ++ more) /\
  (List.length (flowItems s) <= MAX_FLOW_ITEMS ->
   List.length (flowItems s') <= MAX_FLOW_ITEMS) /\
  (List.length (messages s) <= MAX_HISTORY ->
   List.length (messages s') <= MAX_HISTORY).

Definition keeps {A} (m : ST session A) : Prop :=
  forall s, steady s (snd (m s)).

(** The message the loop appends for a result. *)
Definition reports (r : ToolResult) (m : ChatMessage) : Prop :=
  role m = "tool" /\ content m = (tr_name r ++ ": " ++ output r)%string.

(** The requests run one after the other, each on the page the one
    before left, up to the first that throws: the results of those that
    returned, the exception if one threw, and the page at the end. *)
Fixpoint run_on_page (calls : list ToolCall) (d : dom)
  : list ToolResult * option thrown * dom :=
  match calls with
  | [] => ([], None, d)
  | call :: rest =>
      match executeToolCall call d with
      | (Returned r, d1) =>
          let '(rs, stop, d2) := run_on_page rest d1 in (r :: rs, stop, d2)
      | (Threw e, d1) => ([], Some e, d1)
      end
  end.

(** The requests the loop got to, given the results [rs] it collected:
    those that returned and, if one threw, that one. *)
Definition reached (calls : list ToolCall) (rs : list ToolResult)
  (stop : option thrown) : list ToolCall :=
  firstn (List.length rs + match stop with None => 0 | Some _ => 1 end) calls.

(** The history after the entries [ms] were appended one by one, cut to
    its last 18 entries each time. *)
Definition appended (history ms : list ChatMessage) : list ChatMessage :=
  fold_left (fun h m => last_n MAX_HISTORY (h ++ [m])) ms history.

(** [name] with a space for each underscore. *)
Fixpoint spaced (name : string) : string :=
  match name with
  | EmptyString => EmptyString
  | String c r => String (if Ascii.eqb c "_" then " "%char else c) (spaced r)
  end.

(** The assistant's entry of a turn without actions: the text of the
    reply as it came, or the fallback when that text is blank. *)
Definition answer_entry (reply : ChatResponse) (time : string) : ChatMessage :=
  {| role := "assistant";
     content := if nonempty (trim (assistantMessage reply))
                then assistantMessage reply
                else "I could not generate a response. Please rephrase your request.";
     createdAt := time |}.

(** The reply asks for no action the panel would run. *)
Definition asks_nothing (reply : ChatResponse) : Prop :=
  awaitingToolResults reply = false \/ toolCalls reply = None \/
  toolCalls reply = Some [].

(** The entry for the planning text, when there is one, and the entry
    for the final reply. *)
Definition plan_entries (reply : ChatResponse) (time : string) : list ChatMessage :=
  if nonempty (trim (assistantMessage reply))
  then [ {| role := "assistant"; content := assistantMessage reply;
            createdAt := time |} ]
  else [].

Definition final_entry (final : ChatResponse) (time : string) : ChatMessage :=
  {| role := "assistant";
     content := if nonempty (trim (assistantMessage final))
                then trim (assistantMessage final)
                else "Action completed.";
     createdAt := time |}.

(** The payload of the final call of a turn. *)
Definition final_request (message : string) (history : list ChatMessage)
  (snapshot : PageSnapshot) (results : list ToolResult) : ChatRequest :=
  {| cr_message := message; cr_history := history; pageSnapshot := snapshot;
     toolResults := Some results |}.

(** The request is a click on an element that has no [click] method:
    [click_element] with arguments that resolve to a target which is not
    an HTML element. *)
Definition clicks_foreign (call : ToolCall) (d : dom) : bool :=
  String.eqb (tc_name call) "click_element"
  && match isObject (tc_args call) with
     | Some args =>
         match findElement d args with
         | Some found => negb (html_element (click_target found args))
         | None => false
         end
     | None => false
     end.

(** What a turn executed of the requests [calls] of its reply: the first
    three, or, when one of them threw, those up to and including it. *)
Definition executed_of (calls executed : list ToolCall) (r : outcome unit) : Prop :=
  executed = firstn MAX_TOOL_CALLS_PER_TURN calls \/
  exists e before call after,
    r = Threw e /\
    firstn MAX_TOOL_CALLS_PER_TURN calls = before ++ call :: after /\
    executed = before ++ [call] /\
    tc_name call = "click_element".

End Predicates.

(** * Properties *)

Unset Implicit Arguments.

(** ** Strings *)

Lemma length_append (a b : string) :
  String.length (a ++ b) = String.length a + String.length b.
Proof. induction a as [| c a IH]; simpl; [reflexivity | now rewrite IH]. Qed.

Lemma append_assoc (a b c : string) : ((a ++ b) ++ c = a ++ (b ++ c))%string.
Proof. induction a as [| x a IH]; simpl; [reflexivity | now rewrite IH]. Qed.

Lemma append_empty_r (a : string) : (a ++ "")%string = a.
Proof. induction a as [| x a IH]; simpl; [reflexivity | now rewrite IH]. Qed.

Lemma length_slice0 (n : nat) (s : string) :
  String.length (slice0 n s) = Nat.min n (String.length s).
Proof.
  revert s; induction n as [| n IH]; intros [| c s]; simpl; try reflexivity.
  now rewrite IH.
Qed.

(** [startsWith] and [includes] against their meaning on the text. *)
Lemma startsWith_spec (s p : string) :
  startsWith s p = true <-> exists v, s = (p ++ v)%string.
Proof.
  revert s; induction p as [| a p IH]; intros s; simpl.
  - split; [intros _; now exists s | intros _; now destruct s].
  - destruct s as [| b s].
    + split; [discriminate | intros [v Hv]; discriminate].
    + simpl. rewrite andb_true_iff, IH. split.
      * intros [Hab [v ->]]. apply Ascii.eqb_eq in Hab. subst. now exists v.
      * intros [v Hv]. injection Hv as -> ->. split; [apply Ascii.eqb_refl | now exists v].
Qed.

Lemma indexOf_eq (s p : string) :
  indexOf s p =
  if startsWith s p then Some 0
  else match s with
       | EmptyString => None
       | String _ r => option_map S (indexOf r p)
       end.
Proof. destruct s; reflexivity. Qed.

Lemma indexOf_some (s p : string) (i : nat) :
  indexOf s p = Some i ->
  exists u v, s = (u ++ p ++ v)%string /\ String.length u = i.
Proof.
  revert i; induction s as [| c s IH]; intros i; rewrite indexOf_eq.
  - destruct (startsWith "" p) eqn:E; [| discriminate].
    intros [= <-]. apply startsWith_spec in E as [v Hv].
    exists ""%string, v. now split.
  - destruct (startsWith (String c s) p) eqn:E.
    + intros [= <-]. apply startsWith_spec in E as [v Hv].
      exists ""%string, v. now split.
    + destruct (indexOf s p) as [j |] eqn:Ej; simpl; [| discriminate].
      intros [= <-]. destruct (IH j eq_refl) as (u & v & -> & Hu).
      exists (String c u), v. simpl. now rewrite Hu.
Qed.

Lemma indexOf_none (s p u v : string) :
  indexOf s p = None -> s <> (u ++ p ++ v)%string.
Proof.
  revert u; induction s as [| c s IH]; intros u; rewrite indexOf_eq.
  - destruct (startsWith "" p) eqn:E; [discriminate |]. intros _ H.
    destruct u; simpl in H.
    + assert (startsWith "" p = true) by (apply startsWith_spec; now exists v).
      congruence.
    + discriminate.
  - destruct (startsWith (String c s) p) eqn:E; [discriminate |].
    destruct (indexOf s p) eqn:Ei; simpl; [discriminate |]. intros _ H.
    destruct u as [| x u]; simpl in H.
    + assert (startsWith (String c s) p = true)
        by (apply startsWith_spec; now exists v).
      congruence.
    + injection H as _ H. revert H. apply IH. reflexivity.
Qed.

Lemma includes_spec (s p : string) :
  includes s p = true <-> exists u v, s = (u ++ p ++ v)%string.
Proof.
  unfold includes. destruct (indexOf s p) as [i |] eqn:E.
  - split; [intros _ | reflexivity].
    destruct (indexOf_some _ _ _ E) as (u & v & H & _). now exists u, v.
  - split; [discriminate |]. intros (u & v & H).
    now apply (indexOf_none s p u v) in E.
Qed.

Lemma includes_refl (p : string) : includes p p = true.
Proof. apply includes_spec. exists ""%string, ""%string. simpl. now rewrite append_empty_r. Qed.

(** ** The snapshot extractor *)

Section SnapshotProperties.
Context {JN : JsNumber} {BR : Browser}.

Lemma normalizeText_short (value : string) (limit : nat) :
  String.length (trim (collapse value)) <= limit ->
  normalizeText value limit = trim (collapse value).
Proof.
  intros H. unfold normalizeText.
  now destruct (Nat.leb_spec (String.length (trim (collapse value))) limit); [| lia].
Qed.

Lemma normalizeText_long (value : string) (limit : nat) :
  3 <= limit ->
  limit < String.length (trim (collapse value)) ->
  normalizeText value limit
  = (slice0 (limit - 3) (trim (collapse value)) ++ "...")%string
  /\ String.length (normalizeText value limit) = limit.
Proof.
  intros H3 Hlong. unfold normalizeText, slice_to_max_minus_3.
  destruct (Nat.leb_spec (String.length (trim (collapse value))) limit); [lia |].
  destruct (Nat.leb_spec 3 limit); [| lia].
  split; [reflexivity |].
  rewrite length_append, length_slice0. simpl. lia.
Qed.

Lemma normalizeText_bounded (value : string) (limit : nat) :
  3 <= limit -> String.length (normalizeText value limit) <= limit.
Proof.
  intros H3.
  destruct (Nat.le_gt_cases (String.length (trim (collapse value))) limit) as [H | H].
  - now rewrite normalizeText_short.
  - destruct (normalizeText_long value limit H3 H) as [_ ->]. lia.
Qed.

Lemma map_outcome_length {A B} (f : A -> outcome B) (l : list A) (ys : list B) :
  map_outcome f l = Returned ys -> List.length ys = List.length l.
Proof.
  revert ys; induction l as [| x l IH]; intros ys; simpl.
  - now intros [= <-].
  - destruct (f x); [| discriminate].
    destruct (map_outcome f l); [| discriminate].
    intros [= <-]. simpl. now rewrite (IH _ eq_refl).
Qed.

Lemma collectSections_length (d : dom) (root : el) :
  List.length (collectSections d root) <= 12.
Proof.
  unfold collectSections. rewrite length_map. apply firstn_le_length.
Qed.

Lemma collectElements_length (d : dom) (root : el) (els : list ElementData) :
  collectElements d root = Returned els -> List.length els <= 160.
Proof.
  unfold collectElements. intros H. apply map_outcome_length in H. rewrite H.
  apply firstn_le_length.
Qed.

Lemma normalizeText_cut (source : string) (limit : nat) :
  3 <= limit -> cut limit source (normalizeText source limit).
Proof.
  intros H3. split; [now apply normalizeText_bounded |]. split.
  - apply normalizeText_short.
  - now apply normalizeText_long.
Qed.

Lemma Forall2_map {A B} (P : A -> B -> Prop) (f : A -> B) (l : list A) :
  (forall x, P x (f x)) -> Forall2 P l (map f l).
Proof. intros H. induction l; simpl; constructor; auto. Qed.

Lemma section_of_shows (section : el) : section_shows section (section_of section).
Proof.
  unfold section_shows, section_of, heading_source, preview_source. simpl.
  split; [reflexivity |].
  split; apply normalizeText_cut; unfold MAX_TEXT; lia.
Qed.

(** C8.  Every snapshot [extractPageSnapshot] captures has at most 12
    sections and at most 160 elements.  Its sections are those of the
    first 12 visible sections under the root, in order, and each shows
    the heading of its section within 80 characters and the preview
    within 260: the text of the heading (the summary or the text of the
    section) with its white space collapsed when that fits, and
    otherwise cut and ended with the ellipsis so that its length is the
    limit. *)
Theorem snapshot_bounds (tick : nat) (d : dom) (snap : PageSnapshot) :
  extractPageSnapshot tick d = Returned snap ->
  List.length (sections snap) <= 12 /\
  List.length (elements snap) <= 160 /\
  exists root,
    snapshot_root d = Some root /\
    Forall2 section_shows (listed_sections d root) (sections snap).
Proof.
  unfold extractPageSnapshot, snapshot_root.
  destruct (match hd_error (querySelectorAll d PORTFOLIO_ROOT) with
            | Some r => Some r
            | None => document_body d
            end) as [root |]; [| discriminate].
  destruct (collectElements d root) as [els |] eqn:E; [| discriminate].
  intros [= <-]. simpl. split; [apply collectSections_length |].
  split; [now apply (collectElements_length d root) |].
  exists root. split; [reflexivity |].
  unfold collectSections, listed_sections. apply Forall2_map, section_of_shows.
Qed.

End SnapshotProperties.

(** ** The executor: what returns and what throws *)

Lemma returns_ret {S A} (a : A) (P : A -> Prop) :
  P a -> returns (S:=S) (ret a) P.
Proof. intros H s. now exists a, s. Qed.

Lemma returns_bind {S A B} (m : ST S A) (k : A -> ST S B)
  (P : A -> Prop) (Q : B -> Prop) :
  returns m P -> (forall a, P a -> returns (k a) Q) -> returns (bind m k) Q.
Proof.
  intros Hm Hk s. destruct (Hm s) as (a & s1 & E & Ha).
  destruct (Hk a Ha s1) as (b & s2 & E2 & Hb).
  exists b, s2. unfold bind. now rewrite E.
Qed.

Lemma returns_weaken {S A} (m : ST S A) (P Q : A -> Prop) :
  returns m P -> (forall a, P a -> Q a) -> returns m Q.
Proof.
  intros Hm H s. destruct (Hm s) as (a & s1 & E & Ha). exists a, s1. auto.
Qed.

Lemma returns_gets {S A} (f : S -> A) : returns (gets f) (fun _ => True).
Proof. intros s. now exists (f s), s. Qed.

Lemma returns_modify {S} (f : S -> S) : returns (modify f) (fun _ => True).
Proof. intros s. now exists tt, (f s). Qed.

Lemma returns_attempt {S A} (m : ST S A) : returns (attempt m) (fun _ => True).
Proof.
  intros s. unfold attempt. destruct (m s) as [r s1]. now exists r, s1.
Qed.

Section ExecutorTotal.
Context {JN : JsNumber} {BR : Browser}.

Lemma returns_log (e : effect) : returns (log e) (fun _ => True).
Proof. intros d. eexists tt, _. split; [reflexivity | exact I]. Qed.

Lemma returns_add_class (p : list nat) : returns (add_class p) (fun _ => True).
Proof. intros d. eexists tt, _. split; [reflexivity | exact I]. Qed.

Lemma returns_write_value (p : list nat) (v : string) :
  returns (write_value p v) (fun _ => True).
Proof. intros d. eexists tt, _. split; [reflexivity | exact I]. Qed.

Lemma returns_replaceState (u : string) : returns (replaceState u) (fun _ => True).
Proof. intros d. eexists tt, _. split; [reflexivity | exact I]. Qed.

Lemma returns_addHighlight (e : el) : returns (addHighlight e) (fun _ => True).
Proof.
  unfold addHighlight. eapply returns_bind; [apply returns_add_class |].
  intros; apply returns_log.
Qed.

Lemma returns_scrollIntoView (e : el) (b : string) :
  returns (scrollIntoView e b) (fun _ => True).
Proof. apply returns_log. Qed.

Lemma answers_result (call : ToolCall) (ok : bool) (out : string) :
  answers call (result call ok out).
Proof. now split. Qed.

Create HintDb returns.

#[local] Hint Resolve answers_result returns_log returns_addHighlight
  returns_scrollIntoView returns_replaceState
  returns_gets returns_attempt : returns.

Ltac step_returns :=
  first
    [ apply returns_ret; apply answers_result
    | eapply returns_bind; [solve [eauto with returns] | intros ? _] ].

Lemma runScrollBy_returns (call : ToolCall) (args : list (string * jsval)) :
  returns (runScrollBy call args) (answers call).
Proof.
  unfold runScrollBy. destruct (readNumber args _); repeat step_returns.
Qed.

Lemma runNavigateToSection_returns (call : ToolCall) (args : list (string * jsval)) :
  returns (runNavigateToSection call args) (answers call).
Proof.
  unfold runNavigateToSection, read.
  destruct (readString args _); repeat step_returns.
  destruct a as [target |]; repeat step_returns.
  eapply returns_bind with (P := fun _ => True).
  - destruct (nonempty (el_id target)); [apply returns_replaceState | now apply returns_ret].
  - intros _ _. repeat step_returns.
Qed.

Lemma click_on_returns (call : ToolCall) (target : el) :
  html_element target = true ->
  returns (click_on call target) (answers call).
Proof.
  intros Hhtml.
  assert (returns (click target) (fun _ => True)) as Hclick
    by (unfold click; rewrite Hhtml; apply returns_log).
  unfold click_on, read. repeat step_returns.
  destruct (disabled_button target); repeat step_returns.
  destruct (html_anchor target && _); repeat step_returns.
  destruct a1; repeat step_returns.
Qed.

Lemma click_on_throws (call : ToolCall) (target : el) (d : dom) :
  html_element target = false ->
  click_on call target d
  = (Threw NO_CLICK, snd (addHighlight target (snd (scrollIntoView target "center" d)))).
Proof.
  intros Hhtml. unfold click_on, disabled_button, html_anchor, click.
  rewrite Hhtml. reflexivity.
Qed.

Lemma runClickElement_returns (call : ToolCall) (args : list (string * jsval))
  (d : dom) :
  match findElement d args with
  | Some found => html_element (click_target found args) = true
  | None => True
  end ->
  exists r d', runClickElement call args d = (Returned r, d') /\ answers call r.
Proof.
  unfold runClickElement. unfold bind at 1. unfold read at 1, gets at 1.
  destruct (findElement d args) as [found |].
  - intros Hhtml. apply (click_on_returns call _ Hhtml).
  - intros _. eexists _, _. split; [reflexivity | apply answers_result].
Qed.

Lemma runClickElement_throws (call : ToolCall) (args : list (string * jsval))
  (d : dom) (found : el) :
  findElement d args = Some found ->
  html_element (click_target found args) = false ->
  runClickElement call args d
  = (Threw NO_CLICK,
     snd (addHighlight (click_target found args)
            (snd (scrollIntoView (click_target found args) "center" d)))).
Proof.
  intros Hf Hhtml. unfold runClickElement. unfold bind at 1.
  unfold read at 1, gets at 1. rewrite Hf. now apply click_on_throws.
Qed.

Lemma runHighlightElement_returns (call : ToolCall) (args : list (string * jsval)) :
  returns (runHighlightElement call args) (answers call).
Proof.
  unfold runHighlightElement, read. step_returns.
  destruct a; repeat step_returns.
Qed.

Lemma fill_entries_returns (call : ToolCall) (selector : option string)
  (updates : list (string * string)) (outputs : list string) :
  returns (fill_entries call selector updates outputs) (answers call).
Proof.
  revert outputs; induction updates as [| [f v] rest IH]; intros outputs; simpl.
  - repeat step_returns.
  - step_returns. destruct a; [apply IH | repeat step_returns].
Qed.

Lemma fill_single_returns (call : ToolCall) (args : list (string * jsval))
  (selector : option string) :
  returns (fill_single call args selector) (answers call).
Proof.
  unfold fill_single. destruct (readString args ["value"]); repeat step_returns.
  destruct a; repeat step_returns.
Qed.

Lemma runFillInput_returns (call : ToolCall) (args : list (string * jsval)) :
  returns (runFillInput call args) (answers call).
Proof.
  unfold runFillInput. destruct (isObject _); [| apply fill_single_returns].
  destruct (string_entries _); [apply fill_single_returns | apply fill_entries_returns].
Qed.

Lemma executeToolCall_returns (call : ToolCall) (d : dom) :
  clicks_foreign call d = false ->
  exists r d', executeToolCall call d = (Returned r, d') /\ answers call r.
Proof.
  unfold clicks_foreign, executeToolCall.
  destruct (isObject (tc_args call)) as [args |];
    [| intros _; eexists _, _; split; [reflexivity | apply answers_result]].
  destruct (String.eqb (tc_name call) "scroll_by") eqn:E1;
    [intros _; apply runScrollBy_returns |].
  destruct (String.eqb (tc_name call) "navigate_to_section") eqn:E2;
    [intros _; apply runNavigateToSection_returns |].
  destruct (String.eqb (tc_name call) "click_element") eqn:E3.
  { cbn [andb]. intros H. apply runClickElement_returns.
    destruct (findElement d args) as [found |]; [| exact I].
    now apply negb_false_iff in H. }
  destruct (String.eqb (tc_name call) "highlight_element") eqn:E4;
    [intros _; apply runHighlightElement_returns |].
  destruct (String.eqb (tc_name call) "fill_input") eqn:E5;
    [intros _; apply runFillInput_returns |].
  intros _. eexists _, _. split; [reflexivity | apply answers_result].
Qed.

Lemma executeToolCall_throws (call : ToolCall) (d : dom) :
  clicks_foreign call d = true ->
  exists args found,
    tc_name call = "click_element" /\
    isObject (tc_args call) = Some args /\
    findElement d args = Some found /\
    html_element (click_target found args) = false /\
    executeToolCall call d
    = (Threw NO_CLICK,
       snd (addHighlight (click_target found args)
              (snd (scrollIntoView (click_target found args) "center" d)))).
Proof.
  unfold clicks_foreign, executeToolCall. intros H.
  apply andb_true_iff in H as [Hname H]. apply String.eqb_eq in Hname.
  destruct (isObject (tc_args call)) as [args |]; [| discriminate].
  destruct (findElement d args) as [found |] eqn:Ef; [| discriminate].
  apply negb_true_iff in H. exists args, found. rewrite Hname.
  cbn [String.eqb Ascii.eqb Bool.eqb]. repeat split; trivial.
  now apply runClickElement_throws.
Qed.

Lemma executeToolCall_answers (call : ToolCall) (d : dom) (r : ToolResult)
  (d' : dom) :
  executeToolCall call d = (Returned r, d') -> answers call r.
Proof.
  intros E. destruct (clicks_foreign call d) eqn:Ec.
  - destruct (executeToolCall_throws call d Ec) as (? & ? & _ & _ & _ & _ & Et).
    congruence.
  - destruct (executeToolCall_returns call d Ec) as (r0 & d0 & E0 & Ha).
    congruence.
Qed.


End ExecutorTotal.

(** ** The chat API route *)

Section RouteProperties.
Context {JN : JsNumber} {BR : Browser} {SV : Server}.

Lemma extractToolCalls_length (parts : list GeminiPart) :
  List.length (extractToolCalls parts) <= MAX_TOOL_CALLS_PER_TURN.
Proof. apply firstn_le_length. Qed.

Lemma slimSnapshot_sections (snapshot : ReceivedSnapshot) :
  get_prop (match slimSnapshot snapshot with JObj f => f | _ => [] end) "sections"
  = JArr (firstn 10 (rs_sections snapshot)).
Proof. reflexivity. Qed.

Lemma slimSnapshot_elements (snapshot : ReceivedSnapshot) :
  get_prop (match slimSnapshot snapshot with JObj f => f | _ => [] end) "elements"
  = JArr (firstn 80 (rs_elements snapshot)).
Proof. reflexivity. Qed.

Lemma prompts_read_slim (message : string) (history : list ChatMessage)
  (a b : ReceivedSnapshot) :
  slimSnapshot a = slimSnapshot b ->
  buildPlanningPrompt message history a = buildPlanningPrompt message history b
  /\ forall results,
       buildFinalPrompt message history a results
       = buildFinalPrompt message history b results.
Proof.
  intros H. unfold buildPlanningPrompt, buildFinalPrompt. rewrite H. now split.
Qed.

Lemma gemini_request_reads_slim (apiKey : option string)
  (body body' : list (string * jsval)) (a b : ReceivedSnapshot) :
  get_prop body "message" = get_prop body' "message" ->
  get_prop body "history" = get_prop body' "history" ->
  get_prop body "toolResults" = get_prop body' "toolResults" ->
  isPageSnapshot (get_prop body "pageSnapshot") = Some a ->
  isPageSnapshot (get_prop body' "pageSnapshot") = Some b ->
  slimSnapshot a = slimSnapshot b ->
  gemini_request apiKey body = gemini_request apiKey body'.
Proof.
  intros Hm Hh Ht Ha Hb Hslim. unfold gemini_request.
  rewrite <- Hm, <- Hh, <- Ht, Ha, Hb.
  destruct (prompts_read_slim
              (match get_prop body "message" with JStr m => trim m | _ => "" end)
              (toHistory (get_prop body "history")) a b Hslim) as [-> Hf].
  destruct apiKey as [key |]; [| reflexivity].
  destruct (negb (nonempty key)); [reflexivity |].
  destruct (negb (nonempty match get_prop body "message" with
                           | JStr m => trim m
                           | _ => ""
                           end)); [reflexivity |].
  destruct (toToolResults (get_prop body "toolResults")); [reflexivity |].
  now rewrite Hf.
Qed.

Lemma answer_body_calls_with_request (apiKey : option string)
  (body : list (string * jsval))
  (service service' : GeminiRequest -> outcome GeminiResponse) :
  (forall request, gemini_request apiKey body = Some request ->
                   service request = service' request) ->
  answer_body apiKey body service = answer_body apiKey body service'.
Proof.
  intros H. unfold answer_body.
  destruct (negb (nonempty match get_prop body "message" with
                           | JStr m => trim m
                           | _ => ""
                           end)); [reflexivity |].
  destruct (isPageSnapshot (get_prop body "pageSnapshot")); [| reflexivity].
  destruct (gemini_request apiKey body) as [request |] eqn:Er; [| reflexivity].
  now rewrite (H request eq_refl).
Qed.

Lemma POST_calls_with_request (apiKey : option string)
  (request_json : outcome jsval)
  (service service' : GeminiRequest -> outcome GeminiResponse) :
  (forall body request,
     body_of request_json = Returned body ->
     gemini_request apiKey body = Some request ->
     service request = service' request) ->
  POST apiKey request_json service = POST apiKey request_json service'.
Proof.
  intros H. unfold POST.
  destruct apiKey as [key |]; [| reflexivity].
  destruct (negb (nonempty key)); [reflexivity |].
  destruct (body_of request_json) as [body | e]; [| reflexivity].
  apply answer_body_calls_with_request. intros request. now apply H.
Qed.

(** C10.  What the server forwards to the planning service, for a
    planning call and for a final call alike, holds the first 10 sections
    and the first 80 elements of the snapshot it received and nothing of
    the rest: the slimmed snapshot has at most 10 sections and 80
    elements, the request sent is the same for two bodies whose snapshots
    slim to the same value, and the service is called with that request
    only. *)
Theorem service_receives_slim_snapshot :
  (forall snapshot : ReceivedSnapshot,
     exists ss es,
       slimSnapshot snapshot
       = JObj [ ("url", JStr (rs_url snapshot));
                ("title", JStr (rs_title snapshot));
                ("capturedAt", JStr (rs_capturedAt snapshot));
                ("sections", JArr ss); ("elements", JArr es) ]
       /\ ss = firstn 10 (rs_sections snapshot)
       /\ es = firstn 80 (rs_elements snapshot)
       /\ List.length ss <= 10 /\ List.length es <= 80) /\
  (forall apiKey body body' a b,
     get_prop body "message" = get_prop body' "message" ->
     get_prop body "history" = get_prop body' "history" ->
     get_prop body "toolResults" = get_prop body' "toolResults" ->
     isPageSnapshot (get_prop body "pageSnapshot") = Some a ->
     isPageSnapshot (get_prop body' "pageSnapshot") = Some b ->
     slimSnapshot a = slimSnapshot b ->
     gemini_request apiKey body = gemini_request apiKey body') /\
  (forall apiKey request_json service service',
     (forall body request,
        body_of request_json = Returned body ->
        gemini_request apiKey body = Some request ->
        service request = service' request) ->
     POST apiKey request_json service = POST apiKey request_json service') /\
  (forall apiKey body request,
     gemini_request apiKey body = Some request ->
     exists message history snapshot,
       isPageSnapshot (get_prop body "pageSnapshot") = Some snapshot /\
       (gq_text request = buildPlanningPrompt message history snapshot \/
        exists results,
          gq_text request = buildFinalPrompt message history snapshot results)).
Proof.
  split; [| split; [| split]].
  - intros snapshot. eexists _, _. split; [reflexivity |].
    repeat split; apply firstn_le_length.
  - intros. eapply gemini_request_reads_slim; eauto.
  - intros. now apply POST_calls_with_request.
  - intros apiKey body request. unfold gemini_request.
    destruct apiKey as [key |]; [| discriminate].
    destruct (negb (nonempty key)); [discriminate |].
    destruct (negb (nonempty match get_prop body "message" with
                             | JStr m => trim m
                             | _ => ""
                             end)); [discriminate |].
    destruct (isPageSnapshot _) as [snapshot |]; [| discriminate].
    destruct (toToolResults _) eqn:Et; intros [= <-]; simpl;
      eexists _, _, snapshot; (split; [reflexivity |]).
    + now left.
    + right. now eexists.
Qed.

End RouteProperties.

(** ** Normalization *)


Lemma is_space_lower (c : ascii) : is_space (lower_char c) = is_space c.
Proof. destruct c as [[] [] [] [] [] [] [] []]; reflexivity. Qed.


Lemma toLowerCase_append (a b : string) :
  toLowerCase (a ++ b) = (toLowerCase a ++ toLowerCase b)%string.
Proof. induction a as [| c a IH]; simpl; [reflexivity | now rewrite IH]. Qed.


Lemma all_space_lower (s : string) : all_space (toLowerCase s) = all_space s.
Proof.
  induction s as [| c s IH]; simpl; [reflexivity |].
  now rewrite is_space_lower, IH.
Qed.



Lemma tidy_collapse_from (b : bool) (s : string) :
  tidy b (collapse_from b s) = true.
Proof.
  revert b; induction s as [| c s IH]; intros b; simpl; [reflexivity |].
  destruct (is_space c) eqn:Ec.
  - destruct b; [apply IH |]. simpl. apply IH.
  - simpl. rewrite Ec. apply IH.
Qed.

Lemma collapse_from_tidy (b : bool) (s : string) :
  tidy b s = true -> collapse_from b s = s.
Proof.
  revert b; induction s as [| c s IH]; intros b; simpl; [reflexivity |].
  destruct (is_space c).
  - rewrite !andb_true_iff. intros [[Hc Hb] Hr].
    apply Ascii.eqb_eq in Hc. subst c. destruct b; [discriminate |].
    now rewrite (IH true Hr).
  - intros Hr. now rewrite (IH false Hr).
Qed.

Lemma tidy_trimStart (b : bool) (s : string) :
  tidy b s = true -> tidy false (trimStart s) = true.
Proof.
  revert b; induction s as [| c s IH]; intros b; simpl; [reflexivity |].
  destruct (is_space c) eqn:Ec.
  - rewrite !andb_true_iff. intros [_ Hr]. now apply (IH true).
  - intros Hr. simpl. now rewrite Ec.
Qed.

Lemma tidy_trimEnd (b : bool) (s : string) :
  tidy b s = true -> tidy b (trimEnd s) = true.
Proof.
  revert b; induction s as [| c s IH]; intros b; [reflexivity |].
  cbn [trimEnd]. destruct (all_space (String c s)); [reflexivity |].
  simpl. destruct (is_space c).
  - rewrite !andb_true_iff. intros [H Hr]. split; [exact H | now apply IH].
  - apply IH.
Qed.

Lemma starts_clean_trimStart (s : string) : starts_clean (trimStart s) = true.
Proof.
  induction s as [| c s IH]; simpl; [reflexivity |].
  destruct (is_space c) eqn:Ec; [exact IH |]. simpl. now rewrite Ec.
Qed.

Lemma trimStart_clean (s : string) : starts_clean s = true -> trimStart s = s.
Proof.
  destruct s as [| c s]; simpl; [reflexivity |].
  now destruct (is_space c).
Qed.

Lemma starts_clean_trimEnd (s : string) :
  starts_clean s = true -> starts_clean (trimEnd s) = true.
Proof.
  destruct s as [| c s]; [reflexivity |]. cbn [trimEnd all_space starts_clean].
  destruct (is_space c) eqn:Ec; [discriminate |]. intros _. simpl.
  now rewrite Ec.
Qed.

Lemma all_space_trimEnd (s : string) : all_space (trimEnd s) = all_space s.
Proof.
  induction s as [| c s IH]; [reflexivity |]. cbn [trimEnd].
  destruct (all_space (String c s)) eqn:E; [reflexivity |].
  cbn [all_space] in *. now rewrite IH.
Qed.

Lemma trimEnd_idem (s : string) : trimEnd (trimEnd s) = trimEnd s.
Proof.
  induction s as [| c s IH]; [reflexivity |]. cbn [trimEnd].
  destruct (all_space (String c s)) eqn:E; [reflexivity |].
  cbn [trimEnd]. cbn [all_space] in *. rewrite all_space_trimEnd, E.
  now rewrite IH.
Qed.

Lemma trim_idem (s : string) : trim (trim s) = trim s.
Proof.
  unfold trim.
  rewrite (trimStart_clean (trimEnd (trimStart s))).
  - apply trimEnd_idem.
  - apply starts_clean_trimEnd, starts_clean_trimStart.
Qed.

Lemma all_space_collapse_from (b : bool) (s : string) :
  all_space (collapse_from b s) = all_space s.
Proof.
  revert b; induction s as [| c s IH]; intros b; simpl; [reflexivity |].
  destruct (is_space c) eqn:Ec; simpl.
  - destruct b; [apply IH |]. simpl. apply IH.
  - now rewrite Ec.
Qed.

Lemma nonempty_trim (s : string) : nonempty (trim s) = negb (all_space s).
Proof.
  unfold trim. induction s as [| c s IH]; [reflexivity |].
  cbn [trimStart all_space]. destruct (is_space c) eqn:Ec; [exact IH |].
  cbn [trimEnd all_space]. now rewrite Ec.
Qed.

Section NormalizeProperties.
Context {JN : JsNumber} {BR : Browser}.


(** A hint is empty once normalized exactly when it is empty once
    trimmed: when it is white space only. *)
Lemma nonempty_normalize (s : string) :
  nonempty (normalize s) = nonempty (trim s).
Proof.
  unfold normalize, collapse.
  now rewrite !nonempty_trim, all_space_collapse_from, all_space_lower.
Qed.

End NormalizeProperties.

(** A plain word that stands in a text still stands in the normalized
    text. *)




Lemma all_space_append (a b : string) :
  all_space (a ++ b) = all_space a && all_space b.
Proof.
  induction a as [| c a IH]; simpl; [reflexivity |].
  now rewrite IH, andb_assoc.
Qed.

Lemma trimEnd_before (a b : string) :
  all_space b = false -> trimEnd (a ++ b) = (a ++ trimEnd b)%string.
Proof.
  intros Hb. induction a as [| c a IH]; [reflexivity |].
  change (String c a ++ b)%string with (String c (a ++ b)).
  cbn [trimEnd all_space]. rewrite all_space_append, Hb, andb_false_r, andb_false_r.
  simpl. now rewrite IH.
Qed.




(** ** Project cards *)

Section CardProperties.
Context {JN : JsNumber} {BR : Browser}.







End CardProperties.



(** Why the amended statement asks for two cards, no superlative term
    and no "first": each of them takes precedence over "second". *)
Example second_needs_two_cards :
  findProjectCardByHint lone_card_page "the second project" = None.
Proof. vm_compute. reflexivity. Qed.

Example superlative_comes_first :
  option_map el_id (findProjectCardByHint shuffled_page "the second latest")
  = Some "project-2".
Proof. vm_compute. reflexivity. Qed.

Example first_comes_before_second :
  option_map el_id (findProjectCardByHint shuffled_page "not the first, the second")
  = Some "project-2".
Proof. vm_compute. reflexivity. Qed.

Example standalone_two :
  option_map el_id (findProjectCardByHint shuffled_page "project 2")
  = Some "project-3".
Proof. vm_compute. reflexivity. Qed.


(** ** Section aliases *)

Section AliasProperties.
Context {JN : JsNumber} {BR : Browser}.

Lemma alias_scan_hit (d : dom) (n : string)
  (before after : list (string * list string)) (id : string)
  (aliases : list string) (e : el) :
  (forall entry, In entry before ->
                 names_section n entry = false \/ getElementById d (fst entry) = None) ->
  names_section n (id, aliases) = true ->
  getElementById d id = Some e ->
  alias_scan d n (before ++ (id, aliases) :: after) = Some e.
Proof.
  intros Hb Hn He. induction before as [| [id' al'] before IH]; simpl.
  - unfold names_section in Hn. simpl in Hn. now rewrite Hn, He.
  - assert (alias_scan d n (before ++ (id, aliases) :: after) = Some e) as Hrest
      by (apply IH; intros entry Hin; apply Hb; now right).
    destruct (Hb (id', al') (or_introl eq_refl)) as [H | H].
    + unfold names_section in H. simpl in H. now rewrite H.
    + simpl in H. rewrite H. now destruct (existsb _ al').
Qed.

Lemma alias_scan_first_named (d : dom) (n id : string) (e : el)
  (table : list (string * list string)) :
  option_map fst (hd_error (filter (names_section n) table)) = Some id ->
  getElementById d id = Some e ->
  alias_scan d n table = Some e.
Proof.
  intros Hf He. induction table as [| [id' al'] table IH]; [discriminate |].
  simpl in *. unfold names_section in Hf at 1. simpl in Hf.
  destruct (existsb (fun alias => includes n alias) al').
  - simpl in Hf. injection Hf as ->. now rewrite He.
  - now apply IH.
Qed.

Lemma resolve_by_alias (d : dom) (hint : string) (e : el) :
  nonempty (strip_hash (normalize hint)) = true ->
  getElementById d (strip_hash (normalize hint)) = None ->
  alias_scan d (strip_hash (normalize hint)) SECTION_ALIASES = Some e ->
  resolveSectionFromHint d hint = Some e.
Proof.
  intros Hn Hd Ha. unfold resolveSectionFromHint. now rewrite Hn, Hd, Ha.
Qed.

Lemma resolve_direct (d : dom) (hint : string) (e : el) :
  nonempty (strip_hash (normalize hint)) = true ->
  getElementById d (strip_hash (normalize hint)) = Some e ->
  resolveSectionFromHint d hint = Some e.
Proof.
  intros Hn Hd. unfold resolveSectionFromHint. now rewrite Hn, Hd.
Qed.

(** C3, as amended.  For a section hint whose normalized form (lower
    case, white space collapsed, leading '#' stripped) is no element
    identifier: if an entry of a canonical section's alias list is
    contained in the normalized hint, resolution returns the element of
    the first canonical section of the table that is so named and is in
    the document.  In particular a hint whose normalized form is one of
    the synonyms resolves to the element of that synonym's canonical
    section, whichever synonym it is. *)
Theorem alias_resolution (d : dom) (hint : string) :
  let n := strip_hash (normalize hint) in
  (forall before after id aliases e,
     SECTION_ALIASES = before ++ (id, aliases) :: after ->
     nonempty n = true ->
     getElementById d n = None ->
     (exists alias, In alias aliases /\ includes n alias = true) ->
     getElementById d id = Some e ->
     (forall entry, In entry before ->
        names_section n entry = false \/ getElementById d (fst entry) = None) ->
     resolveSectionFromHint d hint = Some e) /\
  (forall id aliases e,
     In (id, aliases) SECTION_ALIASES ->
     In n aliases ->
     getElementById d id = Some e ->
     getElementById d n = None \/ n = id ->
     resolveSectionFromHint d hint = Some e).
Proof.
  intros n. split.
  - intros before after id aliases e Ht Hn Hd (alias & Hin & Hinc) He Hb.
    apply resolve_by_alias; trivial. fold n. rewrite Ht.
    apply alias_scan_hit; trivial.
    unfold names_section. simpl. apply existsb_exists. now exists alias.
  - intros id aliases e Hentry Halias He Hd.
    assert (nonempty n = true /\
            option_map fst (hd_error (filter (names_section n) SECTION_ALIASES))
            = Some id) as [Hn Hfirst].
    { simpl in Hentry.
      repeat (destruct Hentry as [Hentry | Hentry];
              [ injection Hentry as <- <-; simpl in Halias;
                repeat (destruct Halias as [<- | Halias]; [now split |]);
                contradiction | ]).
      contradiction. }
    destruct Hd as [Hd | Hd].
    + apply resolve_by_alias; trivial. fold n.
      now apply alias_scan_first_named with (id := id).
    + apply resolve_direct; trivial. fold n. now rewrite Hd.
Qed.

End AliasProperties.

(** A hint that is only part of an alias names no section: "port" is
    contained in the alias "portfolio" of the projects section, which is
    on the page, and is resolved to nothing. *)
Lemma part_of_alias_not_resolved :
  strip_hash (normalize "port") = "port" /\
  getElementById sample_page "port" = None /\
  In "portfolio" ["projects"; "portfolio"; "work"; "case studies"; "case-study"] /\
  In ("projects", ["projects"; "portfolio"; "work"; "case studies"; "case-study"])
     SECTION_ALIASES /\
  includes "portfolio" "port" = true /\
  option_map el_id (getElementById sample_page "projects") = Some "projects" /\
  resolveSectionFromHint sample_page "port" = None.
Proof.
  repeat split; try (vm_compute; reflexivity); simpl; tauto.
Qed.

Lemma alias_resolution_witness :
  resolveSectionFromHint sample_page "show me your work"
  = Some (element_by_id sample_page "projects") /\
  resolveSectionFromHint sample_page " Portfolio"
  = Some (element_by_id sample_page "projects") /\
  resolveSectionFromHint sample_page "hire"
  = Some (element_by_id sample_page "contact").
Proof.
  split; [| split].
  - apply (proj1 (@alias_resolution IntegerNumbers sample_page "show me your work"))
      with (before := firstn 2 SECTION_ALIASES) (after := skipn 3 SECTION_ALIASES)
           (id := "projects")
           (aliases := ["projects"; "portfolio"; "work"; "case studies"; "case-study"]);
      try reflexivity.
    + exists "work". split; [simpl; tauto | reflexivity].
    + intros entry [<- | [<- | []]]; left; reflexivity.
  - apply (proj2 (@alias_resolution IntegerNumbers sample_page " Portfolio"))
      with (id := "projects")
           (aliases := ["projects"; "portfolio"; "work"; "case studies"; "case-study"]);
      try reflexivity; simpl; tauto.
  - apply (proj2 (@alias_resolution IntegerNumbers sample_page "hire"))
      with (id := "contact")
           (aliases := ["contact"; "hire"; "email"; "reach"; "message"]);
      try reflexivity; simpl; tauto.
Defined.

(** ** Ranked text search *)

Section SearchProperties.
Context {JN : JsNumber} {BR : Browser}.

Lemma hd_insert_ranked (x : el * nat) (l : list (el * nat)) :
  hd_error (insert_ranked x l)
  = match hd_error l with
    | None => Some x
    | Some y => if snd x <=? snd y then Some x else Some y
    end.
Proof. destruct l as [| y l]; simpl; [reflexivity |]. now destruct (snd x <=? snd y). Qed.

Lemma sort_ranked_empty (l : list (el * nat)) :
  hd_error (sort_ranked l) = None -> l = [].
Proof.
  destruct l as [| x r]; [reflexivity |]. simpl. rewrite hd_insert_ranked.
  destruct (hd_error (sort_ranked r)) as [y |]; [| discriminate].
  now destruct (snd x <=? snd y).
Qed.

(** The head of the sorted list is the first entry of least score. *)
Lemma sort_ranked_head (l : list (el * nat)) (h : el * nat) :
  hd_error (sort_ranked l) = Some h ->
  exists l1 l2,
    l = l1 ++ h :: l2 /\
    (forall y, In y l1 -> snd h < snd y) /\
    (forall y, In y l2 -> snd h <= snd y).
Proof.
  revert h; induction l as [| x r IH]; intros h; simpl; [discriminate |].
  rewrite hd_insert_ranked.
  destruct (hd_error (sort_ranked r)) as [y |] eqn:E.
  - destruct (IH y eq_refl) as (l1 & l2 & -> & H1 & H2).
    destruct (Nat.leb_spec (snd x) (snd y)) as [Hle | Hgt]; intros [= <-].
    + exists [], (l1 ++ y :: l2). split; [reflexivity |]. split; [intros ? [] |].
      intros z Hz. apply in_app_or in Hz as [Hz | [<- | Hz]].
      * specialize (H1 z Hz). lia.
      * exact Hle.
      * specialize (H2 z Hz). lia.
    + exists (x :: l1), l2. split; [reflexivity |]. split; [| exact H2].
      intros z [<- | Hz]; [exact Hgt | now apply H1].
  - intros [= <-]. apply sort_ranked_empty in E. subst r.
    exists [], []. split; [reflexivity |]. split; intros ? [].
Qed.

Lemma finite_scores_split (target : string) (cands : list el)
  (l1 l2 : list (el * nat)) (e : el) (s : nat) :
  finite_scores target cands = l1 ++ (e, s) :: l2 ->
  exists c1 c2,
    cands = c1 ++ e :: c2 /\ score target e = Some s /\
    finite_scores target c1 = l1 /\ finite_scores target c2 = l2.
Proof.
  revert l1; induction cands as [| c cands IH]; intros l1; simpl.
  - destruct l1; discriminate.
  - destruct (score target c) as [sc |] eqn:Ec.
    + destruct l1 as [| p l1]; simpl.
      * intros [= -> -> <-]. exists [], cands. simpl. now rewrite ?Ec.
      * intros [= <- H]. destruct (IH l1 H) as (c1 & c2 & -> & He & H1 & H2).
        exists (c :: c1), c2. simpl. rewrite Ec, H1. now repeat split.
    + intros H. destruct (IH l1 H) as (c1 & c2 & -> & He & H1 & H2).
      exists (c :: c1), c2. simpl. rewrite Ec. now repeat split.
Qed.

Lemma finite_scores_in (target : string) (cands : list el) (e : el) (s : nat) :
  In e cands -> score target e = Some s -> In (e, s) (finite_scores target cands).
Proof.
  induction cands as [| c cands IH]; simpl; [tauto |].
  intros [-> | Hin] Hs.
  - rewrite Hs. now left.
  - destruct (score target c); [right |]; now apply IH.
Qed.

Lemma finite_scores_none (target : string) (cands : list el) :
  finite_scores target cands = [] <->
  forall e, In e cands -> score target e = None.
Proof.
  split.
  - intros H e Hin. destruct (score target e) as [s |] eqn:Es; [| reflexivity].
    pose proof (finite_scores_in _ _ _ _ Hin Es) as Hi. now rewrite H in Hi.
  - induction cands as [| c cands IH]; simpl; [reflexivity |]. intros H.
    rewrite (H c (or_introl eq_refl)). apply IH. intros e He. apply H. now right.
Qed.

Lemma text_candidates_spec (d : dom) (e : el) :
  In e (text_candidates d) <->
  In e (querySelectorAll d TEXT_QUERY) /\ isInsideChatUi e = false.
Proof.
  unfold text_candidates. rewrite filter_In, negb_true_iff. tauto.
Qed.

Lemma findByText_some (d : dom) (text : string) (e : el) :
  findByText d text = Some e ->
  exists c1 c2 sc,
    text_candidates d = c1 ++ e :: c2 /\
    score (normalize text) e = Some sc /\
    (forall e' s', In e' c1 -> score (normalize text) e' = Some s' -> sc < s') /\
    (forall e' s', In e' c2 -> score (normalize text) e' = Some s' -> sc <= s').
Proof.
  unfold findByText. destruct (negb (nonempty (normalize text))); [discriminate |].
  destruct (hd_error _) as [[h s] |] eqn:E; [| discriminate]. intros [= <-].
  apply sort_ranked_head in E as (l1 & l2 & Hl & H1 & H2).
  apply finite_scores_split in Hl as (c1 & c2 & Hc & Hs & <- & <-).
  exists c1, c2, s. repeat split; trivial.
  - intros e' s' Hin Hs'. apply (H1 (e', s')). now apply finite_scores_in.
  - intros e' s' Hin Hs'. apply (H2 (e', s')). now apply finite_scores_in.
Qed.

Lemma findByText_none (d : dom) (text : string) :
  nonempty (normalize text) = true ->
  (findByText d text = None <->
   forall e, In e (text_candidates d) -> score (normalize text) e = None).
Proof.
  intros Hn. unfold findByText. rewrite Hn. simpl.
  rewrite <- finite_scores_none.
  destruct (hd_error _) as [h |] eqn:E; simpl.
  - split; [discriminate |]. intros H. rewrite H in E. discriminate.
  - split; [| reflexivity]. intros _. now apply sort_ranked_empty in E.
Qed.

(** C2.  For a hint that is not empty (white space apart, as the hints
    [findElement] passes are), the ranked search looks at the elements
    matching the fixed query that are not inside the chat interface; a candidate's score is the index of the
    first occurrence of the normalized hint in its composite string plus
    the length of the composite, a candidate without occurrence has none;
    the result is the first candidate of least score, and there is no
    result exactly when no candidate contains the hint.  For every hint,
    the result is never inside the chat interface. *)
Theorem ranked_text_search (d : dom) (text : string) :
  (forall e, findByText d text = Some e ->
             In e (querySelectorAll d TEXT_QUERY) /\ isInsideChatUi e = false) /\
  (nonempty (trim text) = true ->
   (forall e, In e (text_candidates d) <->
              In e (querySelectorAll d TEXT_QUERY) /\ isInsideChatUi e = false) /\
   (forall e, score (normalize text) e
              = match indexOf (composite e) (normalize text) with
                | Some index => Some (index + String.length (composite e))
                | None => None
                end) /\
   (forall e, findByText d text = Some e ->
      exists before after sc,
        text_candidates d = before ++ e :: after /\
        score (normalize text) e = Some sc /\
        (forall e' s', In e' before -> score (normalize text) e' = Some s' -> sc < s') /\
        (forall e' s', In e' after -> score (normalize text) e' = Some s' -> sc <= s')) /\
   (findByText d text = None <->
    forall e, In e (text_candidates d) ->
              includes (composite e) (normalize text) = false)).
Proof.
  split.
  - intros e H. apply findByText_some in H as (c1 & c2 & sc & Hc & _).
    apply text_candidates_spec. rewrite Hc. apply in_or_app. right. now left.
  - intros Hn. rewrite <- nonempty_normalize in Hn.
    split; [apply text_candidates_spec |]. split; [reflexivity |].
    split; [apply findByText_some |].
    rewrite (findByText_none d text Hn). unfold score, includes.
    split; intros H e He; specialize (H e He);
      now destruct (indexOf (composite e) (normalize text)).
Qed.

End SearchProperties.

Lemma ranked_text_search_witness :
  nonempty (trim "Assistant") = true /\
  findByText sample_page "Assistant" = None /\
  (forall e, In e (text_candidates sample_page) ->
             includes (composite e) (normalize "Assistant") = false) /\
  option_map el_id (findByText sample_page "Send  Message") = Some "contact".
Proof.
  destruct (@ranked_text_search IntegerNumbers sample_page "Assistant")
    as [_ Hrank].
  destruct (Hrank eq_refl) as (_ & _ & _ & Hnone).
  split; [reflexivity |]. split; [reflexivity |]. split; [| reflexivity].
  now apply Hnone.
Defined.

(** ** Filling fields *)

Lemma path_eqb_eq (p q : list nat) : path_eqb p q = true <-> p = q.
Proof.
  revert q; induction p as [| a p IH]; intros [| b q]; simpl;
    try (split; [discriminate | discriminate]); [tauto |].
  rewrite andb_true_iff, Nat.eqb_eq, IH. split.
  - now intros [-> ->].
  - now intros [= -> ->].
Qed.

Lemma path_eqb_refl (p : list nat) : path_eqb p p = true.
Proof. now apply path_eqb_eq. Qed.

Section FillProperties.
Context {JN : JsNumber} {BR : Browser}.

Lemma refused_or_stored (t : el) (v : string) :
  (refused t v = None /\ is_html_control t = false /\ stored t v = None) \/
  (exists kept, refused t v = None /\ is_html_control t = true /\
                set_value t v = Returned kept /\ stored t v = Some kept) \/
  (exists error, refused t v = Some error /\ is_html_control t = true /\
                 set_value t v = Threw error /\ stored t v = None).
Proof.
  unfold refused, stored. destruct (is_html_control t); [| now left].
  destruct (set_value t v) as [kept | error]; right; [left | right]; eauto.
Qed.

Lemma setFieldValue_refused (t : el) (v : string) (error : thrown) (d : dom) :
  refused t v = Some error -> setFieldValue t v d = (Threw error, d).
Proof.
  unfold refused, setFieldValue. destruct (is_html_control t); [| discriminate].
  destruct (set_value t v); [discriminate |]. now intros [= ->].
Qed.

Lemma setFieldValue_taken (t : el) (v : string) (d : dom) :
  refused t v = None ->
  exists d1, setFieldValue t v d = (Returned tt, d1).
Proof.
  unfold refused, setFieldValue. destruct (is_html_control t);
    [| intros _; now exists d].
  destruct (set_value t v); [| discriminate]. intros _. eexists. reflexivity.
Qed.

Lemma fillSingleField_found (call : ToolCall) (f v : string)
  (selector : option string) (d : dom) (t : el) :
  fill_target d f selector = Some t ->
  refused t v = None ->
  fillSingleField call f v selector d
  = (Returned (f ++ " updated")%string, after_fill t v d).
Proof.
  intros H Hr. unfold fillSingleField, read, gets, bind at 1. rewrite H.
  unfold after_fill. unfold bind at 1 3.
  destruct (setFieldValue_taken t v d Hr) as (d1 & E1). rewrite E1.
  unfold bind at 1.
  destruct (returns_addHighlight t d1) as ([] & d2 & E2 & _). now rewrite E2.
Qed.

Lemma fillSingleField_error (call : ToolCall) (f v : string)
  (selector : option string) (d : dom) (error : thrown) :
  entry_error selector d f v = Some error ->
  fillSingleField call f v selector d = (Threw error, d).
Proof.
  unfold entry_error, fillSingleField, read, gets, bind at 1.
  destruct (fill_target d f selector) as [t |].
  - intros H. unfold bind at 1. now rewrite (setFieldValue_refused t v error d H).
  - now intros [= <-].
Qed.

Lemma after_fill_refused (t : el) (v : string) (error : thrown) (d : dom) :
  refused t v = Some error -> after_fill t v d = d.
Proof.
  intros H. unfold after_fill, bind. now rewrite (setFieldValue_refused t v error d H).
Qed.

Lemma after_fill_value (t : el) (v : string) (d : dom) (q : list nat) :
  dom_value (after_fill t v d) q
  = match stored t v with
    | Some kept => if path_eqb q (el_path t) then Some kept else dom_value d q
    | None => dom_value d q
    end.
Proof.
  unfold after_fill, setFieldValue, stored. destruct (is_html_control t);
    [| reflexivity].
  destruct (set_value t v); reflexivity.
Qed.

Lemma after_fill_highlight (t : el) (v : string) (d : dom) :
  refused t v = None ->
  existsb (path_eqb (el_path t)) (dom_highlight (after_fill t v d)) = true.
Proof.
  intros Hr.
  assert (forall d0, existsb (path_eqb (el_path t))
                       (dom_highlight (snd (addHighlight t d0))) = true) as H.
  { intros d0. unfold addHighlight, add_class, log, bind. simpl.
    destruct (existsb (path_eqb (el_path t)) (dom_highlight d0)) eqn:E; [exact E |].
    rewrite existsb_app. simpl. now rewrite path_eqb_refl, orb_true_r. }
  unfold after_fill. unfold bind at 1.
  destruct (setFieldValue_taken t v d Hr) as (d1 & E1). rewrite E1.
  apply H.
Qed.

Lemma all_taken_cons (selector : option string) (f v : string)
  (rest : list (string * string)) (d : dom) :
  all_taken selector ((f, v) :: rest) d = true ->
  exists t, fill_target d f selector = Some t /\ refused t v = None /\
            all_taken selector rest (after_fill t v d) = true.
Proof.
  cbn [all_taken]. unfold entry_error.
  destruct (fill_target d f selector) as [t |]; [| discriminate].
  destruct (refused t v) eqn:Hr; [discriminate |]. intros H. now exists t.
Qed.

Lemma fill_entries_all (call : ToolCall) (selector : option string)
  (updates : list (string * string)) (outputs : list string) (d : dom) :
  all_taken selector updates d = true ->
  fill_entries call selector updates outputs d
  = (Returned
       (result call true
          ("Filled "
           ++ nat_to_string
                (List.length
                   (outputs ++ map (fun entry => fst entry ++ " updated") updates))
           ++ " field(s): "
           ++ join ", " (outputs ++ map (fun entry => fst entry ++ " updated") updates)
           ++ ".")%string),
     fill_all selector updates d).
Proof.
  revert outputs d; induction updates as [| [f v] rest IH]; intros outputs d.
  - intros _. simpl. now rewrite app_nil_r.
  - intros H. apply all_taken_cons in H as (t & E & Hr & H).
    cbn [fill_entries fill_all map]. rewrite E. unfold bind, attempt.
    rewrite (fillSingleField_found call f v selector d t E Hr).
    rewrite (IH (outputs ++ [(f ++ " updated")%string]) _ H).
    now rewrite <- app_assoc.
Qed.

Lemma fill_entries_stops (call : ToolCall) (selector : option string)
  (done rest : list (string * string)) (f v : string) (error : thrown)
  (outputs : list string) (d : dom) :
  all_taken selector done d = true ->
  entry_error selector (fill_all selector done d) f v = Some error ->
  fill_entries call selector (done ++ (f, v) :: rest) outputs d
  = (Returned (result call false (error_text error "Unknown field error.")),
     fill_all selector done d).
Proof.
  revert outputs d; induction done as [| [f0 v0] done IH]; intros outputs d.
  - intros _ H. cbn [app fill_entries fill_all] in *. unfold bind, attempt.
    now rewrite (fillSingleField_error call f v selector d error H).
  - intros Hall H. apply all_taken_cons in Hall as (t & E & Hr & Hall).
    cbn [app fill_entries fill_all] in *. rewrite E in *. unfold bind, attempt.
    rewrite (fillSingleField_found call f0 v0 selector d t E Hr).
    now apply IH.
Qed.

Lemma last_written_app (ws ws' : list (list nat * string)) (p : list nat)
  (current : option string) :
  last_written (ws ++ ws') p current
  = last_written ws' p (last_written ws p current).
Proof.
  revert current; induction ws as [| [q v] ws IH]; intros current; simpl;
    [reflexivity | apply IH].
Qed.

(** Every control holds what it kept of the last value written to it. *)
Lemma fill_all_values (selector : option string)
  (updates : list (string * string)) (d : dom) (p : list nat) :
  dom_value (fill_all selector updates d) p
  = last_written (writes selector updates d) p (dom_value d p).
Proof.
  revert d; induction updates as [| [f v] rest IH]; intros d; simpl; [reflexivity |].
  destruct (fill_target d f selector) as [t |]; [| apply IH].
  rewrite IH, last_written_app, after_fill_value.
  destruct (stored t v); simpl; reflexivity.
Qed.

Lemma last_written_final (before after : list (list nat * string))
  (p : list nat) (v : string) (current : option string) :
  (forall w, In w after -> fst w <> p) ->
  last_written (before ++ (p, v) :: after) p current = Some v.
Proof.
  intros H. rewrite last_written_app. simpl. rewrite path_eqb_refl.
  induction after as [| [q u] after IH]; simpl; [reflexivity |].
  destruct (path_eqb p q) eqn:E.
  - apply path_eqb_eq in E. exfalso. apply (H (q, u)); [now left | now rewrite E].
  - apply IH. intros w Hw. apply H. now right.
Qed.

(** C5.  [fill_input] with a [values] mapping that has string entries
    fills them in sequence.  The first entry that fails ends the action
    with a failed result: when its field settles on no element, the
    output names the field; when the element refuses the value (its
    setter throws), the output is the text of that error.  The page is
    then the one the entries before it left: every control holds what it
    kept of the last value written to it, so a value entered before the
    failure is still there (nothing is rolled back).  If every entry
    settles on an element that takes its value, the result is a success
    that reports each field as updated. *)
Theorem fill_values (call : ToolCall) (args values : list (string * jsval))
  (d : dom) :
  isObject (get_prop args "values") = Some values ->
  string_entries values <> [] ->
  let selector := readString args ["selector"] in
  let updates := string_entries values in
  (forall done f v rest,
     updates = done ++ (f, v) :: rest ->
     all_taken selector done d = true ->
     (fill_target (fill_all selector done d) f selector = None ->
      runFillInput call args d
      = (Returned (result call false (not_found_report f)),
         fill_all selector done d)) /\
     (forall t error,
        fill_target (fill_all selector done d) f selector = Some t ->
        refused t v = Some error ->
        runFillInput call args d
        = (Returned (result call false (error_text error "Unknown field error.")),
           fill_all selector done d)) /\
     (forall p, dom_value (fill_all selector done d) p
                = last_written (writes selector done d) p (dom_value d p)) /\
     (forall before after p kept,
        writes selector done d = before ++ (p, kept) :: after ->
        (forall w, In w after -> fst w <> p) ->
        dom_value (fill_all selector done d) p = Some kept)) /\
  (all_taken selector updates d = true ->
   runFillInput call args d
   = (Returned (result call true (filled_report updates)),
      fill_all selector updates d)).
Proof.
  intros Hv Hne selector updates.
  assert (runFillInput call args d = fill_entries call selector updates [] d) as Hrun.
  { unfold runFillInput. rewrite Hv. subst selector updates.
    destruct (string_entries values); [congruence | reflexivity]. }
  split.
  - intros done f v rest Hu Hall. split; [| split; [| split]].
    + intros Hf. rewrite Hrun, Hu.
      apply (fill_entries_stops call selector done rest f v
               (ErrorObj (not_found_report f)) [] d Hall).
      unfold entry_error. now rewrite Hf.
    + intros t error Hf Hr. rewrite Hrun, Hu.
      apply (fill_entries_stops call selector done rest f v error [] d Hall).
      unfold entry_error. now rewrite Hf.
    + intros p. apply fill_all_values.
    + intros before after p kept Hw Hafter.
      rewrite fill_all_values, Hw. now apply last_written_final.
  - intros Hall. rewrite Hrun, (fill_entries_all call selector updates [] d Hall).
    unfold filled_report. simpl app. now rewrite length_map.
Qed.

End FillProperties.

Lemma fill_values_witness :
  let values := [("name", JStr "Alex"); ("phone", JStr "555"); ("email", JStr "alex@test.com")] in
  let args := [("values", JObj values)] in
  let call := sample_call 1 "fill_input" args in
  fst (runFillInput call args sample_page)
  = Returned (result call false (not_found_report "phone")) /\
  dom_value (snd (runFillInput call args sample_page))
    (el_path (element_by_id sample_page "contact-name")) = Some "Alex" /\
  dom_value (snd (runFillInput call args sample_page))
    (el_path (element_by_id sample_page "contact-email")) = None.
Proof.
  intros values args call.
  destruct (fill_values call args values sample_page eq_refl
              ltac:(discriminate)) as [Hfail _].
  destruct (Hfail [("name", "Alex")] "phone" "555" [("email", "alex@test.com")]
              eq_refl eq_refl) as (Hrun & _ & Hlast & Hkeep).
  rewrite (Hrun eq_refl). split; [reflexivity |]. split.
  - apply (Hkeep [] [] _ "Alex"); [reflexivity | intros ? []].
  - simpl snd. rewrite Hlast. reflexivity.
Defined.

(** On a page whose form has a file input, an entry for it settles on
    that input, and the action fails all the same: the input refuses a
    file name. *)
Lemma resolved_yet_refused :
  let values := [("resume", JStr "cv.pdf")] in
  let args := [("values", JObj values)] in
  let call := sample_call 1 "fill_input" args in
  all_resolve None (string_entries values) upload_page = true /\
  fst (runFillInput call args upload_page)
  = Returned (result call false
                "Failed to set the 'value' property on 'HTMLInputElement': This input element accepts a filename, which may only be programmatically set to the empty string.").
Proof. vm_compute. split; reflexivity. Qed.

(** The e-mail field of the contact form keeps the address without the
    blanks around it, and the action reports the field as updated. *)
Example email_is_kept_trimmed :
  let values := [("email", JStr "  alex@test.com ")] in
  let args := [("values", JObj values)] in
  let call := sample_call 1 "fill_input" args in
  fst (runFillInput call args sample_page)
  = Returned (result call true "Filled 1 field(s): email updated.") /\
  dom_value (snd (runFillInput call args sample_page))
    (el_path (element_by_id sample_page "contact-email")) = Some "alex@test.com".
Proof. vm_compute. split; reflexivity. Qed.

(** ** Selectors and the chat interface *)

Section SelectorProperties.
Context {JN : JsNumber} {BR : Browser}.

Lemma readString_trimmed (args : list (string * jsval)) (keys : list string)
  (s : string) :
  readString args keys = Some s -> nonempty s = true /\ trim s = s.
Proof.
  induction keys as [| key keys IH]; simpl; [discriminate |].
  destruct (get_prop args key); try exact IH.
  destruct (nonempty (trim s0)) eqn:E; [| exact IH].
  intros [= <-]. split; [exact E | apply trim_idem].
Qed.

Lemma findElement_selector_only (d : dom) (selector : string) (e : el) :
  findElement d [("selector", JStr selector)] = Some e ->
  isInsideChatUi e = false.
Proof.
  unfold findElement. simpl.
  destruct (nonempty (trim selector)); [| discriminate].
  destruct (safeQuery d (trim selector)) as [found |]; [| discriminate].
  destruct (isInsideChatUi found) eqn:E; [discriminate |].
  simpl. now intros [= <-].
Qed.

(** C9.  [fill_input] with an explicit selector takes whatever the
    selector finds: when it finds a form control inside the chat
    interface, that control is written to and, unless its setter refuses
    the value, highlighted, and the action succeeds; the control then
    holds what it kept of the value.  A refusal is reported as a failed
    result on the unchanged page.  The resolution chain of click and
    highlight, given the same selector, discards that element and finds
    nothing. *)
Theorem fill_input_reaches_chat_ui (call : ToolCall)
  (args : list (string * jsval)) (d : dom) (selector value : string) (e : el) :
  readString args ["selector"] = Some selector ->
  isObject (get_prop args "values") = None ->
  readString args ["value"] = Some value ->
  safeQuery d selector = Some e ->
  isInsideChatUi e = true ->
  is_form_control e = true ->
  (refused e value = None ->
   (exists out,
      runFillInput call args d
      = (Returned (result call true out), after_fill e value d)) /\
   existsb (path_eqb (el_path e)) (dom_highlight (after_fill e value d)) = true) /\
  (forall kept,
     stored e value = Some kept ->
     dom_value (after_fill e value d) (el_path e) = Some kept) /\
  (forall error,
     refused e value = Some error ->
     runFillInput call args d
     = (Returned (result call false
                    (error_text error "Could not fill input field.")), d)) /\
  findElement d [("selector", JStr selector)] = None.
Proof.
  intros Hsel Hvalues Hvalue Hq Hchat Hctl.
  destruct (readString_trimmed _ _ _ Hsel) as [Hne Htrim].
  assert (forall f, fill_target d f (Some selector) = Some e) as Ht.
  { intros f. unfold fill_target. now rewrite Hne, Hq. }
  split; [| split; [| split]].
  - intros Hr. split; [| now apply after_fill_highlight].
    unfold runFillInput. rewrite Hvalues, Hsel. unfold fill_single.
    rewrite Hvalue. unfold bind, attempt.
    rewrite (fillSingleField_found call _ value (Some selector) d e (Ht _) Hr).
    eexists. reflexivity.
  - intros kept Hk. rewrite after_fill_value, Hk, path_eqb_refl. reflexivity.
  - intros error Hr.
    unfold runFillInput. rewrite Hvalues, Hsel. unfold fill_single.
    rewrite Hvalue. unfold bind, attempt.
    rewrite (fillSingleField_error call _ value (Some selector) d error);
      [reflexivity |].
    unfold entry_error. now rewrite Ht.
  - unfold findElement. simpl. rewrite Htrim, Hne, Hq, Hchat. reflexivity.
Qed.

End SelectorProperties.

Lemma fill_input_reaches_chat_ui_witness :
  let args := [("selector", JStr "#chat-input"); ("value", JStr "hello")] in
  let call := sample_call 1 "fill_input" args in
  let chat_input := element_by_id sample_page "chat-input" in
  isInsideChatUi chat_input = true /\
  fst (executeToolCall call sample_page)
  = Returned (result call true
                ("input updated with " ++ dq ++ "hello" ++ dq ++ ".")%string) /\
  dom_value (snd (executeToolCall call sample_page)) (el_path chat_input)
  = Some "hello" /\
  findElement sample_page [("selector", JStr "#chat-input")] = None.
Proof.
  intros args call chat_input.
  assert (safeQuery sample_page "#chat-input" = Some chat_input) as Hq
    by (vm_compute; reflexivity).
  assert (isInsideChatUi chat_input = true) as Hin by (vm_compute; reflexivity).
  assert (is_form_control chat_input = true) as Hctl by (vm_compute; reflexivity).
  destruct (fill_input_reaches_chat_ui call args sample_page "#chat-input" "hello"
              chat_input eq_refl eq_refl eq_refl Hq Hin Hctl)
    as (Htaken & Hvalue & _ & Hfind).
  destruct (Htaken eq_refl) as ((out & Hrun) & _).
  split; [exact Hin |].
  change (executeToolCall call sample_page) with (runFillInput call args sample_page).
  split; [vm_compute; reflexivity |].
  rewrite Hrun. split; [exact (Hvalue "hello" eq_refl) | exact Hfind].
Defined.

(** ** The conversation loop *)

Lemma last_n_length {A} (n : nat) (l : list A) :
  List.length (last_n n l) = Nat.min n (List.length l).
Proof. unfold last_n. rewrite length_skipn. lia. Qed.

Lemma last_n_all {A} (n : nat) (l : list A) :
  List.length l <= n -> last_n n l = l.
Proof.
  intros H. unfold last_n. replace (List.length l - n) with 0 by lia. reflexivity.
Qed.

Lemma last_n_app_short {A} (n : nat) (l t : list A) :
  List.length t <= n ->
  last_n n (l ++ t) = last_n (n - List.length t) l ++ t.
Proof.
  intros H. unfold last_n. rewrite length_app, skipn_app.
  replace (List.length l + List.length t - n - List.length l) with 0 by lia.
  simpl. f_equal. f_equal. lia.
Qed.

Lemma last_n_app_long {A} (n : nat) (l t : list A) :
  n <= List.length t -> last_n n (l ++ t) = last_n n t.
Proof.
  intros H. unfold last_n. rewrite length_app, skipn_app.
  rewrite skipn_all2 by lia. simpl. f_equal. lia.
Qed.

Lemma last_n_nested {A} (k n : nat) (l : list A) :
  k <= n -> last_n k (last_n n l) = last_n k l.
Proof.
  intros H. unfold last_n. rewrite skipn_skipn, length_skipn. f_equal. lia.
Qed.

Lemma last_n_last_n {A} (n : nat) (l t : list A) :
  last_n n (last_n n l ++ t) = last_n n (l ++ t).
Proof.
  destruct (Nat.le_gt_cases (List.length t) n) as [H | H].
  - rewrite !last_n_app_short by exact H. f_equal. apply last_n_nested. lia.
  - rewrite !last_n_app_long by lia. reflexivity.
Qed.

Section LoopProperties.
Context {JN : JsNumber} {BR : Browser} {NW : Network} {SV : Server}.

Lemma run_call_spec (call : ToolCall) (history : list ChatMessage) (s : session) :
  (exists r m s',
     run_call call history s
     = (Returned (r, last_n MAX_HISTORY (history ++ [m])), s') /\
     messages s' = last_n MAX_HISTORY (history ++ [m]) /\
     ran s' = ran s ++ [call] /\
     isBusy s' = isBusy s /\ posted s' = posted s /\
     role m = "tool") \/
  (exists e s',
     run_call call history s = (Threw e, s') /\
     messages s' = messages s /\
     ran s' = ran s ++ [call] /\
     isBusy s' = isBusy s /\ posted s' = posted s /\
     tc_name call = "click_element").
Proof.
  destruct (clicks_foreign call (page s)) eqn:Ec.
  - right. destruct (executeToolCall_throws call (page s) Ec)
      as (args & found & Hname & _ & _ & _ & E).
    unfold run_call, bind, modify, execute. simpl. rewrite E.
    eexists _, _. split; [reflexivity |]. simpl. repeat split. exact Hname.
  - left. destruct (executeToolCall_returns call (page s) Ec) as (r & d' & E & _).
    unfold run_call, bind, modify, execute, createMessage,
      append_message, ret. simpl. rewrite E. simpl.
    eexists r, _, _. split; [reflexivity |]. simpl. repeat split.
Qed.

Lemma run_calls_spec (calls : list ToolCall) (results : list ToolResult)
  (history : list ChatMessage) (s : session) :
  messages s = history ->
  List.length history <= MAX_HISTORY ->
  exists rs ms s' o,
    run_calls calls results history s = (o, s') /\
    messages s' = last_n MAX_HISTORY (history ++ ms) /\
    isBusy s' = isBusy s /\ posted s' = posted s /\
    List.length ms = List.length rs /\
    List.length rs <= List.length calls /\
    Forall (fun m => role m = "tool") ms /\
    ((o = Returned (results ++ rs, last_n MAX_HISTORY (history ++ ms)) /\
      ran s' = ran s ++ calls /\
      List.length rs = List.length calls) \/
     (exists e before call after,
        o = Threw e /\
        calls = before ++ call :: after /\
        ran s' = ran s ++ before ++ [call] /\
        List.length rs = List.length before /\
        tc_name call = "click_element")).
Proof.
  revert results history s; induction calls as [| call calls IH];
    intros results history s Hm Hlen; simpl.
  - exists [], [], s. eexists. split; [reflexivity |].
    rewrite !app_nil_r, (last_n_all _ _ Hlen). simpl.
    repeat split; trivial. left. now repeat split.
  - destruct (run_call_spec call history s)
      as [(r & m & s1 & E & Hm1 & Hran1 & Hbusy1 & Hposted1 & Hrole)
         | (e & s1 & E & Hm1 & Hran1 & Hbusy1 & Hposted1 & Hname)].
    + unfold bind. rewrite E. simpl fst. simpl snd.
      destruct (IH (results ++ [r]) _ s1 Hm1) as
        (rs & ms & s2 & o & E2 & Hm2 & Hbusy2 & Hposted2 & Hl1 & Hl2 & Hroles & Hcase).
      { rewrite last_n_length. unfold MAX_HISTORY. lia. }
      exists (r :: rs), (m :: ms), s2, o. rewrite E2.
      rewrite last_n_last_n in *. rewrite <- !app_assoc in *. simpl in *.
      split; [reflexivity |]. split; [exact Hm2 |].
      split; [congruence |]. split; [congruence |].
      split; [lia |]. split; [lia |]. split; [now constructor |].
      destruct Hcase as [(-> & Hran2 & Hl3)
                        | (e & before & c & after & -> & -> & Hran2 & Hl3 & Hname)].
      * left. split; [reflexivity |]. split; [| lia].
        rewrite Hran2, Hran1, <- app_assoc. reflexivity.
      * right. exists e, (call :: before), c, after.
        split; [reflexivity |]. split; [reflexivity |].
        split; [| split; [simpl; lia | exact Hname]].
        rewrite Hran2, Hran1, <- app_assoc. reflexivity.
    + unfold bind. rewrite E.
      exists [], [], s1. eexists. split; [reflexivity |].
      rewrite app_nil_r, (last_n_all _ _ Hlen). simpl.
      split; [congruence |]. split; [exact Hbusy1 |]. split; [exact Hposted1 |].
      split; [reflexivity |]. split; [lia |]. split; [constructor |].
      right. exists e, [], call, calls. now repeat split.
Qed.

Lemma bind_eq {S A B} (m : ST S A) (k : A -> ST S B) (s : S) :
  bind m k s
  = match m s with
    | (Returned a, s') => k a s'
    | (Threw e, s') => (Threw e, s')
    end.
Proof. reflexivity. Qed.

Lemma note_plan_spec (reply : ChatResponse) (history : list ChatMessage)
  (s : session) :
  messages s = history ->
  List.length history <= MAX_HISTORY ->
  exists appended s1,
    note_plan reply history s
    = (Returned (last_n MAX_HISTORY (history ++ appended)), s1) /\
    messages s1 = last_n MAX_HISTORY (history ++ appended) /\
    ran s1 = ran s /\ isBusy s1 = isBusy s /\
    List.length appended <= 1.
Proof.
  intros Hm Hlen. unfold note_plan.
  destruct (nonempty (trim (assistantMessage reply))).
  - eexists [_], _. split; [reflexivity |]. simpl. repeat split; lia.
  - exists [], s. rewrite app_nil_r, (last_n_all _ _ Hlen). unfold ret. simpl.
    repeat split; trivial; lia.
Qed.

Lemma act_spec (message : string) (reply : ChatResponse)
  (history : list ChatMessage) (s : session) (r : outcome unit) (s' : session) :
  messages s = history ->
  List.length history <= MAX_HISTORY ->
  act message reply history s = (r, s') ->
  exists appended executed,
    messages s' = last_n MAX_HISTORY (history ++ appended) /\
    ran s' = ran s ++ executed /\
    isBusy s' = isBusy s /\
    List.length appended <= 4 /\
    (executed = [] \/
     exists calls,
       toolCalls reply = Some calls /\
       awaitingToolResults reply = true /\
       executed_of calls executed r).
Proof.
  intros Hm Hlen. unfold act.
  set (calls := match toolCalls reply with
                | Some l => firstn MAX_TOOL_CALLS_PER_TURN l
                | None => []
                end).
  assert (List.length calls <= 3) as Hcalls.
  { unfold calls. destruct (toolCalls reply); [apply firstn_le_length | simpl; lia]. }
  destruct (awaitingToolResults reply && (0 <? List.length calls)) eqn:Eaw.
  - apply andb_true_iff in Eaw as [Haw Hpos].
    assert (exists l, toolCalls reply = Some l /\ calls = firstn MAX_TOOL_CALLS_PER_TURN l)
      as (l & Hl & Hcl).
    { unfold calls in *. destruct (toolCalls reply) as [l |]; [now exists l |].
      discriminate. }
    rewrite bind_eq.
    destruct (run_calls_spec calls [] history s Hm Hlen)
      as (rs & ms & s1 & o & E & Hm1 & Hbusy1 & _ & Hms & Hrs & _ & Hcase).
    rewrite E.
    destruct Hcase as [(-> & Hran1 & _)
                      | (e & before & call & after & -> & Hsplit & Hran1 & _ & Hname)].
    2: { intros [= <- <-]. exists ms, (before ++ [call]).
         split; [exact Hm1 |]. split; [exact Hran1 |]. split; [exact Hbusy1 |].
         split; [lia |]. right. exists l. split; [exact Hl |]. split; [exact Haw |].
         right. exists e, before, call, after. rewrite <- Hcl. auto. }
    simpl fst. simpl snd.
    rewrite bind_eq. unfold take_snapshot at 1.
    assert (forall appended s2 (r0 : outcome unit),
              messages s2 = last_n MAX_HISTORY (last_n MAX_HISTORY (history ++ ms) ++ appended) ->
              ran s2 = ran s1 -> isBusy s2 = isBusy s1 ->
              List.length appended <= 1 ->
              (r0, s2) = (r, s') ->
              exists appended0 executed,
                messages s' = last_n MAX_HISTORY (history ++ appended0) /\
                ran s' = ran s ++ executed /\
                isBusy s' = isBusy s /\
                List.length appended0 <= 4 /\
                (executed = [] \/
                 exists calls0,
                   toolCalls reply = Some calls0 /\
                   awaitingToolResults reply = true /\
                   executed_of calls0 executed r)) as Hdone.
    { intros appended s2 r0 H1 H2 H3 H4 [= <- <-].
      exists (ms ++ appended), calls. rewrite last_n_last_n, <- app_assoc in H1.
      repeat split; try congruence.
      - rewrite length_app. lia.
      - right. exists l. split; [exact Hl |]. split; [exact Haw |]. now left. }
    destruct (extractPageSnapshot (clock s1) (page s1)) as [snap | e].
    2: { intros Heq. refine (Hdone [] _ _ _ _ _ _ Heq); simpl; trivial; [| lia].
         rewrite app_nil_r, last_n_all; [exact Hm1 |].
         rewrite last_n_length. unfold MAX_HISTORY. lia. }
    rewrite bind_eq. unfold post at 1.
    destruct (postChat _ _) as [final | e].
    2: { intros Heq. refine (Hdone [] _ _ _ _ _ _ Heq); simpl; trivial; [| lia].
         rewrite app_nil_r, last_n_all; [exact Hm1 |].
         rewrite last_n_length. unfold MAX_HISTORY. lia. }
    intros Heq. unfold bind, createMessage, append_message, ret in Heq.
    simpl in Heq.
    refine (Hdone [_] _ _ _ _ _ _ Heq); simpl; trivial.
  - destruct (negb (nonempty (trim (assistantMessage reply)))).
    + intros [= <- <-]. eexists [_], []. simpl. rewrite app_nil_r.
      split; [reflexivity |]. auto 10.
    + intros [= <- <-]. exists [], []. simpl.
      rewrite !app_nil_r, (last_n_all _ _ Hlen). auto 10.
Qed.

Lemma turn_spec (message : string) (history : list ChatMessage) (s : session)
  (r : outcome unit) (s' : session) :
  messages s = history ->
  List.length history <= MAX_HISTORY ->
  turn message history s = (r, s') ->
  exists appended executed,
    messages s' = last_n MAX_HISTORY (history ++ appended) /\
    ran s' = ran s ++ executed /\
    isBusy s' = isBusy s /\
    List.length appended <= 5 /\
    (executed = [] \/
     exists snap reply calls,
       extractPageSnapshot (clock s) (page s) = Returned snap /\
       postChat (posted s)
         {| cr_message := message; cr_history := history; pageSnapshot := snap;
            toolResults := None |} = Returned reply /\
       toolCalls reply = Some calls /\
       awaitingToolResults reply = true /\
       executed_of calls executed r).
Proof.
  intros Hm Hlen. unfold turn. rewrite bind_eq. unfold take_snapshot at 1.
  destruct (extractPageSnapshot (clock s) (page s)) as [snap | e] eqn:Esnap.
  2: { intros [= <- <-]. exists [], []. simpl.
       rewrite !app_nil_r, (last_n_all _ _ Hlen). auto 10. }
  rewrite bind_eq. unfold post at 1. simpl posted.
  destruct (postChat (posted s) _) as [reply | e] eqn:Epost.
  2: { intros [= <- <-]. exists [], []. simpl.
       rewrite !app_nil_r, (last_n_all _ _ Hlen). auto 10. }
  rewrite bind_eq.
  destruct (note_plan_spec reply history (count_post (tick s)) Hm Hlen)
    as (planned & s1 & E & Hm1 & Hran1 & Hbusy1 & Hl1).
  rewrite E. intros Hact.
  apply act_spec in Hact as (appended & executed & Hm2 & Hran2 & Hbusy2 & Hl2 & Hex);
    [| exact Hm1 | rewrite last_n_length; unfold MAX_HISTORY; lia].
  exists (planned ++ appended), executed.
  rewrite last_n_last_n, <- app_assoc in Hm2.
  simpl in Hran1, Hbusy1.
  split; [exact Hm2 |]. split; [congruence |]. split; [congruence |].
  split; [rewrite length_app; lia |].
  destruct Hex as [-> | (calls & Hc & Haw & Hex)]; [now left |].
  right. exists snap, reply, calls. auto.
Qed.

Lemma executed_of_prefix (calls executed : list ToolCall) (r : outcome unit) :
  executed_of calls executed r ->
  exists rest,
    firstn MAX_TOOL_CALLS_PER_TURN calls = executed ++ rest /\
    (rest = [] \/
     exists e before call,
       r = Threw e /\ executed = before ++ [call] /\
       tc_name call = "click_element").
Proof.
  intros [-> | (e & before & call & after & -> & Hsplit & -> & Hname)].
  - exists []. rewrite app_nil_r. auto.
  - exists after. rewrite <- app_assoc. split; [exact Hsplit |].
    right. exists e, before, call. auto.
Qed.

Lemma runConversation_started (raw : string) (s : session) :
  nonempty (trim raw) = true -> isBusy s = false ->
  runConversation raw s
  = set_busy false
      (match turn (trim raw) (fst (begin_turn (trim raw) s))
               (snd (begin_turn (trim raw) s)) with
       | (Returned _, s3) => s3
       | (Threw error, s3) => snd (on_error error s3)
       end).
Proof.
  intros Hne Hbusy. unfold runConversation. now rewrite Hne, Hbusy.
Qed.

Lemma begin_turn_spec (raw : string) (s : session) :
  let history := fst (begin_turn (trim raw) s) in
  let s2 := snd (begin_turn (trim raw) s) in
  history = last_n MAX_HISTORY (messages s ++ [user_entry raw s]) /\
  messages s2 = history /\ List.length history <= MAX_HISTORY /\
  ran s2 = ran s /\ page s2 = page s /\ posted s2 = posted s /\
  clock s2 = S (clock s).
Proof.
  simpl. repeat split. rewrite last_n_length. lia.
Qed.

(** C4.  In a turn at most 3 action requests are executed, whatever the
    planning response holds.  The server keeps the first 3 of the tool
    calls it recognizes in the planning response; the client executes
    requests of the reply in order, starting with the first and going no
    further than the third: all of the first 3, or none, or, when a
    click throws, those up to and including that click.  What lies
    beyond is neither executed nor kept for later, since what a turn
    executes comes from the reply of that turn alone. *)
Theorem at_most_three_actions :
  (forall parts,
     extractToolCalls parts
     = firstn MAX_TOOL_CALLS_PER_TURN (collect_calls parts []) /\
     List.length (extractToolCalls parts) <= 3) /\
  (forall raw s,
     exists executed,
       ran (runConversation raw s) = ran s ++ executed /\
       List.length executed <= 3 /\
       (executed = [] \/
        exists snap reply calls rest,
          postChat (posted s) (planning_request raw s snap) = Returned reply /\
          toolCalls reply = Some calls /\
          awaitingToolResults reply = true /\
          firstn MAX_TOOL_CALLS_PER_TURN calls = executed ++ rest /\
          (rest = [] \/
           exists before call,
             executed = before ++ [call] /\ tc_name call = "click_element"))).
Proof.
  split.
  - intros parts. split; [reflexivity | apply firstn_le_length].
  - intros raw s.
    destruct (negb (nonempty (trim raw)) || isBusy s) eqn:Eguard.
    { exists []. unfold runConversation. rewrite Eguard, app_nil_r.
      split; [reflexivity |]. split; [simpl; lia | now left]. }
    apply orb_false_iff in Eguard as [Hne Hbusy]. apply negb_false_iff in Hne.
    rewrite (runConversation_started raw s Hne Hbusy).
    destruct (begin_turn_spec raw s)
      as (Hh & Hm2 & Hlen & Hran2 & Hpage2 & Hposted2 & Hclock2).
    destruct (turn (trim raw) _ _) as [r s3] eqn:Eturn.
    apply turn_spec in Eturn
      as (appended & executed & _ & Hran3 & _ & _ & Hex); trivial.
    exists executed.
    assert (ran (set_busy false
                   match r with
                   | Returned _ => s3
                   | Threw error => snd (on_error error s3)
                   end) = ran s ++ executed) as ->.
    { destruct r; simpl; congruence. }
    split; [reflexivity |].
    destruct Hex as [-> | (snap & reply & calls & Hsnap & Hpost & Hc & Haw & Hex)].
    + split; [simpl; lia | now left].
    + apply executed_of_prefix in Hex as (rest & Hsplit & Hrest).
      split.
      { assert (List.length (executed ++ rest) <= 3) as Hl
          by (rewrite <- Hsplit; apply firstn_le_length).
        rewrite length_app in Hl. lia. }
      right. exists snap, reply, calls, rest.
      rewrite Hposted2, Hh in Hpost.
      split; [exact Hpost |]. split; [exact Hc |]. split; [exact Haw |].
      split; [exact Hsplit |].
      destruct Hrest as [-> | (e & before & call & _ & -> & Hname)]; [now left |].
      right. exists before, call. auto.
Qed.

(** C6.  When the planning call of a turn fails, the turn ends with one
    failure message appended that carries the error text: the history is
    what it was, the user message and the failure message, cut to the
    last 18 entries, so the user message is still there, right before
    the failure message; the busy flag is cleared, so a new turn is
    accepted; no action was executed.  The same holds wherever the round
    throws: the entries appended before (the planning text, the tool
    results) stay, followed by the one failure message. *)
Theorem planning_failure_keeps_history (raw : string) (s : session) :
  nonempty (trim raw) = true ->
  isBusy s = false ->
  (forall snap e,
     extractPageSnapshot (S (clock s)) (page s) = Returned snap ->
     postChat (posted s) (planning_request raw s snap) = Threw e ->
     let failure := failure_entry e (now_iso (S (S (clock s)))) in
     messages (runConversation raw s)
     = last_n MAX_HISTORY (messages s ++ [user_entry raw s; failure]) /\
     (exists older,
        messages (runConversation raw s) = older ++ [user_entry raw s; failure]) /\
     isBusy (runConversation raw s) = false /\
     ran (runConversation raw s) = ran s /\
     page (runConversation raw s) = page s) /\
  (forall e s3,
     turn (trim raw) (fst (begin_turn (trim raw) s))
       (snd (begin_turn (trim raw) s)) = (Threw e, s3) ->
     exists appended,
       List.length appended <= 5 /\
       messages (runConversation raw s)
       = last_n MAX_HISTORY
           (messages s
            ++ user_entry raw s :: appended
            ++ [failure_entry e (now_iso (clock s3))]) /\
       isBusy (runConversation raw s) = false).
Proof.
  intros Hne Hbusy. rewrite (runConversation_started raw s Hne Hbusy).
  destruct (begin_turn_spec raw s)
    as (Hh & Hm2 & Hlen & Hran2 & Hpage2 & Hposted2 & Hclock2).
  split.
  - intros snap e Hsnap Hpost failure.
    assert (turn (trim raw) (fst (begin_turn (trim raw) s))
              (snd (begin_turn (trim raw) s))
            = (Threw e, count_post (tick (snd (begin_turn (trim raw) s))))) as ->.
    { unfold turn. rewrite bind_eq. unfold take_snapshot at 1.
      rewrite Hclock2, Hpage2, Hsnap, bind_eq. unfold post at 1.
      simpl posted. rewrite Hh. unfold planning_request in Hpost.
      now rewrite Hpost. }
    assert (messages
              (set_busy false
                 (snd (on_error e
                         (count_post (tick (snd (begin_turn (trim raw) s)))))))
            = last_n MAX_HISTORY (messages s ++ [user_entry raw s; failure])) as Hm.
    { simpl. fold (user_entry raw s).
      change (last_n MAX_HISTORY
                (last_n MAX_HISTORY (messages s ++ [user_entry raw s]) ++ [failure])
              = last_n MAX_HISTORY (messages s ++ [user_entry raw s; failure])).
      rewrite last_n_last_n, <- app_assoc. reflexivity. }
    split; [exact Hm |]. split; [| now repeat split].
    rewrite Hm. exists (last_n (MAX_HISTORY - 2) (messages s)).
    now rewrite (last_n_app_short MAX_HISTORY (messages s)
                   [user_entry raw s; failure]) by (simpl; unfold MAX_HISTORY; lia).
  - intros e s3 Hturn. rewrite Hturn.
    apply turn_spec in Hturn
      as (appended & executed & Hm3 & _ & _ & Hl & _); trivial.
    exists appended. split; [exact Hl |]. split; [| reflexivity].
    simpl. rewrite Hm3, Hh.
    fold (failure_entry e (now_iso (clock s3))).
    rewrite last_n_last_n, <- app_assoc, last_n_last_n, <- app_assoc.
    reflexivity.
Qed.

End LoopProperties.

(** ** Examples on the sample page *)

Lemma snapshot_bounds_witness :
  extractPageSnapshot 0 long_page = Returned (snapshot_at 0 long_page) /\
  (List.length (sections (snapshot_at 0 long_page)) <= 12 /\
   List.length (elements (snapshot_at 0 long_page)) <= 160 /\
   exists root,
     snapshot_root long_page = Some root /\
     Forall2 section_shows (listed_sections long_page root)
       (sections (snapshot_at 0 long_page))) /\
  map (fun sd => (String.length (heading sd), String.length (textPreview sd)))
      (sections (snapshot_at 0 long_page))
  = [(80, 260); (5, 17)].
Proof.
  assert (extractPageSnapshot 0 long_page = Returned (snapshot_at 0 long_page))
    as H by (vm_compute; reflexivity).
  split; [exact H |]. split; [| vm_compute; reflexivity].
  exact (snapshot_bounds 0 long_page (snapshot_at 0 long_page) H).
Defined.

(** The heading and the preview of the long section, cut. *)
Example long_section_is_cut :
  option_map (fun sd => (heading sd, textPreview sd))
    (hd_error (sections (snapshot_at 0 long_page)))
  = Some
      (("Shipping reliable products " ++ "Shipping reliable products "
        ++ "Shipping reliable produ...")%string,
       (slice0 257 (times 9 "Shipping reliable products "
                    ++ times 30 "lorem ipsum ") ++ "...")%string).
Proof. vm_compute. reflexivity. Qed.



Lemma service_receives_slim_snapshot_witness :
  gemini_request (Some "key") (body_with (numbered 10 ++ [JStr "left out"]))
  = gemini_request (Some "key")
      (body_with (numbered 10 ++ [JStr "also left out"; JStr "and this"])).
Proof.
  destruct (@service_receives_slim_snapshot IntegerNumbers SampleServer)
    as (_ & Hsame & _).
  eapply Hsame; reflexivity.
Defined.

Lemma planning_failure_keeps_history_witness :
  let s := fresh_session sample_page in
  let raw := "Take me to contact section." in
  let failure :=
    {| role := "assistant";
       content := "I couldn't complete that request. Failed to fetch";
       createdAt := "T2" |} in
  messages (@runConversation IntegerNumbers SmallBrowser unreachable raw s)
  = [ {| role := "user"; content := raw; createdAt := "T0" |}; failure ] /\
  isBusy (@runConversation IntegerNumbers SmallBrowser unreachable raw s) = false.
Proof.
  intros s raw failure.
  destruct (@planning_failure_keeps_history IntegerNumbers SmallBrowser unreachable
              raw s eq_refl eq_refl) as [H _].
  assert (extractPageSnapshot (S (clock s)) (page s)
          = Returned (snapshot_at 1 sample_page)) as Hsnap
    by (vm_compute; reflexivity).
  destruct (H (snapshot_at 1 sample_page) (ErrorObj "Failed to fetch") Hsnap eq_refl)
    as (Hm & _ & Hbusy & _).
  split; [| exact Hbusy]. rewrite Hm. reflexivity.
Defined.

(** Five requests in the reply: the first three are executed. *)
Example eager_reply_runs_three :
  map tc_id (ran (@runConversation IntegerNumbers SmallBrowser eager
                    "Show me everything." (fresh_session sample_page)))
  = ["call-1"; "call-2"; "call-3"].
Proof. vm_compute. reflexivity. Qed.

(** * Further properties of the code *)

(** ** Reading arguments *)

Section ArgumentProperties.
Context {JN : JsNumber} {BR : Browser}.

(** X1.  [readString] returns the trimmed value of the first of the
    keys that holds a string which is not blank, and nothing when no key
    does; what it returns is never empty and has no white space at its
    ends. *)
Theorem readString_first_text (args : list (string * jsval)) (keys : list string) :
  (forall s,
     readString args keys = Some s <->
     exists before key after v,
       keys = before ++ key :: after /\
       (forall k, In k before -> holds_text args k = false) /\
       get_prop args key = JStr v /\ nonempty (trim v) = true /\ s = trim v) /\
  (readString args keys = None <->
   forall k, In k keys -> holds_text args k = false) /\
  (forall s, readString args keys = Some s -> nonempty s = true /\ trim s = s).
Proof.
  split; [| split].
  - intros s. induction keys as [| key keys IH]; simpl.
    + split; [discriminate |]. intros (before & k & after & v & H & _).
      destruct before; discriminate.
    + destruct (get_prop args key) as [| | b0 | x0 | v | items | fields] eqn:E;
        try (rewrite IH; split;
             [ intros (before & k & after & v' & -> & Hb & Hk);
               exists (key :: before), k, after, v'; split; [reflexivity |];
               split; [| exact Hk];
               intros k' [<- | Hin]; [unfold holds_text; now rewrite E | now apply Hb]
             | intros (before & k & after & v' & Hkeys & Hb & Hk & Hrest);
               destruct before as [| b before];
               [ injection Hkeys as <- <-; rewrite E in Hk; discriminate
               | injection Hkeys as <- ->; exists before, k, after, v';
                 split; [reflexivity |]; split; [| now split];
                 intros k' Hin; apply Hb; now right ] ]).
      destruct (nonempty (trim v)) eqn:Ev.
      * split.
        -- intros [= <-]. exists [], key, keys, v. simpl. repeat split; trivial.
           intros k [].
        -- intros (before & k & after & v' & Hkeys & Hb & Hk & Hne & ->).
           destruct before as [| b before].
           ++ injection Hkeys as <- <-. rewrite E in Hk. now injection Hk as <-.
           ++ injection Hkeys as <- ->.
              specialize (Hb key (or_introl eq_refl)). unfold holds_text in Hb.
              rewrite E, Ev in Hb. discriminate.
      * rewrite IH. split.
        -- intros (before & k & after & v' & -> & Hb & Hk).
           exists (key :: before), k, after, v'. split; [reflexivity |].
           split; [| exact Hk].
           intros k' [<- | Hin]; [unfold holds_text; now rewrite E | now apply Hb].
        -- intros (before & k & after & v' & Hkeys & Hb & Hk & Hne & ->).
           destruct before as [| b before].
           ++ injection Hkeys as <- <-. rewrite E in Hk. injection Hk as <-.
              congruence.
           ++ injection Hkeys as <- ->. exists before, k, after, v'.
              split; [reflexivity |]. split; [| now repeat split].
              intros k' Hin. apply Hb. now right.
  - induction keys as [| key keys IH]; simpl.
    + split; [intros _ k [] | reflexivity].
    + unfold holds_text at 1.
      destruct (get_prop args key) as [| | b0 | x0 | v | items | fields] eqn:E;
        try (rewrite IH; split;
             [ intros H k [<- | Hin]; [unfold holds_text; now rewrite E | now apply H]
             | intros H k Hin; apply H; now right ]).
      destruct (nonempty (trim v)) eqn:Ev.
      * split; [discriminate |]. intros H.
        specialize (H key (or_introl eq_refl)). unfold holds_text in H.
        rewrite E, Ev in H. discriminate.
      * rewrite IH. split.
        -- intros H k [<- | Hin]; [unfold holds_text; now rewrite E, Ev | now apply H].
        -- intros H k Hin. apply H. now right.
  - intros s. apply readString_trimmed.
Qed.

Lemma readNumber_head (args : list (string * jsval)) (key : string)
  (keys : list string) :
  readNumber args (key :: keys)
  = match holds_number args key with
    | Some x => Some x
    | None => readNumber args keys
    end.
Proof.
  simpl. unfold holds_number. destruct (get_prop args key); try reflexivity.
  - now destruct (num_isFinite x).
  - now destruct (nonempty (trim s) && num_isFinite (num_of_string s)).
Qed.

Lemma holds_number_finite (args : list (string * jsval)) (key : string)
  (x : number) :
  holds_number args key = Some x -> num_isFinite x = true.
Proof.
  unfold holds_number. destruct (get_prop args key); try discriminate.
  - destruct (num_isFinite x0) eqn:E; [| discriminate]. now intros [= <-].
  - destruct (nonempty (trim s)); simpl; [| discriminate].
    destruct (num_isFinite (num_of_string s)) eqn:E; [| discriminate].
    now intros [= <-].
Qed.

(** X2.  [readNumber] returns a finite number only: the number under
    the first of the keys that holds a finite number or a non-blank
    string converting to one; [NaN], the infinities and blank strings are
    passed over, and with no such key the result is nothing. *)
Theorem readNumber_finite (args : list (string * jsval)) (keys : list string) :
  (forall x, readNumber args keys = Some x ->
             num_isFinite x = true /\
             exists before key after,
               keys = before ++ key :: after /\
               (forall k, In k before -> holds_number args k = None) /\
               holds_number args key = Some x) /\
  (readNumber args keys = None <->
   forall k, In k keys -> holds_number args k = None).
Proof.
  split.
  - induction keys as [| key keys IH]; intros x; [discriminate |].
    rewrite readNumber_head. destruct (holds_number args key) as [y |] eqn:E.
    + intros [= <-]. split; [now apply (holds_number_finite args key) |].
      exists [], key, keys. repeat split; trivial. intros k [].
    + intros H. destruct (IH x H) as (Hf & before & k & after & -> & Hb & Hk).
      split; [exact Hf |]. exists (key :: before), k, after.
      repeat split; trivial. intros k' [<- | Hin]; [exact E | now apply Hb].
  - induction keys as [| key keys IH]; [split; [intros _ k [] | reflexivity] |].
    rewrite readNumber_head. destruct (holds_number args key) as [y |] eqn:E.
    + split; [discriminate |]. intros H.
      rewrite (H key (or_introl eq_refl)) in E. discriminate.
    + rewrite IH. split.
      * intros H k [<- | Hin]; [exact E | now apply H].
      * intros H k Hin. apply H. now right.
Qed.

End ArgumentProperties.

(** ** What resolution can return *)

Section ResolutionProperties.
Context {JN : JsNumber} {BR : Browser}.

Lemma getElementById_some (d : dom) (id : string) (e : el) :
  getElementById d id = Some e ->
  In e (all_elements d) /\ getAttribute e "id" = Some id /\ nonempty id = true.
Proof.
  unfold getElementById. destruct (nonempty id); [| discriminate].
  intros H. apply find_some in H as [Hin Hid]. repeat split; trivial.
  destruct (getAttribute e "id") as [v |]; [| discriminate].
  apply String.eqb_eq in Hid. now subst.
Qed.

Lemma alias_scan_sound (d : dom) (n : string)
  (table : list (string * list string)) (e : el) :
  alias_scan d n table = Some e ->
  exists id aliases,
    In (id, aliases) table /\ names_section n (id, aliases) = true /\
    getElementById d id = Some e.
Proof.
  induction table as [| [id aliases] table IH]; simpl; [discriminate |].
  destruct (existsb (fun alias => includes n alias) aliases) eqn:E.
  - destruct (getElementById d id) as [c |] eqn:Ec.
    + intros [= <-]. exists id, aliases. repeat split; auto.
    + intros H. destruct (IH H) as (i & a & Hin & Hrest). exists i, a. auto.
  - intros H. destruct (IH H) as (i & a & Hin & Hrest). exists i, a. auto.
Qed.

(** X3.  Whatever [resolveSectionFromHint] returns is an element of the
    document found in one of three ways: its identifier is the
    normalized hint; or it is the element of a canonical section one of
    whose aliases stands in the normalized hint; or it is a section with
    an identifier whose identifier and heading contain the normalized
    hint.  A hint that normalizes to nothing (blank, or "#" alone)
    resolves to nothing. *)
Theorem resolveSectionFromHint_sound (d : dom) (hint : string) :
  let n := strip_hash (normalize hint) in
  (nonempty n = false -> resolveSectionFromHint d hint = None) /\
  (forall e,
     resolveSectionFromHint d hint = Some e ->
     nonempty n = true /\ In e (all_elements d) /\
     (getAttribute e "id" = Some n \/
      (exists id aliases,
         In (id, aliases) SECTION_ALIASES /\ names_section n (id, aliases) = true /\
         getAttribute e "id" = Some id) \/
      (matches SECTION_WITH_ID e = true /\
       includes (normalize (el_id e ++ " " ++ section_heading_text e)) n = true))).
Proof.
  intros n. unfold resolveSectionFromHint. fold n. split.
  - now intros ->.
  - intros e. destruct (nonempty n); [| discriminate]. cbn [negb].
    destruct (getElementById d n) as [direct |] eqn:Ed.
    + intros [= <-]. apply getElementById_some in Ed as (Hin & Hid & _).
      repeat split; auto.
    + destruct (alias_scan d n SECTION_ALIASES) as [c |] eqn:Ea.
      * intros [= <-]. apply alias_scan_sound in Ea as (id & al & Hin & Hn & Hg).
        apply getElementById_some in Hg as (Hine & Hid & _).
        repeat split; trivial. right; left. exists id, al. auto.
      * destruct (filter _ _) as [| section rest] eqn:Ef; [discriminate |].
        intros [= <-].
        assert (In section (section :: rest)) as Hin by now left.
        rewrite <- Ef in Hin. apply filter_In in Hin as [Hq Hinc].
        apply filter_In in Hq as [Hall Hm]. repeat split; auto.
Qed.

Lemma normalize_starts_clean (s : string) : starts_clean (normalize s) = true.
Proof.
  unfold normalize, trim. apply starts_clean_trimEnd, starts_clean_trimStart.
Qed.

Lemma starts_clean_collapse (s : string) :
  starts_clean s = true -> starts_clean (collapse_from false s) = true.
Proof.
  destruct s as [| c s]; [reflexivity |]. simpl.
  destruct (is_space c) eqn:E; [discriminate |]. intros _. simpl. now rewrite E.
Qed.

Lemma starts_clean_lower (s : string) :
  starts_clean (toLowerCase s) = starts_clean s.
Proof. destruct s as [| c s]; simpl; [reflexivity | now rewrite is_space_lower]. Qed.

(** A normalized identifier stays as it is behind a '#'. *)
Lemma normalize_fragment (x : string) :
  normalize x = x -> nonempty x = true ->
  normalize ("#" ++ x) = ("#" ++ x)%string.
Proof.
  intros Hx Hne.
  assert (starts_clean x = true) as Hs by (rewrite <- Hx; apply normalize_starts_clean).
  unfold normalize, trim, collapse in *. simpl.
  rewrite (trimStart_clean (collapse_from false (toLowerCase x))) in Hx
    by (apply starts_clean_collapse; now rewrite starts_clean_lower).
  now rewrite Hx.
Qed.

(** X4.  The fragment that [navigate_to_section] writes leads back to
    the section: for an element that its own identifier finds and whose
    identifier is in normalized form, the hint "#" followed by the
    identifier resolves to that element, as a click on an in-page anchor
    with that reference does. *)
Theorem fragment_resolves_back (d : dom) (e : el) :
  getElementById d (el_id e) = Some e ->
  normalize (el_id e) = el_id e ->
  resolveSectionFromHint d ("#" ++ el_id e) = Some e.
Proof.
  intros Hg Hn.
  destruct (getElementById_some d (el_id e) e Hg) as (_ & _ & Hne).
  unfold resolveSectionFromHint. rewrite (normalize_fragment _ Hn Hne).
  simpl strip_hash. now rewrite Hne, Hg.
Qed.

(** X5.  Whatever [findProjectCardByHint] returns is one of the project
    cards of the document; without cards it returns nothing, for every
    hint. *)
Theorem findProjectCardByHint_sound (d : dom) (hint : string) :
  (querySelectorAll d PROJECT_CARD = [] -> findProjectCardByHint d hint = None) /\
  (forall e, findProjectCardByHint d hint = Some e ->
             In e (querySelectorAll d PROJECT_CARD) /\
             hasAttribute e "data-project-card" = true).
Proof.
  split.
  - intros H. unfold findProjectCardByHint. now rewrite H.
  - intros e H.
    assert (In e (querySelectorAll d PROJECT_CARD)) as Hin.
    { unfold findProjectCardByHint in H.
      destruct (querySelectorAll d PROJECT_CARD) as [| card rest]; [discriminate |].
      set (cards := card :: rest) in *.
      destruct (_ || _).
      - destruct (find (order_text_is "1") cards) eqn:Ef; injection H as <-;
          [now apply find_some in Ef | now left].
      - assert (forall o, find (fun c =>
                   includes (normalize match projectTitle c with
                                       | Some t => t
                                       | None => textContent c
                                       end) (normalize hint)) cards = Some o ->
                          In o cards) as Htitle
          by (intros o Ho; now apply find_some in Ho).
        destruct (parseOrdinal (normalize hint)) as [k |]; [| now apply Htitle].
        destruct (_ && _); [| now apply Htitle].
        destruct (find (order_is k) cards) eqn:Ef.
        + injection H as <-. now apply find_some in Ef.
        + now apply nth_error_In in H. }
    split; [exact Hin |].
    unfold querySelectorAll in Hin. apply filter_In in Hin as [_ Hm].
    unfold matches, sel_matches, PROJECT_CARD in Hm. simpl in Hm.
    rewrite orb_false_r in Hm. exact Hm.
Qed.

(** X6.  What [findInputByFieldName] returns is an input or a textarea
    outside the chat interface, one of whose name, identifier,
    placeholder and aria-label contains the normalized field name; so
    [fill_input] without a selector never fills a control of the chat
    interface. *)
Theorem findInputByFieldName_sound (d : dom) (fieldName : string) (e : el) :
  fill_target d fieldName None = Some e ->
  findInputByFieldName d fieldName = Some e /\
  In e (all_elements d) /\
  is_form_control e = true /\
  isInsideChatUi e = false /\
  exists attr, In attr (field_attrs e) /\ includes attr (normalize fieldName) = true.
Proof.
  unfold fill_target. intros H. split; [exact H |].
  unfold findInputByFieldName in H. apply find_some in H as [Hin Hc].
  apply filter_In in Hin as [Hall Hm].
  apply andb_true_iff in Hc as [Hchat Hattr].
  apply negb_true_iff in Hchat. apply existsb_exists in Hattr.
  repeat split; trivial.
  unfold matches, sel_matches, INPUT_OR_TEXTAREA in Hm. simpl in Hm.
  rewrite orb_false_r in Hm. exact Hm.
Qed.

(** X7.  [chooseLinkFromProjectCard] returns a link of the card, and
    nothing exactly when the card has no link; for a hint that mentions
    "github" it returns a link whose text mentions github whenever the
    card has one. *)
Theorem chooseLinkFromProjectCard_sound (card : el) (hint : option string) :
  (chooseLinkFromProjectCard card hint = None <->
   querySelectorAll_in card ANCHOR = []) /\
  (forall link, chooseLinkFromProjectCard card hint = Some link ->
                In link (querySelectorAll_in card ANCHOR)) /\
  (forall link h,
     hint = Some h -> mentions h "github" = true ->
     chooseLinkFromProjectCard card hint = Some link ->
     (exists l, In l (querySelectorAll_in card ANCHOR) /\
                link_text_includes "github" l = true) ->
     link_text_includes "github" link = true).
Proof.
  unfold chooseLinkFromProjectCard.
  destruct (querySelectorAll_in card ANCHOR) as [| first_link rest] eqn:El.
  - split; [tauto |]. split; [discriminate |]. intros; discriminate.
  - set (links := first_link :: rest).
    set (nh := normalize match hint with Some h => h | None => "" end).
    assert (forall w, exists l,
              match find (link_text_includes w) links with
              | Some l => Some l
              | None => Some first_link
              end = Some l /\ In l links /\
              ((exists l', In l' links /\ link_text_includes w l' = true) ->
               link_text_includes w l = true)) as Hfind.
    { intros w. destruct (find (link_text_includes w) links) as [l |] eqn:Ef.
      - exists l. apply find_some in Ef as [Hin Hw]. repeat split; trivial.
      - exists first_link. repeat split; [now left |].
        intros (l' & Hl' & Hw). apply (find_none _ _ Ef) in Hl'. congruence. }
    split; [| split].
    + split; [| discriminate].
      destruct (includes nh "github");
        [destruct (Hfind "github") as (l & -> & _); discriminate |].
      destruct (_ || _); [| discriminate].
      destruct (Hfind "live") as (l & -> & _); discriminate.
    + intros link. destruct (includes nh "github").
      { destruct (Hfind "github") as (l & -> & Hin & _). now intros [= <-]. }
      destruct (_ || _).
      { destruct (Hfind "live") as (l & -> & Hin & _). now intros [= <-]. }
      intros [= <-]. now left.
    + intros link h -> Hm. unfold mentions in Hm. subst nh. rewrite Hm.
      destruct (Hfind "github") as (l & -> & _ & Hgit).
      intros [= <-] Hex. now apply Hgit.
Qed.

End ResolutionProperties.

Lemma fragment_resolves_back_witness :
  resolveSectionFromHint sample_page "#contact"
  = Some (element_by_id sample_page "contact").
Proof.
  apply (@fragment_resolves_back IntegerNumbers sample_page
           (element_by_id sample_page "contact")); vm_compute; reflexivity.
Defined.

Lemma findInputByFieldName_sound_witness :
  option_map el_id (findInputByFieldName sample_page "Email") = Some "contact-email" /\
  isInsideChatUi (element_by_id sample_page "contact-email") = false.
Proof.
  destruct (@findInputByFieldName_sound IntegerNumbers SmallBrowser sample_page "Email"
              (element_by_id sample_page "contact-email"))
    as (Hf & _ & _ & Hchat & _); [vm_compute; reflexivity |].
  split; [now rewrite Hf | exact Hchat].
Defined.

(** ** What an action changes *)

Section Frame.
Context {JN : JsNumber} {BR : Browser}.
Variable R : dom -> dom -> Prop.
Hypothesis R_refl : forall d, R d d.
Hypothesis R_trans : forall a b c, R a b -> R b c -> R a c.
Hypothesis R_log : forall e, direct e = true -> preserves R (log e).
Hypothesis R_highlight : forall e, preserves R (addHighlight e).

Lemma preserves_ret {A} (a : A) : preserves R (ret a).
Proof. intros d. apply R_refl. Qed.

Lemma preserves_bind {A B} (m : M A) (k : A -> M B) :
  preserves R m -> (forall a, preserves R (k a)) -> preserves R (bind m k).
Proof.
  intros Hm Hk d. unfold bind. specialize (Hm d).
  destruct (m d) as [[a | e] d1]; simpl in *; [| exact Hm].
  eapply R_trans; [exact Hm | apply Hk].
Qed.

Lemma preserves_read {A} (f : dom -> A) : preserves R (read f).
Proof. intros d. apply R_refl. Qed.

Lemma preserves_attempt {A} (m : M A) : preserves R m -> preserves R (attempt m).
Proof. intros H d. unfold attempt. specialize (H d). now destruct (m d). Qed.

Lemma preserves_runScrollBy (call : ToolCall) (args : list (string * jsval)) :
  preserves R (runScrollBy call args).
Proof.
  unfold runScrollBy. destruct (readNumber args _); [| apply preserves_ret].
  apply preserves_bind; [apply R_log; reflexivity | intros; apply preserves_ret].
Qed.

Lemma preserves_runHighlightElement (call : ToolCall)
  (args : list (string * jsval)) :
  preserves R (runHighlightElement call args).
Proof.
  unfold runHighlightElement. apply preserves_bind; [apply preserves_read |].
  intros [target |]; [| apply preserves_ret].
  apply preserves_bind; [apply R_log; reflexivity |]. intros _.
  apply preserves_bind; [apply R_highlight |]. intros _.
  apply preserves_ret.
Qed.

Lemma preserves_runNavigateToSection (call : ToolCall)
  (args : list (string * jsval)) :
  (forall u, preserves R (replaceState u)) ->
  preserves R (runNavigateToSection call args).
Proof.
  intros Hrep. unfold runNavigateToSection.
  destruct (readString args _); [| apply preserves_ret].
  apply preserves_bind; [apply preserves_read |].
  intros [target |]; [| apply preserves_ret].
  apply preserves_bind; [apply R_log; reflexivity |]. intros _.
  apply preserves_bind.
  { destruct (nonempty (el_id target)); [apply Hrep | apply preserves_ret]. }
  intros _. apply preserves_bind; [apply R_highlight |]. intros _.
  apply preserves_ret.
Qed.

Lemma preserves_click (target : el) :
  (forall p, preserves R (log (EClick p))) -> preserves R (click target).
Proof.
  intros Hclk. unfold click. destruct (html_element target); [apply Hclk |].
  intros d. apply R_refl.
Qed.

Lemma preserves_click_on (call : ToolCall) (target : el) :
  (forall u, preserves R (replaceState u)) ->
  (forall p, preserves R (log (EClick p))) ->
  preserves R (click_on call target).
Proof.
  intros Hrep Hclk. unfold click_on.
  apply preserves_bind; [apply R_log; reflexivity |]. intros _.
  apply preserves_bind; [apply R_highlight |]. intros _.
  destruct (disabled_button target); [apply preserves_ret |].
  assert (preserves R
            (bind (click target)
               (fun _ => ret (result call true
                                ("Clicked " ++ describeElement target ++ ".")%string))))
    as Hclick
    by (apply preserves_bind; [now apply preserves_click | intros; apply preserves_ret]).
  destruct (html_anchor target && _); [| exact Hclick].
  apply preserves_bind; [apply preserves_read |].
  intros [section |]; [| exact Hclick].
  apply preserves_bind; [apply R_log; reflexivity |]. intros _.
  apply preserves_bind; [apply R_highlight |]. intros _.
  apply preserves_bind; [apply Hrep |]. intros _. apply preserves_ret.
Qed.

Lemma preserves_runClickElement (call : ToolCall) (args : list (string * jsval)) :
  (forall u, preserves R (replaceState u)) ->
  (forall p, preserves R (log (EClick p))) ->
  preserves R (runClickElement call args).
Proof.
  intros Hrep Hclk. unfold runClickElement.
  apply preserves_bind; [apply preserves_read |].
  intros [found |]; [| apply preserves_ret].
  now apply preserves_click_on.
Qed.

Lemma preserves_setFieldValue (target : el) (v : string) :
  (forall p x, preserves R (write_value p x)) ->
  preserves R (setFieldValue target v).
Proof.
  intros Hw. unfold setFieldValue.
  destruct (is_html_control target); [| apply preserves_ret].
  destruct (set_value target v) as [kept | error]; [| intros d; apply R_refl].
  apply preserves_bind; [apply Hw |]. intros _.
  apply preserves_bind; [apply R_log; reflexivity |]. intros _.
  apply preserves_bind; [apply R_log; reflexivity |]. intros _.
  apply R_log. reflexivity.
Qed.

Lemma preserves_fillSingleField (call : ToolCall) (f v : string)
  (selector : option string) :
  (forall p x, preserves R (write_value p x)) ->
  preserves R (fillSingleField call f v selector).
Proof.
  intros Hw. unfold fillSingleField.
  apply preserves_bind; [apply preserves_read |].
  intros [target |]; [| intros d; apply R_refl].
  apply preserves_bind; [now apply preserves_setFieldValue |].
  intros _. apply preserves_bind; [apply R_highlight |]. intros _.
  apply preserves_ret.
Qed.

Lemma preserves_runFillInput (call : ToolCall) (args : list (string * jsval)) :
  (forall p x, preserves R (write_value p x)) ->
  preserves R (runFillInput call args).
Proof.
  intros Hw.
  assert (forall selector, preserves R (fill_single call args selector)) as Hsingle.
  { intros selector. unfold fill_single.
    destruct (readString args ["value"]); [| apply preserves_ret].
    apply preserves_bind;
      [apply preserves_attempt, preserves_fillSingleField, Hw |].
    intros [out | e]; apply preserves_ret. }
  assert (forall selector updates outputs,
            preserves R (fill_entries call selector updates outputs)) as Hentries.
  { intros selector updates.
    induction updates as [| [f v] rest IH]; intros outputs; simpl;
      [apply preserves_ret |].
    apply preserves_bind;
      [apply preserves_attempt, preserves_fillSingleField, Hw |].
    intros [out | e]; [apply IH | apply preserves_ret]. }
  unfold runFillInput. destruct (isObject _); [| apply Hsingle].
  destruct (string_entries _); [apply Hsingle | apply Hentries].
Qed.

Lemma preserves_executeToolCall (call : ToolCall) :
  (tc_name call = "navigate_to_section" \/ tc_name call = "click_element" ->
   forall u, preserves R (replaceState u)) ->
  (tc_name call = "fill_input" -> forall p x, preserves R (write_value p x)) ->
  (tc_name call = "click_element" -> forall p, preserves R (log (EClick p))) ->
  preserves R (executeToolCall call).
Proof.
  intros Hrep Hw Hclk. unfold executeToolCall.
  destruct (isObject (tc_args call)) as [args |]; [| apply preserves_ret].
  destruct (String.eqb_spec (tc_name call) "scroll_by");
    [apply preserves_runScrollBy |].
  destruct (String.eqb_spec (tc_name call) "navigate_to_section");
    [apply preserves_runNavigateToSection; auto |].
  destruct (String.eqb_spec (tc_name call) "click_element");
    [apply preserves_runClickElement; auto |].
  destruct (String.eqb_spec (tc_name call) "highlight_element");
    [apply preserves_runHighlightElement |].
  destruct (String.eqb_spec (tc_name call) "fill_input");
    [apply preserves_runFillInput; auto | apply preserves_ret].
Qed.

End Frame.

Section FailedActions.
Context {JN : JsNumber} {BR : Browser}.

Ltac run_through E :=
  unfold bind, read, gets, ret, scrollIntoView, addHighlight, add_class, log,
    replaceState in E;
  cbn [fst snd] in E.

(** X9.  A scroll, a navigation or a highlight that reports failure, and
    any request with an unknown name or without an argument object, has
    done nothing: the page, its log included, is exactly as before. *)
Theorem failed_action_changes_nothing (call : ToolCall) (d : dom)
  (r : ToolResult) (d' : dom) :
  executeToolCall call d = (Returned r, d') ->
  success r = false ->
  String.eqb (tc_name call) "click_element" = false ->
  String.eqb (tc_name call) "fill_input" = false ->
  d' = d.
Proof.
  intros E Hfail Hclick Hfill. unfold executeToolCall in E.
  rewrite Hclick, Hfill in E.
  destruct (isObject (tc_args call)) as [args |];
    [| injection E as _ <-; reflexivity].
  destruct (String.eqb (tc_name call) "scroll_by").
  { unfold runScrollBy in E. destruct (readNumber args _).
    - run_through E. injection E as <- _. discriminate Hfail.
    - injection E as _ <-. reflexivity. }
  destruct (String.eqb (tc_name call) "navigate_to_section").
  { unfold runNavigateToSection in E.
    destruct (readString args _) as [hint |];
      [| injection E as _ <-; reflexivity].
    run_through E.
    destruct (resolveSectionFromHint d hint) as [target |];
      [| injection E as _ <-; reflexivity].
    destruct (nonempty (el_id target)); cbn in E;
      injection E as <- _; discriminate Hfail. }
  destruct (String.eqb (tc_name call) "highlight_element").
  { unfold runHighlightElement in E. run_through E.
    destruct (findElement d args) as [target |];
      [| injection E as _ <-; reflexivity].
    cbn in E. injection E as <- _. discriminate Hfail. }
  injection E as _ <-. reflexivity.
Qed.

End FailedActions.

Lemma failed_action_changes_nothing_witness :
  snd (@executeToolCall IntegerNumbers SmallBrowser
         (sample_call 1 "navigate_to_section" [("sectionId", JStr "pricing")])
         sample_page)
  = sample_page.
Proof.
  apply (@failed_action_changes_nothing IntegerNumbers SmallBrowser
           (sample_call 1 "navigate_to_section" [("sectionId", JStr "pricing")])
           sample_page
           (result (sample_call 1 "navigate_to_section"
                      [("sectionId", JStr "pricing")])
                   false ("Section " ++ dq ++ "pricing" ++ dq ++ " was not found.")%string)).
  - vm_compute. reflexivity.
  - reflexivity.
  - reflexivity.
  - reflexivity.
Defined.

Section ClickProperties.
Context {JN : JsNumber} {BR : Browser}.

Lemma without_click_refl (d : dom) : without_click d d.
Proof. exists []. now rewrite app_nil_r. Qed.

Lemma without_click_trans (a b c : dom) :
  without_click a b -> without_click b c -> without_click a c.
Proof.
  intros (m & Hm & Hq) (m' & Hm' & Hq'). exists (m ++ m'). split.
  - now rewrite Hm', Hm, app_assoc.
  - now rewrite forallb_app, Hq, Hq'.
Qed.

Lemma without_click_log (e : effect) :
  is_click e = false -> preserves without_click (log e).
Proof.
  intros He d. exists [e]. split; [reflexivity |]. simpl. now rewrite He.
Qed.

Lemma without_click_direct (e : effect) :
  direct e = true -> preserves without_click (log e).
Proof. intros He. apply without_click_log. now destruct e. Qed.


Lemma without_click_replaceState (u : string) :
  preserves without_click (replaceState u).
Proof. intros d. now exists [EReplaceState u]. Qed.

Lemma without_click_write_value (p : list nat) (x : string) :
  preserves without_click (write_value p x).
Proof. intros d. exists []. simpl. now rewrite app_nil_r. Qed.

Lemma without_click_addHighlight (e : el) :
  preserves without_click (addHighlight e).
Proof. intros d. now exists [EHighlightTimer (el_path e) 2600]. Qed.

Lemma without_click_no_click (d d' : dom) (more : list effect) (p : list nat) :
  without_click d d' -> dom_log d' = dom_log d ++ more ->
  In (EClick p) more -> False.
Proof.
  intros (m & Hm & Hq) Hmore Hin. rewrite Hm in Hmore.
  apply app_inv_head in Hmore. subst m.
  rewrite forallb_forall in Hq. specialize (Hq _ Hin). discriminate Hq.
Qed.

Lemma careful_quiet (call : ToolCall) (target : el) (m : M ToolResult) :
  preserves without_click m -> careful call target m.
Proof.
  intros H d. destruct (H d) as (more & Hmore & Hq). exists more.
  split; [exact Hmore |]. intros p Hin. exfalso.
  apply (without_click_no_click d (snd (m d)) more p (H d) Hmore Hin).
Qed.

Lemma careful_bind {A} (call : ToolCall) (target : el) (m : M A)
  (k : A -> M ToolResult) :
  returns m (fun _ => True) -> preserves without_click m ->
  (forall a, careful call target (k a)) -> careful call target (bind m k).
Proof.
  intros Hret Hm Hk d. destruct (Hret d) as (a & s' & E & _).
  specialize (Hm d). unfold bind. rewrite E in *. cbn [snd] in Hm.
  destruct (Hk a s') as (more & Hmore & Hin).
  destruct Hm as (m0 & Hm0 & Hq). exists (m0 ++ more). split.
  - now rewrite Hmore, Hm0, app_assoc.
  - intros p Hp. apply in_app_or in Hp. destruct Hp as [Hp | Hp]; [| auto].
    rewrite forallb_forall in Hq. specialize (Hq _ Hp). discriminate Hq.
Qed.

Lemma careful_click (call : ToolCall) (target : el) :
  disabled_button target = false ->
  careful call target
    (bind (click target)
       (fun _ => ret (result call true
                        ("Clicked " ++ describeElement target ++ ".")%string))).
Proof.
  intros Hen d. unfold click. destruct (html_element target) eqn:Hhtml.
  - exists [EClick (el_path target)]. split; [reflexivity |].
    intros p [Hp | []]. injection Hp as <-. auto.
  - exists []. split; [simpl; now rewrite app_nil_r | intros p []].
Qed.

Lemma click_on_careful (call : ToolCall) (target : el) :
  careful call target (click_on call target).
Proof.
  unfold click_on.
  apply careful_bind;
    [apply returns_scrollIntoView | apply without_click_log; reflexivity |].
  intros _.
  apply careful_bind;
    [apply returns_addHighlight | apply without_click_addHighlight |].
  intros _.
  destruct (disabled_button target) eqn:Hdis;
    [apply careful_quiet; intro; apply without_click_refl |].
  destruct (html_anchor target && _);
    [| apply careful_click; exact Hdis].
  apply careful_bind; [apply returns_gets | intro; apply without_click_refl |].
  intros [section |]; [| apply careful_click; exact Hdis].
  apply careful_quiet.
  apply (preserves_bind without_click without_click_trans);
    [apply without_click_log; reflexivity |]. intros _.
  apply (preserves_bind without_click without_click_trans);
    [apply without_click_addHighlight |]. intros _.
  apply (preserves_bind without_click without_click_trans);
    [apply without_click_replaceState |]. intros _ s. apply without_click_refl.
Qed.

Lemma runClickElement_eq (call : ToolCall) (args : list (string * jsval))
  (d : dom) :
  runClickElement call args d
  = match findElement d args with
    | Some found => click_on call (click_target found args) d
    | None => (Returned (result call false "Could not find an element to click."), d)
    end.
Proof.
  unfold runClickElement, bind, read, gets.
  now destruct (findElement d args).
Qed.

(** X10.  Clicks are deliberate.  Whatever the request, the effects it
    adds to the log contain a click only if the request is a
    [click_element] with an argument object, and then the click is on
    the element the request settles on (the element [findElement]
    returns for its arguments, or the link chosen from it when it is a
    project card), that element is an HTML element and not a disabled
    button, and the result reports success with the text "Clicked ..."
    describing it: no other action clicks, and a failed [click_element]
    has clicked nothing. *)
Theorem clicks_are_deliberate (call : ToolCall) (d : dom) :
  exists more,
    dom_log (snd (executeToolCall call d)) = dom_log d ++ more /\
    forall p, In (EClick p) more ->
      tc_name call = "click_element" /\
      exists args found,
        isObject (tc_args call) = Some args /\
        findElement d args = Some found /\
        p = el_path (click_target found args) /\
        disabled_button (click_target found args) = false /\
        html_element (click_target found args) = true /\
        fst (executeToolCall call d)
        = Returned (result call true
                      ("Clicked " ++ describeElement (click_target found args)
                       ++ ".")%string).
Proof.
  destruct (String.eqb_spec (tc_name call) "click_element") as [Hname | Hname].
  - unfold executeToolCall. rewrite Hname. cbn [String.eqb Ascii.eqb Bool.eqb].
    destruct (isObject (tc_args call)) as [args |];
      [| exists []; split; [simpl; now rewrite app_nil_r | intros p []]].
    rewrite runClickElement_eq.
    destruct (findElement d args) as [found |] eqn:Ef;
      [| exists []; split; [simpl; now rewrite app_nil_r | intros p []]].
    destruct (click_on_careful call (click_target found args) d)
      as (more & Hmore & Hin).
    exists more. split; [exact Hmore |]. intros p Hp. split; [reflexivity |].
    exists args, found. split; [reflexivity |]. split; [exact Ef |].
    destruct (Hin p Hp) as (H1 & H2 & H3 & H4).
    split; [exact H1 |]. split; [exact H2 |]. split; [exact H3 |]. exact H4.
  - assert (without_click d (snd (executeToolCall call d))) as H.
    { apply (preserves_executeToolCall without_click without_click_refl
               without_click_trans without_click_direct without_click_addHighlight).
      - intros _. apply without_click_replaceState.
      - intros _. apply without_click_write_value.
      - contradiction. }
    destruct H as (more & Hmore & Hq). exists more. split; [exact Hmore |].
    intros p Hp. exfalso.
    apply (without_click_no_click d (snd (executeToolCall call d)) more p);
      [exists more; split; assumption | exact Hmore | exact Hp].
Qed.

End ClickProperties.

Section HighlightProperties.
Context {JN : JsNumber} {BR : Browser}.

Lemma timed_refl (d : dom) : timed d d.
Proof.
  exists []. rewrite app_nil_r. split; [reflexivity |]. split; [auto |].
  split; [auto |]. intros p ms [].
Qed.

Lemma timed_trans (a b c : dom) : timed a b -> timed b c -> timed a c.
Proof.
  intros (m & Hm & Hup & Hnew & Ht) (m' & Hm' & Hup' & Hnew' & Ht').
  exists (m ++ m'). split; [now rewrite Hm', Hm, app_assoc |].
  split; [auto |]. split.
  - intros p Hp. destruct (Hnew' p Hp) as [Hb | Hin].
    + destruct (Hnew p Hb) as [Ha | Hin]; [now left |].
      right. apply in_or_app. now left.
    + right. apply in_or_app. now right.
  - intros p ms Hin. apply in_app_or in Hin as [Hin | Hin].
    + destruct (Ht p ms Hin) as [-> Hb]. auto.
    + apply Ht', Hin.
Qed.

Lemma timed_log (e : effect) : direct e = true -> preserves timed (log e).
Proof.
  intros He d. exists [e]. split; [reflexivity |]. split; [auto |].
  split; [auto |]. intros q ms [H | []]. subst e. discriminate He.
Qed.

Lemma timed_replaceState (u : string) : preserves timed (replaceState u).
Proof.
  intros d. exists [EReplaceState u]. split; [reflexivity |]. split; [auto |].
  split; [auto |]. intros q ms [H | []]. discriminate H.
Qed.

Lemma timed_write_value (p : list nat) (x : string) :
  preserves timed (write_value p x).
Proof.
  intros d. exists []. split; [simpl; now rewrite app_nil_r |]. split; [auto |].
  split; [auto |]. intros q ms [].
Qed.

Lemma timed_addHighlight (e : el) : preserves timed (addHighlight e).
Proof.
  intros d. exists [EHighlightTimer (el_path e) 2600].
  unfold addHighlight, add_class, log, bind, highlighted.
  cbn [fst snd dom_log dom_highlight]. split; [reflexivity |].
  destruct (existsb (path_eqb (el_path e)) (dom_highlight d)) eqn:E.
  - split; [auto |]. split; [auto |].
    intros p ms [[= <- <-] | []]. auto.
  - split; [intros p Hp; rewrite existsb_app, Hp; reflexivity |]. split.
    + intros p Hp. rewrite existsb_app in Hp. apply orb_true_iff in Hp as [Hp | Hp];
        [now left |]. simpl in Hp. rewrite orb_false_r in Hp.
      apply path_eqb_eq in Hp as ->. right. now left.
    + intros p ms [[= <- <-] | []]. split; [reflexivity |].
      rewrite existsb_app. simpl. rewrite path_eqb_refl. now rewrite orb_true_r.
Qed.

Lemma timed_click (p : list nat) : preserves timed (log (EClick p)).
Proof.
  intros d. exists [EClick p]. split; [reflexivity |]. split; [auto |].
  split; [auto |]. intros q ms [H | []]. discriminate H.
Qed.

(** X11.  No highlight is left on for good.  Whatever the request, an
    action takes no highlight away, every element it newly highlights
    has a timer of 2600 ms for the removal among the effects the action
    added, and it starts such a timer for highlighted elements only. *)
Theorem highlights_are_timed (call : ToolCall) (d : dom) :
  exists more,
    dom_log (snd (executeToolCall call d)) = dom_log d ++ more /\
    (forall p, highlighted d p = true ->
               highlighted (snd (executeToolCall call d)) p = true) /\
    (forall p, highlighted (snd (executeToolCall call d)) p = true ->
               highlighted d p = true \/ In (EHighlightTimer p 2600) more) /\
    (forall p ms, In (EHighlightTimer p ms) more ->
                  ms = 2600 /\ highlighted (snd (executeToolCall call d)) p = true).
Proof.
  apply (preserves_executeToolCall timed timed_refl timed_trans timed_log
           timed_addHighlight call).
  - intros _. apply timed_replaceState.
  - intros _. apply timed_write_value.
  - intros _. apply timed_click.
Qed.

End HighlightProperties.

(** ** The snapshot *)

Section SnapshotElements.
Context {JN : JsNumber} {BR : Browser}.

Lemma In_firstn {A} (n : nat) (l : list A) (x : A) : In x (firstn n l) -> In x l.
Proof.
  intros H. rewrite <- (firstn_skipn n l). apply in_or_app. now left.
Qed.

Lemma map_outcome_in {A B} (f : A -> outcome B) (l : list A) (ys : list B) (y : B) :
  map_outcome f l = Returned ys -> In y ys ->
  exists x, In x l /\ f x = Returned y.
Proof.
  revert ys; induction l as [| x l IH]; intros ys; simpl.
  - intros [= <-] [].
  - destruct (f x) as [y0 |] eqn:E; [| discriminate].
    destruct (map_outcome f l) as [ys0 |]; [| discriminate].
    intros [= <-] [<- | Hin].
    + exists x. auto.
    + destruct (IH ys0 eq_refl Hin) as (x' & Hx & Hf). exists x'. auto.
Qed.

Lemma map_outcome_threw {A B} (f : A -> outcome B) (l : list A) (e : thrown) :
  map_outcome f l = Threw e -> exists x, In x l /\ f x = Threw e.
Proof.
  induction l as [| x l IH]; simpl; [discriminate |].
  destruct (f x) as [y |] eqn:E.
  - destruct (map_outcome f l) as [ys |]; [discriminate |].
    intros [= <-]. destruct (IH eq_refl) as (x' & Hx & Hf). exists x'. auto.
  - intros [= <-]. exists x. auto.
Qed.

Lemma map_outcome_Forall2 {A B} (f : A -> outcome B) (l : list A) (ys : list B) :
  map_outcome f l = Returned ys -> Forall2 (fun x y => f x = Returned y) l ys.
Proof.
  revert ys; induction l as [| x l IH]; intros ys; simpl.
  - intros [= <-]. constructor.
  - destruct (f x) as [y0 |] eqn:E; [| discriminate].
    destruct (map_outcome f l) as [ys0 |]; [| discriminate].
    intros [= <-]. constructor; [exact E | now apply IH].
Qed.

Lemma element_of_shows (d : dom) (element : el) (e : ElementData) :
  element_of d element = Returned e -> element_shows d element e.
Proof.
  unfold element_of, element_shows, text_source, name_source.
  destruct (buildSelector d element); [| discriminate].
  intros [= <-]. simpl.
  repeat split; try (apply normalizeText_cut; lia).
Qed.

(** X12.  The elements of a captured snapshot are those of the first
    160 listed, visible elements under the root, in order.  Each carries
    the selector built for its element and its tag in lower case, and
    shows its text and its reference within 120 characters, its label
    and its input name within 80 and its input type within 40: the
    source with its white space collapsed when that fits, and otherwise
    cut and ended with the ellipsis so that its length is the limit.
    The snapshot carries the location and the title of the page as they
    are and the time of the capture. *)
Theorem snapshot_elements_clipped (tick : nat) (d : dom) (snap : PageSnapshot) :
  extractPageSnapshot tick d = Returned snap ->
  url snap = dom_href d /\ title snap = dom_title d /\
  capturedAt snap = now_iso tick /\
  exists root,
    snapshot_root d = Some root /\
    Forall2 (element_shows d) (listed_elements d root) (elements snap).
Proof.
  unfold extractPageSnapshot, snapshot_root.
  destruct (match hd_error (querySelectorAll d PORTFOLIO_ROOT) with
            | Some r => Some r
            | None => document_body d
            end) as [root |]; [| discriminate].
  destruct (collectElements d root) as [els |] eqn:E; [| discriminate].
  intros [= <-]. simpl. repeat split.
  exists root. split; [reflexivity |].
  unfold collectElements in E. apply map_outcome_Forall2 in E.
  unfold listed_elements.
  eapply Forall2_impl; [| exact E]. intros element e. apply element_of_shows.
Qed.

Lemma buildSelector_threw (d : dom) (element : el) (e : thrown) :
  buildSelector d element = Threw e ->
  nonempty (el_id element) = false /\
  exists s,
    css_select d s = None /\
    ((exists name, getAttribute element "name" = Some name /\
                   s = by_name_selector element name) \/
     (exists href, getAttribute element "href" = Some href /\
                   s = by_href_selector href)).
Proof.
  unfold buildSelector. destruct (nonempty (el_id element)); [discriminate |].
  intros H. split; [reflexivity |].
  assert (match getAttribute element "href" with
          | Some href =>
              if nonempty href && String.eqb (toLowerCase (el_tag element)) "a"
              then
                match unique_match d
                        ("a[href=" ++ dq ++ escapeAttribute href ++ dq ++ "]")%string with
                | Returned true =>
                    Returned ("a[href=" ++ dq ++ escapeAttribute href ++ dq ++ "]")%string
                | Returned false =>
                    Returned (join " > "
                                (selector_path (body_path d) [] (el_tag element)
                                   (el_attrs element) (el_path element)
                                   (el_up element)))
                | Threw e0 => Threw e0
                end
              else Returned (join " > "
                               (selector_path (body_path d) [] (el_tag element)
                                  (el_attrs element) (el_path element)
                                  (el_up element)))
          | None => Returned (join " > "
                                (selector_path (body_path d) [] (el_tag element)
                                   (el_attrs element) (el_path element)
                                   (el_up element)))
          end = Threw e ->
          exists s, css_select d s = None /\
                    exists href, getAttribute element "href" = Some href /\
                                 s = by_href_selector href) as Hhref.
  { destruct (getAttribute element "href") as [href |]; [| discriminate].
    destruct (_ && _); [| discriminate].
    unfold unique_match.
    destruct (css_select d _) as [l |] eqn:Ec; [destruct (_ =? _); discriminate |].
    intros _. eexists. split; [exact Ec |]. exists href. auto. }
  destruct (getAttribute element "name") as [name |].
  - destruct (nonempty name).
    + unfold unique_match in H.
      destruct (css_select d _) as [l |] eqn:Ec.
      * destruct (_ =? _); [discriminate |].
        destruct (Hhref H) as (s & Hs & Hh). exists s. auto.
      * eexists. split; [exact Ec |]. left. exists name. auto.
    + destruct (Hhref H) as (s & Hs & Hh). exists s. auto.
  - destruct (Hhref H) as (s & Hs & Hh). exists s. auto.
Qed.

(** X13.  A capture fails in two ways only: the page has neither a
    portfolio root nor a body, or the CSS engine rejects the selector by
    name or by reference that [buildSelector] tries for a listed,
    visible element without identifier.  An element with an identifier
    never reaches the CSS engine. *)
Theorem snapshot_fails_only (tick : nat) (d : dom) (e : thrown) :
  extractPageSnapshot tick d = Threw e ->
  (querySelectorAll d PORTFOLIO_ROOT = [] /\ document_body d = None) \/
  exists root element s,
    In element (querySelectorAll_in root ELEMENT_QUERY) /\
    isVisible d element = true /\
    nonempty (el_id element) = false /\
    css_select d s = None /\
    ((exists name, getAttribute element "name" = Some name /\
                   s = by_name_selector element name) \/
     (exists href, getAttribute element "href" = Some href /\
                   s = by_href_selector href)).
Proof.
  unfold extractPageSnapshot.
  destruct (match hd_error (querySelectorAll d PORTFOLIO_ROOT) with
            | Some r => Some r
            | None => document_body d
            end) as [root |] eqn:Eroot.
  - destruct (collectElements d root) as [els | e0] eqn:E; [discriminate |].
    intros [= <-]. right. unfold collectElements in E.
    apply map_outcome_threw in E as (element & Hin & Hf).
    unfold element_of in Hf.
    destruct (buildSelector d element) as [sel | e1] eqn:Eb1; [discriminate |].
    injection Hf as <-.
    destruct (buildSelector_threw d element e1 Eb1) as (Hid & s & Hs & Hways).
    apply (In_firstn MAX_ELEMENTS), filter_In in Hin as [Hin Hvis].
    exists root, element, s. auto.
  - intros _. left.
    destruct (querySelectorAll d PORTFOLIO_ROOT); [auto | discriminate].
Qed.

End SnapshotElements.

Lemma snapshot_elements_clipped_witness :
  (exists root,
     snapshot_root long_page = Some root /\
     Forall2 (element_shows long_page) (listed_elements long_page root)
       (elements (snapshot_at 1 long_page))) /\
  map (fun e => (ed_selector e, String.length (ed_text e),
                 String.length (ariaLabel e), String.length (ed_href e)))
      (elements (snapshot_at 1 long_page))
  = [ ("#about", 120, 0, 0); ("#archive", 120, 80, 120); ("#notes", 17, 0, 0) ].
Proof.
  assert (extractPageSnapshot 1 long_page = Returned (snapshot_at 1 long_page))
    as H by (vm_compute; reflexivity).
  split; [| vm_compute; reflexivity].
  apply (@snapshot_elements_clipped IntegerNumbers SmallBrowser 1 long_page
           (snapshot_at 1 long_page) H).
Defined.

Lemma snapshot_fails_only_witness :
  (querySelectorAll bare_page PORTFOLIO_ROOT = [] /\ document_body bare_page = None) \/
  exists root element s,
    In element (querySelectorAll_in root ELEMENT_QUERY) /\
    @isVisible IntegerNumbers SmallBrowser bare_page element = true /\
    nonempty (el_id element) = false /\
    @css_select IntegerNumbers SmallBrowser bare_page s = None /\
    ((exists name, getAttribute element "name" = Some name /\
                   s = by_name_selector element name) \/
     (exists href, getAttribute element "href" = Some href /\
                   s = by_href_selector href)).
Proof.
  assert (@extractPageSnapshot IntegerNumbers SmallBrowser 0 bare_page
          = Threw (ErrorObj "TypeError")) as H by (vm_compute; reflexivity).
  exact (@snapshot_fails_only IntegerNumbers SmallBrowser 0 bare_page
           (ErrorObj "TypeError") H).
Defined.

Section EscapeProperties.

Lemma quoted_value_escapeAttribute (v rest : string) (k : nat) :
  quoted_value (S (String.length v) + k) (escapeAttribute v ++ dq ++ rest)
  = Some (v, rest).
Proof.
  induction v as [| c v IH].
  - reflexivity.
  - change (S (String.length (String c v)) + k)
      with (S (S (String.length v) + k)).
    cbn [escapeAttribute].
    destruct (nat_of_ascii c =? 92) eqn:E92; cbn [orb].
    + cbn [append quoted_value]. change (nat_of_ascii (ascii_of_nat 92)) with 92.
      cbn [Nat.eqb]. now rewrite IH.
    + destruct (nat_of_ascii c =? 34) eqn:E34.
      * cbn [append quoted_value]. change (nat_of_ascii (ascii_of_nat 92)) with 92.
        cbn [Nat.eqb]. now rewrite IH.
      * cbn [append quoted_value]. now rewrite E34, E92, IH.
Qed.

(** X14.  [escapeAttribute] loses nothing: read as a quoted attribute
    value, with the backslash escapes undone, the escaped text followed
    by the closing quote gives back the original value and what came
    after the quote, whatever quotes and backslashes the value holds.
    So two values are escaped to the same text only if they are the
    same. *)
Theorem escapeAttribute_reads_back (v : string) :
  (forall rest k,
     quoted_value (S (String.length v) + k) (escapeAttribute v ++ dq ++ rest)
     = Some (v, rest)) /\
  (forall w, escapeAttribute v = escapeAttribute w -> v = w).
Proof.
  split; [apply quoted_value_escapeAttribute |].
  intros w H.
  pose proof (quoted_value_escapeAttribute v "" (String.length w)) as Hv.
  pose proof (quoted_value_escapeAttribute w "" (String.length v)) as Hw.
  rewrite H in Hv.
  replace (S (String.length v) + String.length w)
    with (S (String.length w) + String.length v) in Hv by lia.
  rewrite Hw in Hv. now injection Hv as ->.
Qed.

End EscapeProperties.

(** ** The API route *)

Section RequestProperties.
Context {JN : JsNumber} {BR : Browser} {SV : Server}.

Lemma flat_map_decoded {A B} (encode : A -> B) (decode : B -> option A)
  (l : list A) :
  (forall a, decode (encode a) = Some a) ->
  flat_map (fun item => match decode item with
                        | Some m => [m]
                        | None => []
                        end) (map encode l) = l.
Proof.
  intros H. induction l as [| a l IH]; simpl; [reflexivity |].
  now rewrite H, IH.
Qed.

Lemma flat_map_decoded_in {A B} (decode : B -> option A) (items : list B) (a : A) :
  In a (flat_map (fun item => match decode item with
                              | Some m => [m]
                              | None => []
                              end) items) ->
  exists item, In item items /\ decode item = Some a.
Proof.
  intros H. apply in_flat_map in H as (item & Hin & Ha).
  exists item. split; [exact Hin |].
  destruct (decode item) as [m |]; [| destruct Ha].
  destruct Ha as [-> | []]. reflexivity.
Qed.

Lemma In_last_n {A} (n : nat) (l : list A) (x : A) : In x (last_n n l) -> In x l.
Proof.
  unfold last_n. intros H. rewrite <- (firstn_skipn (List.length l - n) l).
  apply in_or_app. now right.
Qed.

(** X15.  What the server keeps of a request.  Of the history it keeps
    the last 10 well-formed entries, each content cut to its first 1200
    characters, and of the tool results the first 3 well-formed ones;
    anything that is not an array counts as empty.  For the lists the
    client sends this means: the last 10 of its messages, in order, and
    the first 3 of its results, unchanged. *)
Theorem server_keeps_of_request :
  (forall history,
     List.length (toHistory history) <= 10 /\
     Forall (fun m =>
               String.length (content m) <= 1200 /\
               exists items item sent,
                 history = JArr items /\ In item items /\
                 as_message item = Some sent /\ m = cut_content sent)
            (toHistory history)) /\
  (forall results,
     List.length (toToolResults results) <= 3 /\
     Forall (fun r => exists items item,
                        results = JArr items /\ In item items /\
                        as_tool_result item = Some r)
            (toToolResults results)) /\
  (forall messages,
     toHistory (JArr (map message_json messages))
     = map cut_content (last_n 10 messages)) /\
  (forall results,
     toToolResults (JArr (map tool_result_json results)) = firstn 3 results).
Proof.
  split; [| split; [| split]].
  - intros history. unfold toHistory.
    destruct history as [| | b | x | v | items | fields];
      try (split; [simpl; lia | constructor]).
    split.
    + rewrite length_map, last_n_length. unfold HISTORY_WINDOW. lia.
    + apply Forall_forall. intros m Hm. apply in_map_iff in Hm as (sent & <- & Hin).
      split; [cbn [content]; rewrite length_slice0; lia |].
      apply In_last_n in Hin.
      apply flat_map_decoded_in in Hin as (item & Hitem & Hdec).
      exists items, item, sent. auto.
  - intros results. unfold toToolResults.
    destruct results as [| | b | x | v | items | fields];
      try (split; [simpl; lia | constructor]).
    split; [apply firstn_le_length |].
    apply Forall_forall. intros r Hr. apply In_firstn in Hr.
    apply flat_map_decoded_in in Hr as (item & Hitem & Hdec).
    exists items, item. auto.
  - intros messages. unfold toHistory.
    rewrite (flat_map_decoded message_json as_message); [reflexivity |].
    now intros [r c t].
  - intros results. unfold toToolResults.
    rewrite (flat_map_decoded tool_result_json as_tool_result); [reflexivity |].
    now intros [i n s o].
Qed.

Lemma named_call_runnable (id toolName : string) (args : list (string * jsval)) :
  existsb (String.eqb toolName) TOOL_NAMES = true ->
  runnable {| tc_id := id; tc_name := toolName; tc_args := JObj args |}.
Proof.
  intros H. apply existsb_exists in H as (n & Hin & Heq).
  apply String.eqb_eq in Heq. subst n. split; [exact Hin |].
  exists args. split; [reflexivity |]. intros d.
  destruct Hin as [<- | [<- | [<- | [<- | [<- | []]]]]]; auto 10.
Qed.

Lemma collect_calls_runnable (parts0 parts : list GeminiPart)
  (calls : list ToolCall) :
  (forall part, In part parts -> In part parts0) ->
  Forall (fun call =>
            runnable call /\
            exists part fc,
              In part parts0 /\ functionCall part = Some fc /\
              fc_name fc = Some (tc_name call) /\
              tc_args call = JObj (parseFunctionArgs (fc_args fc)))
         calls ->
  Forall (fun call =>
            runnable call /\
            exists part fc,
              In part parts0 /\ functionCall part = Some fc /\
              fc_name fc = Some (tc_name call) /\
              tc_args call = JObj (parseFunctionArgs (fc_args fc)))
         (collect_calls parts calls).
Proof.
  revert calls. induction parts as [| part rest IH]; intros calls Hsub Hcalls;
    [exact Hcalls |].
  assert (forall p, In p rest -> In p parts0) as Hrest
    by (intros p Hp; apply Hsub; now right).
  cbn [collect_calls].
  destruct (functionCall part) as [[[toolName |] a] |] eqn:Efc; [| now apply IH ..].
  destruct (existsb (String.eqb toolName) TOOL_NAMES) eqn:Ename; [| now apply IH].
  apply IH; [exact Hrest |]. apply Forall_app. split; [exact Hcalls |].
  constructor; [| constructor]. split; [now apply named_call_runnable |].
  exists part, {| fc_name := Some toolName; fc_args := a |}.
  repeat split; trivial. apply Hsub. now left.
Qed.

Lemma extractToolCalls_all_runnable (parts : list GeminiPart) :
  Forall runnable (extractToolCalls parts).
Proof.
  unfold extractToolCalls.
  pose proof (collect_calls_runnable parts parts [] (fun _ H => H)
                (Forall_nil _)) as H.
  rewrite Forall_forall in *. intros call Hin.
  apply In_firstn in Hin. now apply H.
Qed.

(** X16.  Every tool call the server hands out can be run: it comes
    from a function call of the planning response whose name is one of
    the five tool names, its arguments are an object (the one given, the
    one parsed from a JSON text, or the empty one), and so the executor
    hands it to the function of its name instead of turning it away for
    its arguments or its name.  Function calls with any other name are
    dropped. *)
Theorem extracted_calls_are_runnable (parts : list GeminiPart) :
  Forall (fun call =>
            runnable call /\
            exists part fc,
              In part parts /\ functionCall part = Some fc /\
              fc_name fc = Some (tc_name call) /\
              tc_args call = JObj (parseFunctionArgs (fc_args fc)))
         (extractToolCalls parts).
Proof.
  unfold extractToolCalls.
  assert (Forall (fun call =>
            runnable call /\
            exists part fc,
              In part parts /\ functionCall part = Some fc /\
              fc_name fc = Some (tc_name call) /\
              tc_args call = JObj (parseFunctionArgs (fc_args fc)))
            (collect_calls parts [])) as H
    by (apply collect_calls_runnable; [auto | constructor]).
  rewrite Forall_forall in *. intros call Hin. apply H.
  now apply In_firstn in Hin.
Qed.

End RequestProperties.

Section ResponseProperties.
Context {JN : JsNumber} {BR : Browser} {SV : Server}.

Lemma no_key_spec (apiKey : option string) :
  no_key apiKey <->
  match apiKey with Some key => negb (nonempty key) | None => true end = true.
Proof.
  unfold no_key. destruct apiKey as [[| c key] |]; simpl.
  - split; auto.
  - split; [intros [H | H]; discriminate | discriminate].
  - split; auto.
Qed.

Lemma extractToolCalls_cons_bounds (parts : list GeminiPart) :
  1 <= List.length (extractToolCalls parts) \/ extractToolCalls parts = [].
Proof.
  destruct (extractToolCalls parts); [now right | left; simpl; lia].
Qed.

(** X17.  The shape of every answer of [POST].  The status is 200, 400
    or 500.  The answer awaits tool results exactly when it carries tool
    calls; it carries them only with status 200 and only for a request
    whose body was read and holds no usable tool results, they are
    between one and three and each can be run, and the message going
    with them is not empty.  An answer with another status than 200
    carries no tool calls and a message that is not empty. *)
Theorem POST_response_shape (apiKey : option string)
  (request_json : outcome jsval)
  (service : GeminiRequest -> outcome GeminiResponse) :
  let status := fst (POST apiKey request_json service) in
  let answer := snd (POST apiKey request_json service) in
  (status = 200 \/ status = 400 \/ status = 500) /\
  (awaitingToolResults answer = true <-> toolCalls answer <> None) /\
  (forall calls,
     toolCalls answer = Some calls ->
     status = 200 /\
     1 <= List.length calls <= 3 /\
     Forall runnable calls /\
     (exists body,
        body_of request_json = Returned body /\
        toToolResults (get_prop body "toolResults") = []) /\
     nonempty (assistantMessage answer) = true) /\
  (status <> 200 ->
   toolCalls answer = None /\ nonempty (assistantMessage answer) = true).
Proof.
  assert (forall status text,
            (status = 400 \/ status = 500) -> nonempty text = true ->
            let st := fst (reply status text) in
            let answer := snd (reply status text) in
            (st = 200 \/ st = 400 \/ st = 500) /\
            (awaitingToolResults answer = true <-> toolCalls answer <> None) /\
            (forall calls,
               toolCalls answer = Some calls ->
               st = 200 /\
               1 <= List.length calls <= 3 /\
               Forall runnable calls /\
               (exists body,
                  body_of request_json = Returned body /\
                  toToolResults (get_prop body "toolResults") = []) /\
               nonempty (assistantMessage answer) = true) /\
            (st <> 200 ->
             toolCalls answer = None /\ nonempty (assistantMessage answer) = true))
    as Hreply.
  { intros status text Hs Ht. simpl. split; [tauto |].
    split; [split; [discriminate | congruence] |].
    split; [discriminate | auto]. }
  cbv zeta in *. unfold POST.
  destruct apiKey as [key |]; [| apply Hreply; auto].
  destruct (negb (nonempty key)) eqn:Ekey; [apply Hreply; auto |].
  destruct (body_of request_json) as [body | failure] eqn:Ebody;
    [| apply Hreply; auto].
  unfold answer_body. cbv zeta.
  destruct (negb (nonempty match get_prop body "message" with
                           | JStr m => trim m
                           | _ => ""
                           end)); [apply Hreply; auto |].
  destruct (isPageSnapshot _) as [snapshot |]; [| apply Hreply; auto].
  destruct (gemini_request (Some key) body) as [request |]; [| apply Hreply; auto].
  destruct (toToolResults (get_prop body "toolResults")) as [| r rs] eqn:Er;
    destruct (service request) as [response | e];
    try solve [apply Hreply; auto].
  - set (parts := parseGeminiParts response).
    pose proof (extractToolCalls_all_runnable parts) as Hrun.
    pose proof (extractToolCalls_length parts) as Hlen.
    destruct (extractToolCalls parts) as [| call calls] eqn:Ec; simpl.
    + split; [tauto |]. split; [split; [discriminate | congruence] |].
      split; [discriminate | intros H; now destruct H].
    + split; [tauto |]. split; [split; [discriminate | reflexivity] |].
      split; [| intros H; now destruct H].
      intros calls0 [= <-]. split; [reflexivity |].
      split; [simpl in *; unfold MAX_TOOL_CALLS_PER_TURN in *; lia |].
      split; [| split; [exists body; split; [reflexivity | exact Er] |]].
      * exact Hrun.
      * now destruct (nonempty (extractText parts)) eqn:Et.
  - simpl. split; [tauto |]. split; [split; [discriminate | congruence] |].
    split; [discriminate | intros H; now destruct H].
Qed.

(** X18.  [POST] checks before it asks.  Without an API key the answer
    is 500 and names the missing key, whatever the request.  With a key,
    the body is read: when [request.json()] rejects, and when it yields
    [null], whose [message] cannot be read, the answer is 500 with the
    normalized text of that error.  A body whose message is missing, not
    a string or blank is answered with 400 "Missing user message."; with
    a message, a snapshot of the wrong shape is answered with 400.  For
    a body that was read, no request for the planning service is made in
    the cases of the missing key, message or snapshot, and in no other.
    When the service throws, the answer is 500 with the normalized error
    text. *)
Theorem POST_checks_first (apiKey : option string)
  (request_json : outcome jsval)
  (service : GeminiRequest -> outcome GeminiResponse) :
  (no_key apiKey ->
   POST apiKey request_json service
   = reply 500 "Server configuration is missing GEMINI_API_KEY in environment variables.") /\
  (forall e,
     ~ no_key apiKey -> request_json = Threw e ->
     POST apiKey request_json service
     = reply 500 ("I ran into an error: "
                  ++ normalizeServerErrorMessage
                       (error_text e "Unexpected server error."))%string) /\
  (~ no_key apiKey -> request_json = Returned JNull ->
   POST apiKey request_json service
   = reply 500 "I ran into an error: Cannot read properties of null (reading 'message')") /\
  (forall body,
     ~ no_key apiKey ->
     body_of request_json = Returned body ->
     (nonempty (body_message body) = false ->
      POST apiKey request_json service = reply 400 "Missing user message.") /\
     (nonempty (body_message body) = true ->
      isPageSnapshot (get_prop body "pageSnapshot") = None ->
      POST apiKey request_json service
      = reply 400 "Missing or invalid page snapshot.") /\
     (forall request e,
        gemini_request apiKey body = Some request ->
        service request = Threw e ->
        POST apiKey request_json service
        = reply 500 ("I ran into an error: "
                     ++ normalizeServerErrorMessage
                          (error_text e "Unexpected server error."))%string)) /\
  (forall body,
     gemini_request apiKey body = None <->
     no_key apiKey \/ nonempty (body_message body) = false \/
     isPageSnapshot (get_prop body "pageSnapshot") = None).
Proof.
  setoid_rewrite no_key_spec. unfold POST.
  split; [| split; [| split; [| split]]].
  - destruct apiKey as [key |]; [| reflexivity].
    now intros ->.
  - intros e Hkey ->. destruct apiKey as [key |]; [| now destruct Hkey].
    destruct (negb (nonempty key)); [now destruct Hkey | reflexivity].
  - intros Hkey ->. destruct apiKey as [key |]; [| now destruct Hkey].
    destruct (negb (nonempty key)); [now destruct Hkey |].
    vm_compute. reflexivity.
  - intros body Hkey Hbody. rewrite Hbody.
    unfold answer_body, gemini_request, body_message.
    destruct apiKey as [key |]; [| now destruct Hkey].
    destruct (negb (nonempty key)); [now destruct Hkey |].
    set (message := match get_prop body "message" with
                    | JStr m => trim m
                    | _ => ""
                    end).
    destruct (nonempty message); cbn [negb].
    2: { repeat split; auto; try discriminate. }
    destruct (isPageSnapshot (get_prop body "pageSnapshot")) as [snapshot |].
    2: { repeat split; auto; try discriminate. }
    split; [discriminate |]. split; [discriminate |].
    intros request e Hreq Hs.
    destruct (toToolResults _); injection Hreq as <-; now rewrite Hs.
  - intros body. unfold gemini_request, body_message.
    destruct apiKey as [key |]; cbn [negb].
    2: { split; auto. }
    destruct (nonempty key); cbn [negb].
    2: { split; auto. }
    set (message := match get_prop body "message" with
                    | JStr m => trim m
                    | _ => ""
                    end).
    destruct (nonempty message); cbn [negb].
    2: { split; auto. }
    destruct (isPageSnapshot (get_prop body "pageSnapshot")) as [snapshot |].
    2: { split; auto. }
    split.
    + destruct (toToolResults _); discriminate.
    + intros [H | [H | H]]; discriminate.
Qed.

End ResponseProperties.

(** ** The panel *)

Section PanelProperties.
Context {JN : JsNumber} {BR : Browser} {NW : Network}.

Ltac steady_parts :=
  unfold steady;
  repeat match goal with |- _ /\ _ => split end;
  try reflexivity;
  try (exists []; now rewrite app_nil_r);
  try (simpl; lia); auto.

Lemma steady_refl (s : session) : steady s s.
Proof. steady_parts. Qed.

Lemma steady_trans (a b c : session) : steady a b -> steady b c -> steady a c.
Proof.
  intros (H1 & H2 & H5 & H6 & (m & H7) & H8 & H9)
         (K1 & K2 & K5 & K6 & (m' & K7) & K8 & K9).
  unfold steady. repeat match goal with |- _ /\ _ => split end;
    try congruence; try lia; auto.
  exists (m ++ m'). now rewrite K7, H7, app_assoc.
Qed.

Lemma keeps_ret {A} (a : A) : keeps (ret a).
Proof. intros s. apply steady_refl. Qed.

Lemma keeps_bind {A B} (m : ST session A) (k : A -> ST session B) :
  keeps m -> (forall a, keeps (k a)) -> keeps (bind m k).
Proof.
  intros Hm Hk s. unfold bind. specialize (Hm s).
  destruct (m s) as [[a | e] s1]; simpl in *; [| exact Hm].
  eapply steady_trans; [exact Hm | apply Hk].
Qed.

Lemma keeps_set_flow (g : session -> list FlowItem) :
  (forall s, List.length (flowItems s) <= MAX_FLOW_ITEMS ->
             List.length (g s) <= MAX_FLOW_ITEMS) ->
  keeps (modify (fun s => set_flow (g s) s)).
Proof.
  intros Hg s. cbn [snd modify]. steady_parts. apply Hg.
Qed.

Lemma keeps_execute (call : ToolCall) : keeps (execute call).
Proof.
  intros s. unfold execute.
  destruct (executeToolCall call (page s)) as [r d].
  cbn [snd]. steady_parts. now exists [call].
Qed.

Lemma keeps_createMessage (r c : string) : keeps (createMessage r c).
Proof. intros s. cbn [snd createMessage]. steady_parts. Qed.

Lemma keeps_append_message (history : list ChatMessage) (m : ChatMessage) :
  keeps (append_message history m).
Proof.
  intros s. cbn [snd append_message]. steady_parts.
  intros _. simpl. rewrite last_n_length. lia.
Qed.

Lemma keeps_take_snapshot : keeps take_snapshot.
Proof. intros s. cbn [snd take_snapshot]. steady_parts. Qed.

Lemma keeps_post (payload : ChatRequest) : keeps (post payload).
Proof. intros s. cbn [snd post]. steady_parts. Qed.

Lemma keeps_run_call (call : ToolCall) (history : list ChatMessage) :
  keeps (run_call call history).
Proof.
  unfold run_call.
  apply keeps_bind.
  { apply (keeps_set_flow (fun s => last_n MAX_FLOW_ITEMS (flowItems s ++ [_]))).
    intros s _. rewrite last_n_length. lia. }
  intros _. apply keeps_bind; [apply keeps_execute |]. intros r.
  apply keeps_bind.
  { apply (keeps_set_flow (fun s => map _ (flowItems s))).
    intros s H. now rewrite length_map. }
  intros _. apply keeps_bind; [apply keeps_createMessage |]. intros m.
  apply keeps_bind; [apply keeps_append_message |]. intros h. apply keeps_ret.
Qed.

Lemma keeps_run_calls (calls : list ToolCall) (results : list ToolResult)
  (history : list ChatMessage) :
  keeps (run_calls calls results history).
Proof.
  revert results history. induction calls as [| call calls IH];
    intros results history; simpl; [apply keeps_ret |].
  apply keeps_bind; [apply keeps_run_call | intros step; apply IH].
Qed.

Lemma keeps_note_plan (reply : ChatResponse) (history : list ChatMessage) :
  keeps (note_plan reply history).
Proof.
  unfold note_plan. destruct (nonempty _); [| apply keeps_ret].
  apply keeps_bind; [apply keeps_createMessage |]. intros m.
  apply keeps_append_message.
Qed.

Lemma keeps_act (message : string) (reply : ChatResponse)
  (history : list ChatMessage) :
  keeps (act message reply history).
Proof.
  unfold act. destruct (_ && _).
  - apply keeps_bind; [apply keeps_run_calls |]. intros done.
    apply keeps_bind; [apply keeps_take_snapshot |]. intros snap.
    apply keeps_bind; [apply keeps_post |]. intros final.
    apply keeps_bind; [apply keeps_createMessage |]. intros m.
    apply keeps_bind; [apply keeps_append_message |]. intros h. apply keeps_ret.
  - destruct (negb _); [| apply keeps_ret].
    apply keeps_bind; [apply keeps_createMessage |]. intros m.
    apply keeps_bind; [apply keeps_append_message |]. intros h. apply keeps_ret.
Qed.

Lemma keeps_turn (message : string) (history : list ChatMessage) :
  keeps (turn message history).
Proof.
  unfold turn.
  apply keeps_bind; [apply keeps_take_snapshot |]. intros snap.
  apply keeps_bind; [apply keeps_post |]. intros reply.
  apply keeps_bind; [apply keeps_note_plan |]. intros h. apply keeps_act.
Qed.

Lemma keeps_on_error (e : thrown) : keeps (on_error e).
Proof.
  unfold on_error. apply keeps_bind; [apply keeps_createMessage |]. intros m.
  intros s. cbn [snd modify]. steady_parts.
  intros _. simpl. rewrite last_n_length. lia.
Qed.

Lemma keeps_round (message : string) (history : list ChatMessage) (s : session) :
  steady s
    (match turn message history s with
     | (Returned _, s3) => s3
     | (Threw error, s3) => snd (on_error error s3)
     end).
Proof.
  pose proof (keeps_turn message history s) as H.
  destruct (turn message history s) as [[u | e] s3]; simpl in H; [exact H |].
  eapply steady_trans; [exact H | apply keeps_on_error].
Qed.

(** X19.  What a conversation keeps, whatever the service answers and
    whether or not anything throws.  The busy flag of an idle panel is
    clear again at the end.  A timeline of at most 10 items and a
    history of at most 18 messages stay within these bounds.  A message
    that is blank, or a panel that is busy, leaves everything as it is;
    otherwise the panel has been opened and the history has at most 18
    messages at the end. *)
Theorem conversation_invariants (raw : string) (s : session) :
  (isBusy s = false -> isBusy (runConversation raw s) = false) /\
  (List.length (flowItems s) <= 10 ->
   List.length (flowItems (runConversation raw s)) <= 10) /\
  (List.length (messages s) <= 18 ->
   List.length (messages (runConversation raw s)) <= 18) /\
  (nonempty (trim raw) = false \/ isBusy s = true -> runConversation raw s = s) /\
  (nonempty (trim raw) = true -> isBusy s = false ->
   isOpen (runConversation raw s) = true /\
   List.length (messages (runConversation raw s)) <= 18).
Proof.
  destruct (negb (nonempty (trim raw)) || isBusy s) eqn:Eguard.
  - assert (runConversation raw s = s) as ->
      by (unfold runConversation; now rewrite Eguard).
    apply orb_true_iff in Eguard.
    split; [auto |]. split; [auto |]. split; [auto |]. split; [auto |].
    intros Hne Hbusy. exfalso. destruct Eguard as [H | H]; [| congruence].
    rewrite Hne in H. discriminate H.
  - apply orb_false_iff in Eguard as [Hne Hbusy]. apply negb_false_iff in Hne.
    rewrite (runConversation_started raw s Hne Hbusy).
    pose proof (keeps_round (trim raw) (fst (begin_turn (trim raw) s))
                  (snd (begin_turn (trim raw) s))) as H.
    destruct H as (H1 & H2 & H5 & H6 & H7 & H8 & H9).
    destruct (begin_turn_spec raw s)
      as (Hh & Hm2 & Hlen & Hran2 & Hpage2 & Hposted2 & Hclock2).
    set (after := match turn (trim raw) (fst (begin_turn (trim raw) s))
                          (snd (begin_turn (trim raw) s)) with
                  | (Returned _, s3) => s3
                  | (Threw error, s3) => snd (on_error error s3)
                  end) in *.
    assert (List.length (messages after) <= 18) as Hmsgs
      by (apply H9; rewrite Hm2; exact Hlen).
    split; [reflexivity |].
    split; [intros Hf; apply H8; exact Hf |].
    split; [intros _; exact Hmsgs |].
    split; [intros [H | H]; congruence |].
    intros _ _. simpl. rewrite H2. auto.
Qed.

Lemma note_plan_posted (reply : ChatResponse) (history : list ChatMessage)
  (s : session) :
  posted (snd (note_plan reply history s)) = posted s.
Proof. unfold note_plan. now destruct (nonempty _). Qed.

Lemma on_error_counts (e : thrown) (s : session) :
  posted (snd (on_error e s)) = posted s /\ ran (snd (on_error e s)) = ran s.
Proof. split; reflexivity. Qed.

Lemma act_posts (message : string) (reply : ChatResponse)
  (history : list ChatMessage) (s : session) (r : outcome unit) (s' : session) :
  messages s = history ->
  List.length history <= MAX_HISTORY ->
  act message reply history s = (r, s') ->
  exists more,
    ran s' = ran s ++ more /\
    (posted s' = posted s \/ (posted s' = posted s + 1 /\ more <> [])).
Proof.
  intros Hm Hlen. unfold act.
  set (calls := match toolCalls reply with
                | Some l => firstn MAX_TOOL_CALLS_PER_TURN l
                | None => []
                end).
  destruct (awaitingToolResults reply && (0 <? List.length calls)) eqn:Eaw.
  - apply andb_true_iff in Eaw as [_ Hpos]. apply Nat.ltb_lt in Hpos.
    assert (calls <> []) as Hcalls by (intros H; rewrite H in Hpos; simpl in Hpos; lia).
    rewrite bind_eq.
    destruct (run_calls_spec calls [] history s Hm Hlen)
      as (rs & ms & s1 & o & E & _ & _ & Hposted1 & _ & _ & _ & Hcase).
    rewrite E.
    destruct Hcase as [(-> & Hran1 & _)
                      | (e & before & call & after & -> & _ & Hran1 & _)].
    2: { intros [= <- <-]. exists (before ++ [call]). auto. }
    simpl fst. simpl snd.
    rewrite bind_eq. unfold take_snapshot at 1.
    destruct (extractPageSnapshot (clock s1) (page s1)) as [snap | e].
    2: { intros [= <- <-]. exists calls. simpl. auto. }
    rewrite bind_eq. unfold post at 1.
    destruct (postChat _ _) as [final | e].
    2: { intros [= <- <-]. exists calls. simpl. split; [exact Hran1 |].
         right. split; [lia | exact Hcalls]. }
    intros Heq. unfold bind, createMessage, append_message, ret in Heq.
    simpl in Heq. injection Heq as <- <-. exists calls. simpl.
    split; [exact Hran1 |]. right. split; [lia | exact Hcalls].
  - destruct (negb (nonempty (trim (assistantMessage reply))));
      intros [= <- <-]; exists []; simpl; rewrite app_nil_r; auto.
Qed.

Lemma turn_posts (message : string) (history : list ChatMessage) (s : session)
  (r : outcome unit) (s' : session) :
  messages s = history ->
  List.length history <= MAX_HISTORY ->
  turn message history s = (r, s') ->
  exists more,
    ran s' = ran s ++ more /\
    ((posted s' = posted s /\ more = []) \/
     posted s' = posted s + 1 \/
     (posted s' = posted s + 2 /\ more <> [])).
Proof.
  intros Hm Hlen. unfold turn. rewrite bind_eq. unfold take_snapshot at 1.
  destruct (extractPageSnapshot (clock s) (page s)) as [snap | e].
  2: { intros [= <- <-]. exists []. simpl. rewrite app_nil_r. auto. }
  rewrite bind_eq. unfold post at 1.
  destruct (postChat _ _) as [reply | e].
  2: { intros [= <- <-]. exists []. simpl. rewrite app_nil_r.
       split; [reflexivity |]. right; left. lia. }
  rewrite bind_eq.
  destruct (note_plan_spec reply history (count_post (tick s)) Hm Hlen)
    as (planned & s1 & E & Hm1 & Hran1 & _ & _).
  pose proof (note_plan_posted reply history (count_post (tick s))) as Hp1.
  rewrite E in *. simpl in Hp1, Hran1. intros Hact.
  apply act_posts in Hact as (more & Hran4 & Hposted4);
    [| exact Hm1 | rewrite last_n_length; unfold MAX_HISTORY; lia].
  exists more. split; [congruence |].
  destruct Hposted4 as [H | [H Hmore]].
  - right; left. lia.
  - right; right. split; [lia | exact Hmore].
Qed.

(** X20.  A conversation calls the service at most twice.  No action is
    run unless the planning call was made, and the second call, the
    final one, is made only after at least one action was run. *)
Theorem service_called_at_most_twice (raw : string) (s : session) :
  posted s <= posted (runConversation raw s) <= posted s + 2 /\
  exists more,
    ran (runConversation raw s) = ran s ++ more /\
    (more <> [] -> posted s < posted (runConversation raw s)) /\
    (posted (runConversation raw s) = posted s + 2 -> more <> []).
Proof.
  assert (exists more,
            ran (runConversation raw s) = ran s ++ more /\
            ((posted (runConversation raw s) = posted s /\ more = []) \/
             posted (runConversation raw s) = posted s + 1 \/
             (posted (runConversation raw s) = posted s + 2 /\ more <> [])))
    as (more & Hran & Hcases).
  { destruct (negb (nonempty (trim raw)) || isBusy s) eqn:Eguard.
    { exists []. unfold runConversation. rewrite Eguard, app_nil_r. auto. }
    apply orb_false_iff in Eguard as [Hne Hbusy]. apply negb_false_iff in Hne.
    rewrite (runConversation_started raw s Hne Hbusy).
    destruct (begin_turn_spec raw s)
      as (Hh & Hm2 & Hlen & Hran2 & Hpage2 & Hposted2 & Hclock2).
    destruct (turn (trim raw) _ _) as [r s3] eqn:Eturn.
    apply turn_posts in Eturn as (more & Hran3 & Hposted3); trivial.
    exists more.
    assert (ran (set_busy false
                   match r with
                   | Returned _ => s3
                   | Threw error => snd (on_error error s3)
                   end) = ran s3) as -> by (now destruct r).
    assert (posted (set_busy false
                      match r with
                      | Returned _ => s3
                      | Threw error => snd (on_error error s3)
                      end) = posted s3) as -> by (now destruct r).
    rewrite Hran3, Hran2. split; [reflexivity |]. rewrite <- Hposted2.
    exact Hposted3. }
  split; [destruct Hcases as [[H _] | [H | [H _]]]; lia |].
  exists more. split; [exact Hran |]. split.
  - intros Hmore. destruct Hcases as [[_ H] | [H | [H _]]]; [contradiction | lia | lia].
  - intros H2. destruct Hcases as [[H _] | [H | [_ H]]]; [lia | lia | exact H].
Qed.

Lemma run_call_result (call : ToolCall) (history : list ChatMessage) (s : session) :
  (exists r m s',
     executeToolCall call (page s) = (Returned r, page s') /\
     run_call call history s
     = (Returned (r, last_n MAX_HISTORY (history ++ [m])), s') /\
     messages s' = last_n MAX_HISTORY (history ++ [m]) /\
     answers call r /\ reports r m /\
     ran s' = ran s ++ [call] /\ posted s' = posted s /\
     clock s' = S (clock s) /\
     isBusy s' = isBusy s /\ isOpen s' = isOpen s) \/
  (exists e s',
     executeToolCall call (page s) = (Threw e, page s') /\
     run_call call history s = (Threw e, s') /\
     messages s' = messages s /\
     ran s' = ran s ++ [call] /\ posted s' = posted s /\
     clock s' = clock s /\
     isBusy s' = isBusy s /\ isOpen s' = isOpen s).
Proof.
  destruct (executeToolCall call (page s)) as [[r | e] d'] eqn:E.
  - left. pose proof (executeToolCall_answers call (page s) r d' E) as Hans.
    unfold run_call, bind, modify, execute, createMessage,
      append_message, ret. simpl. rewrite E. simpl.
    eexists r, _, _. split; [| split; [reflexivity |]]; [reflexivity |].
    simpl. repeat split; apply Hans.
  - right. unfold run_call, bind, modify, execute. simpl. rewrite E.
    eexists e, _. split; [| split; [reflexivity |]]; [reflexivity |].
    simpl. repeat split.
Qed.

(** X21.  The loop over the tool calls answers each call once and in
    order, up to the first call that throws: the results it collects are
    those of the calls run one after the other, each on the page as the
    call before left it, and each has the identifier and the name of its
    call; for each result one "tool" message "name: output" is appended
    to the history, which is cut to its last 18 entries each time.  When
    no call throws, there is a result for every call and the loop
    returns them after the results it started with.  When a call throws,
    the loop throws what that call threw: the results and the messages
    of the calls before it stay, the call that threw counts as run, and
    the calls after it are not run.  The loop does not call the
    service. *)
Theorem tool_loop_correlates (calls : list ToolCall) (results : list ToolResult)
  (history : list ChatMessage) (s : session) :
  exists rs stop ms s',
    run_on_page calls (page s) = (rs, stop, page s') /\
    run_calls calls results history s
    = (match stop with
       | None => Returned (results ++ rs, appended history ms)
       | Some e => Threw e
       end, s') /\
    Forall2 answers (firstn (List.length rs) calls) rs /\
    Forall2 reports rs ms /\
    (rs <> [] -> messages s' = appended history ms) /\
    (rs = [] -> messages s' = messages s) /\
    (stop = None -> List.length rs = List.length calls) /\
    ran s' = ran s ++ reached calls rs stop /\ posted s' = posted s.
Proof.
  unfold reached, appended.
  revert results history s. induction calls as [| call calls IH];
    intros results history s; simpl.
  - exists [], None, [], s. rewrite !app_nil_r. unfold ret. simpl.
    repeat split; trivial. contradiction.
  - destruct (run_call_result call history s)
      as [(r & m & s1 & Hexec & E & Hm1 & Hans & Hrep & Hran1 & Hposted1 & _)
         | (e & s1 & Hexec & E & Hm1 & Hran1 & Hposted1 & _)].
    + unfold bind. rewrite E, Hexec. simpl fst. simpl snd.
      destruct (IH (results ++ [r]) (last_n MAX_HISTORY (history ++ [m])) s1)
        as (rs & stop & ms & s2 & Hpage2 & E2 & Hans2 & Hrep2 & Hsome & Hnone
            & Hall & Hran2 & Hposted2).
      exists (r :: rs), stop, (m :: ms), s2. rewrite Hpage2, E2, <- app_assoc.
      split; [reflexivity |]. split; [reflexivity |].
      split; [now constructor |]. split; [now constructor |].
      split.
      { intros _. destruct rs as [| r0 rs].
        - inversion Hrep2; subst. simpl. now rewrite (Hnone eq_refl).
        - apply Hsome. discriminate. }
      split; [discriminate |].
      split; [intros H; simpl; now rewrite (Hall H) |].
      split; [| congruence].
      rewrite Hran2, Hran1, <- app_assoc. reflexivity.
    + unfold bind. rewrite E, Hexec.
      exists [], (Some e), [], s1.
      split; [reflexivity |]. split; [reflexivity |].
      split; [constructor |]. split; [constructor |].
      split; [contradiction |]. split; [intros _; exact Hm1 |].
      split; [discriminate |]. split; [exact Hran1 | exact Hposted1].
Qed.

End PanelProperties.

Section LabelProperties.

Lemma lower_capital (c : ascii) :
  lower_char (if (97 <=? nat_of_ascii c) && (nat_of_ascii c <=? 122)
              then ascii_of_nat (nat_of_ascii c - 32) else c)
  = lower_char c.
Proof. destruct c as [[] [] [] [] [] [] [] []]; reflexivity. Qed.

Lemma lower_char_underscore (c : ascii) :
  Ascii.eqb (lower_char c) "_" = Ascii.eqb c "_".
Proof. destruct c as [[] [] [] [] [] [] [] []]; reflexivity. Qed.

Lemma toLowerCase_capitalize (part : string) :
  toLowerCase (capitalize part) = toLowerCase part.
Proof.
  destruct part as [| c r]; [reflexivity |].
  cbn [capitalize toLowerCase]. now rewrite lower_capital.
Qed.

Lemma length_toLowerCase (s : string) : String.length (toLowerCase s) = String.length s.
Proof. induction s as [| c s IH]; simpl; [reflexivity | now rewrite IH]. Qed.

Lemma split_underscore_cons (current name : string) :
  exists part parts, split_underscore current name = part :: parts.
Proof.
  revert current. induction name as [| c r IH]; intros current; simpl.
  - now exists current, [].
  - destruct (Ascii.eqb c "_"); [now eexists _, _ | apply IH].
Qed.

Lemma join_cons (sep a b : string) (l : list string) :
  join sep (a :: b :: l) = (a ++ sep ++ join sep (b :: l))%string.
Proof. reflexivity. Qed.

Lemma label_lower (current name : string) :
  toLowerCase (join " " (map capitalize (split_underscore current name)))
  = toLowerCase (current ++ spaced name).
Proof.
  revert current. induction name as [| c r IH]; intros current;
    cbn [split_underscore spaced].
  - cbn [map join]. now rewrite toLowerCase_capitalize, append_empty_r.
  - destruct (Ascii.eqb c "_") eqn:Ec.
    + destruct (split_underscore_cons "" r) as (part & parts & E).
      specialize (IH ""%string). rewrite E in *. cbn [map] in *.
      rewrite join_cons, !toLowerCase_append, toLowerCase_capitalize, IH.
      reflexivity.
    + rewrite IH, append_assoc. reflexivity.
Qed.

Lemma includes_char (s : string) (c : ascii) :
  includes s (String c EmptyString) = false <->
  forall u v, s <> (u ++ String c v)%string.
Proof.
  split.
  - intros H u v Hs.
    assert (includes s (String c "") = true) as Ht
      by (apply includes_spec; now exists u, v).
    congruence.
  - intros H. destruct (includes s (String c "")) eqn:E; [| reflexivity].
    apply includes_spec in E as (u & v & Hs). now apply H in Hs.
Qed.

Lemma spaced_no_underscore (name u v : string) :
  toLowerCase (spaced name) <> (u ++ String "_" v)%string.
Proof.
  revert u. induction name as [| c r IH]; intros u; simpl.
  - destruct u; discriminate.
  - destruct u as [| x u]; simpl.
    + intros [= Hc _].
      assert (Ascii.eqb (lower_char (if Ascii.eqb c "_" then " "%char else c)) "_"
              = true) as Hx by (rewrite Hc; reflexivity).
      rewrite lower_char_underscore in Hx.
      destruct (Ascii.eqb c "_") eqn:Ec; [discriminate | congruence].
    + intros [= _ Hr]. now apply IH in Hr.
Qed.

(** X22.  The label of a tool is its name with a space for each
    underscore, up to the case of the letters (the first letter of each
    part is put in upper case): it has the length of the name and holds
    no underscore. *)
Theorem formatToolLabel_spaced (name : string) :
  toLowerCase (formatToolLabel name) = toLowerCase (spaced name) /\
  String.length (formatToolLabel name) = String.length name /\
  includes (formatToolLabel name) "_" = false.
Proof.
  assert (toLowerCase (formatToolLabel name) = toLowerCase (spaced name)) as H
    by (unfold formatToolLabel; now rewrite label_lower).
  split; [exact H |]. split.
  - rewrite <- (length_toLowerCase (formatToolLabel name)), H, length_toLowerCase.
    clear H. induction name as [| c r IH]; simpl; [reflexivity | now rewrite IH].
  - apply includes_char. intros u v Hs.
    apply (spaced_no_underscore name (toLowerCase u) (toLowerCase v)).
    rewrite <- H, Hs, toLowerCase_append. reflexivity.
Qed.

End LabelProperties.

Section NormalizeTextProperties.
Context {JN : JsNumber} {BR : Browser}.

Lemma tidy_trimmed (value : string) :
  tidy false (trim (collapse value)) = true /\
  starts_clean (trim (collapse value)) = true.
Proof.
  unfold trim, collapse. split.
  - apply (tidy_trimEnd false), (tidy_trimStart false), tidy_collapse_from.
  - apply starts_clean_trimEnd, starts_clean_trimStart.
Qed.

Lemma tidy_cut (k : nat) (b : bool) (t : string) :
  tidy b t = true -> tidy b (slice0 k t ++ "...") = true.
Proof.
  revert b t. induction k as [| k IH]; intros b t H; [reflexivity |].
  destruct t as [| c r]; [reflexivity |].
  cbn [slice0 append tidy] in *.
  destruct (is_space c).
  - apply andb_true_iff in H as [H1 H2]. rewrite H1. now apply IH.
  - now apply IH.
Qed.

Lemma starts_clean_cut (k : nat) (t : string) :
  starts_clean t = true -> starts_clean (slice0 k t ++ "...") = true.
Proof.
  destruct k as [| k]; [reflexivity |]. destruct t as [| c r]; [reflexivity |].
  trivial.
Qed.

Lemma trim_cut (a : string) :
  tidy false (a ++ "...") = true -> starts_clean (a ++ "...") = true ->
  trim (collapse (a ++ "...")) = (a ++ "...")%string.
Proof.
  intros Ht Hs. unfold collapse. rewrite (collapse_from_tidy false _ Ht).
  unfold trim. rewrite (trimStart_clean _ Hs).
  now rewrite trimEnd_before.
Qed.

(** X23.  [normalizeText] yields a normal form: normalizing a text that
    was normalized with the same limit, of 3 or more, changes nothing. *)
Theorem normalizeText_idem (value : string) (limit : nat) :
  3 <= limit ->
  normalizeText (normalizeText value limit) limit = normalizeText value limit.
Proof.
  intros H3. destruct (tidy_trimmed value) as [Ht Hs].
  destruct (Nat.le_gt_cases (String.length (trim (collapse value))) limit)
    as [H | H].
  - rewrite (normalizeText_short value limit H).
    assert (trim (collapse (trim (collapse value))) = trim (collapse value)) as E.
    { unfold collapse at 1. rewrite (collapse_from_tidy false _ Ht).
      apply trim_idem. }
    rewrite normalizeText_short; rewrite E; trivial.
  - destruct (normalizeText_long value limit H3 H) as [E Hl]. rewrite E in *.
    assert (trim (collapse (slice0 (limit - 3) (trim (collapse value)) ++ "..."))
            = (slice0 (limit - 3) (trim (collapse value)) ++ "...")%string) as Ec
      by (apply trim_cut; [now apply tidy_cut | now apply starts_clean_cut]).
    rewrite normalizeText_short; rewrite Ec; [reflexivity | lia].
Qed.

End NormalizeTextProperties.

Lemma normalizeText_idem_witness :
  normalizeText (normalizeText "  Shipping   reliable products  " 12) 12
  = normalizeText "  Shipping   reliable products  " 12.
Proof.
  apply (normalizeText_idem "  Shipping   reliable products  " 12). lia.
Defined.

Section TurnProperties.
Context {JN : JsNumber} {BR : Browser} {NW : Network}.

Lemma asks_nothing_spec (reply : ChatResponse) :
  asks_nothing reply ->
  awaitingToolResults reply
  && (0 <? List.length match toolCalls reply with
                       | Some l => firstn MAX_TOOL_CALLS_PER_TURN l
                       | None => []
                       end) = false.
Proof.
  intros [H | [H | H]]; rewrite H; [reflexivity | apply andb_false_r ..].
Qed.

Lemma answer_only_round (message : string) (history : list ChatMessage)
  (s : session) (snap : PageSnapshot) (reply : ChatResponse) :
  extractPageSnapshot (clock s) (page s) = Returned snap ->
  postChat (posted s)
    {| cr_message := message; cr_history := history; pageSnapshot := snap;
       toolResults := None |} = Returned reply ->
  asks_nothing reply ->
  exists s3,
    turn message history s = (Returned tt, s3) /\
    messages s3
    = last_n MAX_HISTORY (history ++ [answer_entry reply (now_iso (S (clock s)))]) /\
    ran s3 = ran s /\ page s3 = page s /\ posted s3 = S (posted s) /\
    isOpen s3 = isOpen s /\ draft s3 = draft s.
Proof.
  intros Hsnap Hpost Hno. apply asks_nothing_spec in Hno.
  unfold turn. rewrite bind_eq. unfold take_snapshot at 1. rewrite Hsnap.
  rewrite bind_eq. unfold post at 1. simpl posted. rewrite Hpost.
  rewrite bind_eq. unfold note_plan, act, answer_entry. rewrite Hno.
  destruct (nonempty (trim (assistantMessage reply))); cbn [negb].
  - eexists. split; [reflexivity |]. simpl. auto 10.
  - eexists. split; [reflexivity |]. simpl. auto 10.
Qed.

(** X24.  A turn without actions.  When the planning call returns a
    reply that asks for no action, the turn appends the user message and
    one assistant message, which is the text of the reply as it came, or
    the fallback text when the reply is blank; the history is cut to its
    last 18 entries.  The service was called once, nothing was run, the
    page is untouched, the panel is open and idle. *)
Theorem answer_only_turn (raw : string) (s : session) (snap : PageSnapshot)
  (reply : ChatResponse) :
  nonempty (trim raw) = true ->
  isBusy s = false ->
  extractPageSnapshot (S (clock s)) (page s) = Returned snap ->
  postChat (posted s) (planning_request raw s snap) = Returned reply ->
  asks_nothing reply ->
  messages (runConversation raw s)
  = last_n MAX_HISTORY
      (messages s
       ++ [user_entry raw s; answer_entry reply (now_iso (S (S (clock s))))]) /\
  ran (runConversation raw s) = ran s /\
  page (runConversation raw s) = page s /\
  posted (runConversation raw s) = S (posted s) /\
  isBusy (runConversation raw s) = false /\
  isOpen (runConversation raw s) = true /\
  draft (runConversation raw s) = "".
Proof.
  intros Hne Hbusy Hsnap Hpost Hno.
  rewrite (runConversation_started raw s Hne Hbusy).
  destruct (begin_turn_spec raw s)
    as (Hh & Hm2 & Hlen & Hran2 & Hpage2 & Hposted2 & Hclock2).
  destruct (answer_only_round (trim raw) (fst (begin_turn (trim raw) s))
              (snd (begin_turn (trim raw) s)) snap reply)
    as (s3 & E & Hm3 & Hran3 & Hpage3 & Hposted3 & Hopen3 & Hdraft3).
  - now rewrite Hclock2, Hpage2.
  - rewrite Hposted2, Hh. exact Hpost.
  - exact Hno.
  - rewrite E. simpl. rewrite Hm3, Hh, Hclock2, last_n_last_n, <- app_assoc.
    rewrite Hran3, Hpage3, Hposted3, Hopen3, Hdraft3.
    repeat split; congruence.
Qed.

End TurnProperties.

Lemma answer_only_turn_witness :
  messages (@runConversation IntegerNumbers SmallBrowser (answering "Three projects.")
              "What projects are showcased here?" (fresh_session sample_page))
  = [ {| role := "user"; content := "What projects are showcased here?";
         createdAt := "T0" |};
      {| role := "assistant"; content := "Three projects."; createdAt := "T2" |} ].
Proof.
  assert (@extractPageSnapshot IntegerNumbers SmallBrowser 1 sample_page
          = Returned (snapshot_at 1 sample_page)) as Hsnap
    by (vm_compute; reflexivity).
  destruct (@answer_only_turn IntegerNumbers SmallBrowser (answering "Three projects.")
              "What projects are showcased here?" (fresh_session sample_page)
              (snapshot_at 1 sample_page)
              {| assistantMessage := "Three projects."; toolCalls := None;
                 awaitingToolResults := false |}
              eq_refl eq_refl Hsnap eq_refl (or_introl eq_refl)) as [H _].
  rewrite H. reflexivity.
Defined.

Section ActionTurn.
Context {JN : JsNumber} {BR : Browser} {NW : Network}.

Lemma run_calls_full (calls : list ToolCall) (results : list ToolResult)
  (history : list ChatMessage) (s : session) :
  messages s = history ->
  List.length history <= MAX_HISTORY ->
  exists rs stop ms s',
    run_on_page calls (page s) = (rs, stop, page s') /\
    run_calls calls results history s
    = (match stop with
       | None => Returned (results ++ rs, last_n MAX_HISTORY (history ++ ms))
       | Some e => Threw e
       end, s') /\
    messages s' = last_n MAX_HISTORY (history ++ ms) /\
    Forall2 answers (firstn (List.length rs) calls) rs /\
    Forall2 reports rs ms /\
    ran s' = ran s ++ reached calls rs stop /\ posted s' = posted s /\
    clock s' = clock s + List.length rs /\
    isBusy s' = isBusy s /\ isOpen s' = isOpen s.
Proof.
  unfold reached.
  revert results history s. induction calls as [| call calls IH];
    intros results history s Hm Hlen; simpl.
  - exists [], None, [], s. rewrite !app_nil_r, (last_n_all _ _ Hlen).
    unfold ret. simpl. rewrite Nat.add_0_r. auto 15.
  - destruct (run_call_result call history s)
      as [(r & m & s1 & Hexec & E & Hm1 & Hans & Hrep & Hran1 & Hposted1 & Hclock1
           & Hbusy1 & Hopen1)
         | (e & s1 & Hexec & E & Hm1 & Hran1 & Hposted1 & Hclock1 & Hbusy1 & Hopen1)].
    + unfold bind. rewrite E, Hexec. simpl fst. simpl snd.
      destruct (IH (results ++ [r]) _ s1 Hm1)
        as (rs & stop & ms & s2 & Hpage2 & E2 & Hm2 & Hans2 & Hrep2 & Hran2
            & Hposted2 & Hclock2 & Hbusy2 & Hopen2).
      { rewrite last_n_length. unfold MAX_HISTORY. lia. }
      exists (r :: rs), stop, (m :: ms), s2. rewrite Hpage2, E2.
      rewrite last_n_last_n in *. rewrite <- !app_assoc in *. simpl.
      split; [reflexivity |]. split; [reflexivity |]. split; [exact Hm2 |].
      split; [now constructor |]. split; [now constructor |].
      split; [rewrite Hran2, Hran1, <- app_assoc; reflexivity |].
      repeat split; try congruence. lia.
    + unfold bind. rewrite E, Hexec.
      exists [], (Some e), [], s1. rewrite app_nil_r, (last_n_all _ _ Hlen).
      simpl. rewrite Nat.add_0_r.
      split; [reflexivity |]. split; [reflexivity |]. split; [congruence |].
      split; [constructor |]. split; [constructor |]. auto.
Qed.

Lemma note_plan_full (reply : ChatResponse) (history : list ChatMessage)
  (s : session) :
  messages s = history ->
  List.length history <= MAX_HISTORY ->
  exists s1,
    note_plan reply history s
    = (Returned (last_n MAX_HISTORY
                   (history ++ plan_entries reply (now_iso (clock s)))), s1) /\
    messages s1
    = last_n MAX_HISTORY (history ++ plan_entries reply (now_iso (clock s))) /\
    ran s1 = ran s /\ page s1 = page s /\ posted s1 = posted s /\
    clock s1 = clock s + List.length (plan_entries reply (now_iso (clock s))) /\
    isBusy s1 = isBusy s /\ isOpen s1 = isOpen s /\ draft s1 = draft s.
Proof.
  intros Hm Hlen. unfold note_plan, plan_entries.
  destruct (nonempty (trim (assistantMessage reply))).
  - eexists. split; [reflexivity |]. simpl. repeat split. lia.
  - exists s. rewrite app_nil_r, (last_n_all _ _ Hlen). unfold ret. simpl.
    rewrite Nat.add_0_r. auto 10.
Qed.

Lemma act_with_calls (message : string) (reply : ChatResponse)
  (history : list ChatMessage) (s : session) (calls : list ToolCall) :
  messages s = history ->
  List.length history <= MAX_HISTORY ->
  awaitingToolResults reply = true ->
  toolCalls reply = Some calls ->
  calls <> [] ->
  exists rs stop ms d1,
    run_on_page (firstn MAX_TOOL_CALLS_PER_TURN calls) (page s) = (rs, stop, d1) /\
    Forall2 answers
      (firstn (List.length rs) (firstn MAX_TOOL_CALLS_PER_TURN calls)) rs /\
    Forall2 reports rs ms /\
    (forall r s4, act message reply history s = (r, s4) ->
                  ran s4
                  = ran s ++ reached (firstn MAX_TOOL_CALLS_PER_TURN calls) rs stop /\
                  isBusy s4 = isBusy s) /\
    (forall e,
       stop = Some e ->
       exists s4,
         act message reply history s = (Threw e, s4) /\
         messages s4 = last_n MAX_HISTORY (history ++ ms) /\
         posted s4 = posted s /\
         clock s4 = clock s + List.length rs) /\
    (stop = None ->
     forall snapshot final,
       extractPageSnapshot (clock s + List.length rs) d1 = Returned snapshot ->
       postChat (posted s)
         (final_request message (last_n MAX_HISTORY (history ++ ms)) snapshot rs)
       = Returned final ->
       exists s4,
         act message reply history s = (Returned tt, s4) /\
         messages s4
         = last_n MAX_HISTORY
             (history ++ ms
              ++ [final_entry final (now_iso (S (clock s + List.length rs)))]) /\
         posted s4 = S (posted s)).
Proof.
  intros Hm Hlen Haw Hcalls Hne. unfold act. rewrite Haw, Hcalls.
  assert ((0 <? List.length (firstn MAX_TOOL_CALLS_PER_TURN calls)) = true) as ->
    by (destruct calls; [contradiction | reflexivity]).
  cbn [andb].
  destruct (run_calls_full (firstn MAX_TOOL_CALLS_PER_TURN calls) [] history s
              Hm Hlen)
    as (rs & stop & ms & s1 & Hpage & E & Hm1 & Hans & Hrep & Hran1 & Hposted1
        & Hclock1 & Hbusy1 & Hopen1).
  exists rs, stop, ms, (page s1). split; [exact Hpage |]. split; [exact Hans |].
  split; [exact Hrep |].
  split; [| split].
  - intros r s4. rewrite bind_eq, E.
    destruct stop as [e |]; [intros [= <- <-]; auto |].
    cbn [fst snd app].
    rewrite bind_eq. unfold take_snapshot at 1.
    destruct (extractPageSnapshot _ (page s1)) as [snap | e].
    2: { intros [= <- <-]. simpl. auto. }
    rewrite bind_eq. unfold post at 1.
    destruct (postChat _ _) as [final | e].
    2: { intros [= <- <-]. simpl. auto. }
    unfold bind, createMessage, append_message, ret. simpl.
    intros [= <- <-]. simpl. auto.
  - intros e ->. exists s1. rewrite bind_eq, E. auto.
  - intros -> snapshot final Hsnap Hpost. rewrite bind_eq, E. cbn [fst snd app].
    rewrite bind_eq. unfold take_snapshot at 1. rewrite Hclock1, Hsnap.
    rewrite bind_eq. unfold post at 1. cbn [posted tick]. rewrite Hposted1.
    unfold final_request in Hpost. rewrite Hpost.
    unfold bind, createMessage, append_message, ret. simpl.
    eexists. split; [reflexivity |]. simpl.
    rewrite last_n_last_n, <- app_assoc, Hclock1, Hposted1. auto.
Qed.

Lemma on_error_messages (e : thrown) (s : session) :
  messages (snd (on_error e s))
  = last_n MAX_HISTORY (messages s ++ [failure_entry e (now_iso (clock s))]).
Proof. reflexivity. Qed.

Lemma history_with (older head : list ChatMessage) (u : ChatMessage)
  (planned rest : list ChatMessage) :
  head = last_n MAX_HISTORY (older ++ [u]) ->
  last_n MAX_HISTORY (last_n MAX_HISTORY (head ++ planned) ++ rest)
  = last_n MAX_HISTORY (older ++ u :: planned ++ rest).
Proof.
  intros ->. rewrite last_n_last_n, <- app_assoc, last_n_last_n, <- app_assoc.
  reflexivity.
Qed.

(** X25.  A turn with actions.  When the planning reply awaits tool
    results and carries calls, the first three of them are run in order,
    each on the page as the one before left it, up to the first that
    throws, and each result has the identifier and the name of its call.
    When none throws, the final call is the second call of the turn; it
    carries these results, in order, and the history up to there: the
    user message, the planning text if there is one, and one tool
    message per result.  When it returns, the turn ends with one more
    assistant message, the trimmed text of the final reply or "Action
    completed." when that is blank.  When a call throws, no final call
    is made, and the turn ends with the failure message for what was
    thrown, after the tool messages of the calls before it.  However the
    turn ends, the calls it got to stay run and the panel is idle
    again. *)
Theorem action_turn (raw : string) (s : session) (snap : PageSnapshot)
  (reply : ChatResponse) (calls : list ToolCall) :
  nonempty (trim raw) = true ->
  isBusy s = false ->
  extractPageSnapshot (S (clock s)) (page s) = Returned snap ->
  postChat (posted s) (planning_request raw s snap) = Returned reply ->
  awaitingToolResults reply = true ->
  toolCalls reply = Some calls ->
  calls <> [] ->
  let planned := plan_entries reply (now_iso (S (S (clock s)))) in
  let ticks := S (S (clock s)) + List.length planned in
  exists rs stop ms d1,
    run_on_page (firstn MAX_TOOL_CALLS_PER_TURN calls) (page s) = (rs, stop, d1) /\
    Forall2 answers
      (firstn (List.length rs) (firstn MAX_TOOL_CALLS_PER_TURN calls)) rs /\
    Forall2 reports rs ms /\
    ran (runConversation raw s)
    = ran s ++ reached (firstn MAX_TOOL_CALLS_PER_TURN calls) rs stop /\
    isBusy (runConversation raw s) = false /\
    (forall e,
       stop = Some e ->
       messages (runConversation raw s)
       = last_n MAX_HISTORY
           (messages s
            ++ user_entry raw s
               :: planned ++ ms
               ++ [failure_entry e (now_iso (ticks + List.length rs))]) /\
       posted (runConversation raw s) = S (posted s)) /\
    (stop = None ->
     forall snapshot final,
       extractPageSnapshot (ticks + List.length rs) d1 = Returned snapshot ->
       postChat (S (posted s))
         (final_request (trim raw)
            (last_n MAX_HISTORY (messages s ++ user_entry raw s :: planned ++ ms))
            snapshot rs) = Returned final ->
       messages (runConversation raw s)
       = last_n MAX_HISTORY
           (messages s
            ++ user_entry raw s
               :: planned ++ ms
               ++ [final_entry final (now_iso (S (ticks + List.length rs)))]) /\
       posted (runConversation raw s) = S (S (posted s))).
Proof.
  intros Hne Hbusy Hsnap Hpost Haw Hcalls Hsome planned ticks.
  rewrite (runConversation_started raw s Hne Hbusy).
  destruct (begin_turn_spec raw s)
    as (Hh & Hm2 & Hlen & Hran2 & Hpage2 & Hposted2 & Hclock2).
  set (history := fst (begin_turn (trim raw) s)) in *.
  set (s2 := snd (begin_turn (trim raw) s)) in *.
  destruct (note_plan_full reply history (count_post (tick s2)) Hm2 Hlen)
    as (s5 & Enp & Hm5 & Hran5 & Hpage5 & Hposted5 & Hclock5 & Hbusy5 & _).
  cbn [clock page posted ran isBusy count_post tick] in Enp, Hm5, Hran5, Hpage5,
    Hposted5, Hclock5, Hbusy5.
  rewrite Hclock2 in Enp, Hm5, Hclock5.
  fold planned in Enp, Hm5, Hclock5. fold ticks in Hclock5.
  destruct (act_with_calls (trim raw) reply
              (last_n MAX_HISTORY (history ++ planned)) s5 calls Hm5)
    as (rs & stop & ms & d1 & Hrun & Hans & Hrep & Hany & Hthrown & Hfinal); trivial.
  { rewrite last_n_length. unfold MAX_HISTORY. lia. }
  rewrite Hpage5, Hpage2 in Hrun.
  assert (turn (trim raw) history s2
          = act (trim raw) reply (last_n MAX_HISTORY (history ++ planned)) s5)
    as Eturn.
  { unfold turn. rewrite bind_eq. unfold take_snapshot at 1.
    rewrite Hclock2, Hpage2, Hsnap. rewrite bind_eq. unfold post at 1.
    cbn [posted tick]. rewrite Hposted2.
    unfold planning_request in Hpost. rewrite <- Hh in Hpost. rewrite Hpost.
    rewrite bind_eq, Enp. reflexivity. }
  rewrite Eturn.
  exists rs, stop, ms, d1. split; [exact Hrun |]. split; [exact Hans |].
  split; [exact Hrep |].
  destruct (act (trim raw) reply _ s5) as [r s4] eqn:Eact.
  destruct (Hany r s4 eq_refl) as (Hran4 & Hbusy4).
  assert (ran (set_busy false
                 match r with
                 | Returned _ => s4
                 | Threw error => snd (on_error error s4)
                 end) = ran s4) as -> by (now destruct r).
  split; [rewrite Hran4, Hran5, Hran2; reflexivity |].
  split; [reflexivity |].
  split.
  - intros e Hstop.
    destruct (Hthrown e Hstop) as (s6 & E6 & Hm6 & Hposted6 & Hclock6).
    injection E6 as -> ->. cbn [set_busy messages posted].
    rewrite on_error_messages, (proj1 (on_error_counts e s6)).
    rewrite Hm6, Hposted6, Hposted5, Hposted2, Hclock6, Hclock5.
    split; [| reflexivity].
    rewrite last_n_last_n, <- app_assoc.
    apply (history_with (messages s) history (user_entry raw s) planned _ Hh).
  - intros Hstop snapshot final Hs Hp.
    destruct (Hfinal Hstop snapshot final) as (s6 & E6 & Hm6 & Hposted6).
    + rewrite Hclock5. exact Hs.
    + rewrite Hposted5, Hposted2.
      rewrite (history_with (messages s) history (user_entry raw s) planned ms Hh).
      exact Hp.
    + injection E6 as -> ->. simpl. rewrite Hm6, Hposted6, Hposted5, Hposted2.
      split; [| reflexivity].
      rewrite (history_with (messages s) history (user_entry raw s) planned _ Hh).
      rewrite Hclock5. reflexivity.
Qed.

End ActionTurn.

Lemma action_turn_witness :
  exists rs stop ms d1,
    run_on_page (firstn 3 five_calls) sample_page = (rs, stop, d1) /\
    Forall2 reports rs ms /\
    ran (@runConversation IntegerNumbers SmallBrowser eager
           "Show me the latest project." (fresh_session sample_page))
    = reached (firstn 3 five_calls) rs stop.
Proof.
  assert (@extractPageSnapshot IntegerNumbers SmallBrowser 1 sample_page
          = Returned (snapshot_at 1 sample_page)) as Hsnap
    by (vm_compute; reflexivity).
  assert (five_calls <> []) as Hsome by discriminate.
  destruct (@action_turn IntegerNumbers SmallBrowser eager
              "Show me the latest project." (fresh_session sample_page)
              (snapshot_at 1 sample_page)
              {| assistantMessage := "On it."; toolCalls := Some five_calls;
                 awaitingToolResults := true |}
              five_calls eq_refl eq_refl Hsnap eq_refl eq_refl eq_refl Hsome)
    as (rs & stop & ms & d1 & Hrun & _ & Hrep & H & _).
  exists rs, stop, ms, d1. split; [exact Hrun |]. split; [exact Hrep |]. exact H.
Defined.

(** Three requests with a click on a drawing in second place: the turn
    runs the first request and the click, which throws; the third
    request is not run, no final call is made, and the history ends with
    the failure message. *)
Example click_on_svg_ends_turn :
  let after := @runConversation IntegerNumbers SmallBrowser clicking
                 "Click the logo." (fresh_session icon_page) in
  map tc_id (ran after) = ["call-1"; "call-2"] /\
  posted after = 1 /\ isBusy after = false /\
  map content (messages after)
  = [ "Click the logo."; "On it.";
      "scroll_by: Scrolled down by 200 pixels.";
      "I couldn't complete that request. target.click is not a function" ].
Proof. vm_compute. repeat split. Qed.
